(** * Taipei eBus scraper: extraction, persistence and driver loop

    A shallow embedding of the scraping pipeline of the repository
    (00003.py, main.py, interactive_bus_info.py, route_stop_info.py,
    bus_info_project/main.py and scraper/realtime_scraper.py) and the
    properties of its record extractor, its store and its driver loop.

    Page text is a list of characters.  The character classes of the
    patterns ([\d], [\s], [.], [[^>]]) are given by their ASCII members. *)

From Stdlib Require Import List Ascii String ZArith QArith Qpower Lia Bool
  Arith Permutation Sorted.
Import ListNotations.

Set Implicit Arguments.

Local Close Scope Q_scope.
Local Open Scope list_scope.

(** ** Text *)

Definition text := list ascii.

(** A double quote inside a text literal is written as a backquote:
    [t "<a href=`x`>"] is the text [<a href="x">]. *)
Definition dquote : ascii := "034"%char.

Definition t (s : string) : text :=
  map (fun c => if Ascii.eqb c "`"%char then dquote else c)
      (list_ascii_of_string s).

Definition text_eqb (a b : text) : bool :=
  String.eqb (string_of_list_ascii a) (string_of_list_ascii b).

(** ** Exceptions and results *)

Inductive exn : Type :=
| ValueError (msg : string)
| TimeoutError (msg : string)
| OverflowError (msg : string)
| OperationalError (msg : string).

Inductive result (A : Type) : Type :=
| Ok (a : A)
| Raise (e : exn).
Arguments Ok {A} a.
Arguments Raise {A} e.

Definition bind {A B} (r : result A) (f : A -> result B) : result B :=
  match r with
  | Ok a => f a
  | Raise e => Raise e
  end.

Notation "x <- c ;; k" := (bind c (fun x => k))
  (at level 61, c at next level, right associativity).

Fixpoint mapM {A B} (f : A -> result B) (l : list A) : result (list B) :=
  match l with
  | [] => Ok []
  | a :: l' => b <- f a ;; bs <- mapM f l' ;; Ok (b :: bs)
  end.

(** ** The [re] patterns of the scrapers

    Every pattern of the repository is a sequence of literals and of
    repetitions of one character class, some of them capturing:
    [.*?] (with DOTALL), [\s*], [(\d+)], [[^>]+], [([\d\.]+)].  The
    matcher is the backtracking matcher of [re]: a lazy repetition tries
    the rest of the pattern before it takes one more character, a greedy
    one takes all it can and gives characters back. *)

Inductive item : Type :=
| Lit (l : text)
| Rep (capture greedy : bool) (min : nat) (cls : ascii -> bool).

Definition pattern := list item.

Definition is_digit (c : ascii) : bool :=
  let n := nat_of_ascii c in (48 <=? n) && (n <=? 57).

Definition is_space (c : ascii) : bool :=
  let n := nat_of_ascii c in
  ((9 <=? n) && (n <=? 13)) || ((28 <=? n) && (n <=? 32)).

Definition any_char (_ : ascii) : bool := true.

Definition not_gt (c : ascii) : bool := negb (Ascii.eqb c ">"%char).

Definition digit_or_dot (c : ascii) : bool :=
  is_digit c || Ascii.eqb c "."%char.

Fixpoint strip_prefix (l s : text) : option text :=
  match l, s with
  | [], _ => Some s
  | a :: l', b :: s' => if Ascii.eqb a b then strip_prefix l' s' else None
  | _ :: _, [] => None
  end.

Section Repetition.
(** [k] is the matcher of the rest of the pattern: captures and the
    text left after the match. *)
Variable k : text -> option (list text * text).
Variable cls : ascii -> bool.

Definition rest_here (s : text) : option (text * list text * text) :=
  match k s with
  | Some (caps, rest) => Some ([], caps, rest)
  | None => None
  end.

Definition take (c : ascii) (r : option (text * list text * text)) :=
  match r with
  | Some (m, caps, rest) => Some (c :: m, caps, rest)
  | None => None
  end.

Fixpoint rep_lazy (s : text) : option (text * list text * text) :=
  match rest_here s with
  | Some r => Some r
  | None =>
      match s with
      | c :: s' => if cls c then take c (rep_lazy s') else None
      | [] => None
      end
  end.

Fixpoint rep_greedy (s : text) : option (text * list text * text) :=
  match s with
  | c :: s' =>
      if cls c then
        match take c (rep_greedy s') with
        | Some r => Some r
        | None => rest_here s
        end
      else rest_here s
  | [] => rest_here s
  end.

Fixpoint rep_min (greedy : bool) (min : nat) (s : text)
  : option (text * list text * text) :=
  match min with
  | 0 => if greedy then rep_greedy s else rep_lazy s
  | S m =>
      match s with
      | c :: s' => if cls c then take c (rep_min greedy m s') else None
      | [] => None
      end
  end.
End Repetition.

Fixpoint match_items (p : pattern) : text -> option (list text * text) :=
  match p with
  | [] => fun s => Some ([], s)
  | Lit l :: p' =>
      fun s =>
        match strip_prefix l s with
        | Some s' => match_items p' s'
        | None => None
        end
  | Rep capture greedy min cls :: p' =>
      fun s =>
        match rep_min (match_items p') cls greedy min s with
        | Some (m, caps, rest) =>
            Some (if capture then m :: caps else caps, rest)
        | None => None
        end
  end.

(** [re.findall]: leftmost matches, scanning on from the end of each
    match; [fuel] bounds the number of scan steps. *)
Fixpoint findall_from (fuel : nat) (p : pattern) (s : text)
  : list (list text) :=
  match fuel with
  | 0 => []
  | S f =>
      let next :=
        match s with [] => [] | _ :: s' => findall_from f p s' end in
      match match_items p s with
      | Some (caps, rest) =>
          caps :: (if List.length rest <? List.length s
                   then findall_from f p rest
                   else next)
      | None => next
      end
  end.

Definition findall (p : pattern) (s : text) : list (list text) :=
  findall_from (S (List.length s)) p s.

(** [r'<li><a href="javascript:go\(\'(.*?)\'\)">(.*?)</a></li>'] with
    [re.DOTALL] (00003.py, realtime_scraper.py: parse_route_list). *)
Definition route_pattern : pattern :=
  [ Lit (t "<li><a href=`javascript:go('");
    Rep true false 0 any_char;
    Lit (t "')`>");
    Rep true false 0 any_char;
    Lit (t "</a></li>") ].

Fixpoint strip_left (s : text) : text :=
  match s with
  | c :: s' => if is_space c then strip_left s' else s
  | [] => []
  end.

(** [str.strip()] *)
Definition strip (s : text) : text := rev (strip_left (rev (strip_left s))).

Definition pair_of (caps : list text) : text * text :=
  match caps with
  | [a; b] => (a, b)
  | _ => ([], [])
  end.

Definition RouteFrame := list (text * text).

Definition parse_route_list (content : text) : result RouteFrame :=
  let matches := map pair_of (findall route_pattern content) in
  match matches with
  | [] => Raise (ValueError "No data found for route table")
  | _ =>
      Ok (map (fun '(route_id, route_name) => (route_id, strip route_name))
              matches)
  end.

(** ** Numerals: [int()] and [float()]

    [float(s)] is given by the decimal number it reads, a rational; the
    double that Python returns is that number rounded to the nearest
    double, and rounding keeps the sign.  The literals [inf], [nan] and
    digit-group underscores are left out. *)

Fixpoint span (cls : ascii -> bool) (s : text) : text * text :=
  match s with
  | c :: s' =>
      if cls c then let (a, b) := span cls s' in (c :: a, b) else ([], s)
  | [] => ([], [])
  end.

Definition digit_value (c : ascii) : Z := Z.of_nat (nat_of_ascii c) - 48.

Definition digits_value (s : text) : Z :=
  fold_left (fun acc c => (acc * 10 + digit_value c)%Z) s 0%Z.

Definition read_sign (s : text) : bool * text :=
  match s with
  | c :: r =>
      if Ascii.eqb c "-"%char then (true, r)
      else if Ascii.eqb c "+"%char then (false, r)
      else (false, s)
  | [] => (false, s)
  end.

Definition signed (neg : bool) (n : Z) : Z := if neg then (- n)%Z else n.

Definition is_nil (s : text) : bool :=
  match s with [] => true | _ => false end.

Definition py_int (s : text) : option Z :=
  let (neg, r) := read_sign (strip s) in
  let (ds, rest) := span is_digit r in
  if is_nil ds || negb (is_nil rest) then None
  else Some (signed neg (digits_value ds)).

Definition read_exponent (s : text) : option Z :=
  match s with
  | [] => Some 0%Z
  | c :: r =>
      if Ascii.eqb c "e"%char || Ascii.eqb c "E"%char then
        let (neg, r1) := read_sign r in
        let (ds, rest) := span is_digit r1 in
        if is_nil ds || negb (is_nil rest) then None
        else Some (signed neg (digits_value ds))
      else None
  end.

Definition py_float (s : text) : option Q :=
  let (neg, r) := read_sign (strip s) in
  let (ip, r1) := span is_digit r in
  let (fp, r2) :=
    match r1 with
    | c :: r' => if Ascii.eqb c "."%char then span is_digit r' else ([], r1)
    | [] => ([], r1)
    end in
  if is_nil ip && is_nil fp then None
  else
    match read_exponent r2 with
    | Some e =>
        Some (inject_Z (signed neg (digits_value (ip ++ fp)))
              * Qpower (10 # 1) (e - Z.of_nat (List.length fp)))%Q
    | None => None
    end.

(** ** Data frames

    A cell of a frame or of a table holds a Python object: the captured
    text, or the number a column was converted to. *)

Inductive cell : Type :=
| Str (s : text)
| Int (n : Z)
| Float (q : Q).

Definition is_numeric (c : cell) : bool :=
  match c with
  | Str _ => false
  | _ => true
  end.

Record StopRow : Type := mkStopRow {
  arrival_info : text;
  stop_number : cell;
  stop_name : text;
  stop_id : cell;
  latitude : cell;
  longitude : cell;
  direction : text;
  route_id : text
}.

Definition StopFrame := list StopRow.

Definition float_error : exn :=
  ValueError "could not convert string to float".

(** [Series.astype(float)] on one value *)
Definition astype_float (c : cell) : result cell :=
  match c with
  | Str s =>
      match py_float s with
      | Some q => Ok (Float q)
      | None => Raise float_error
      end
  | Int n => Ok (Float (inject_Z n))
  | Float q => Ok (Float q)
  end.

(** [Series.astype(int)] on one value; the column becomes an int64
    column, so a numeral out of its range raises. *)
Definition int64_max : Z := 9223372036854775807.

Definition astype_int (c : cell) : result cell :=
  match c with
  | Str s =>
      match py_int s with
      | Some n =>
          if ((- int64_max - 1 <=? n) && (n <=? int64_max))%Z
          then Ok (Int n)
          else Raise (OverflowError "Python int too large to convert")
      | None => Raise (ValueError "invalid literal for int() with base 10")
      end
  | Int n => Ok (Int n)
  | Float q => Ok (Int (Z.quot (Qnum q) (Zpos (Qden q))))
  end.

Definition set_latitude (r : StopRow) (c : cell) : StopRow :=
  mkStopRow (arrival_info r) (stop_number r) (stop_name r) (stop_id r)
            c (longitude r) (direction r) (route_id r).

Definition set_longitude (r : StopRow) (c : cell) : StopRow :=
  mkStopRow (arrival_info r) (stop_number r) (stop_name r) (stop_id r)
            (latitude r) c (direction r) (route_id r).

Definition set_stop_number (r : StopRow) (c : cell) : StopRow :=
  mkStopRow (arrival_info r) c (stop_name r) (stop_id r)
            (latitude r) (longitude r) (direction r) (route_id r).

(** [df[col] = df[col].astype(...)] *)
Definition astype (conv : cell -> result cell) (get : StopRow -> cell)
  (set : StopRow -> cell -> StopRow) (df : StopFrame) : result StopFrame :=
  col <- mapM (fun r => conv (get r)) df ;;
  Ok (map (fun rc => set (fst rc) (snd rc)) (combine df col)).

(** ** The stop-list pattern (00003.py, interactive_bus_info.py,
    realtime_scraper.py: parse_route_info), compiled with [re.DOTALL] *)

Definition input_field (name : text) (cls : ascii -> bool) : pattern :=
  [ Lit (t "<input");
    Rep false true 1 not_gt;
    Lit (t "name=`item." ++ name ++ t "`");
    Rep false true 1 not_gt;
    Lit (t "value=`");
    Rep true true 1 cls;
    Lit (t "`");
    Rep false true 0 not_gt;
    Lit (t ">") ].

Definition stop_head : pattern :=
  [ Lit (t "<li>");
    Rep false false 0 any_char;
    Lit (t "<span class=`auto-list-stationlist-position");
    Rep false false 0 any_char;
    Lit (t "`>");
    Rep true false 0 any_char;
    Lit (t "</span>");
    Rep false true 0 is_space;
    Lit (t "<span class=`auto-list-stationlist-number`>");
    Rep false true 0 is_space;
    Rep true true 1 is_digit;
    Lit (t "</span>");
    Rep false true 0 is_space;
    Lit (t "<span class=`auto-list-stationlist-place`>");
    Rep true false 0 any_char;
    Lit (t "</span>") ].

Definition skip : pattern := [ Rep false false 0 any_char ].

Definition stop_pattern : pattern :=
  stop_head ++ skip ++
  input_field (t "UniStopId") is_digit ++ skip ++
  input_field (t "Latitude") digit_or_dot ++ skip ++
  input_field (t "Longitude") digit_or_dot.

(** [pd.DataFrame(matches, columns=[...])] followed by the two columns
    [direction] and [route_id] *)
Definition stop_row (dir rid : text) (caps : list text) : StopRow :=
  match caps with
  | [a; n; name; sid; lat; lon] =>
      mkStopRow a (Str n) name (Str sid) (Str lat) (Str lon) dir rid
  | _ => mkStopRow [] (Str []) [] (Str []) (Str []) (Str []) dir rid
  end.

Definition stop_frame (dir rid content : text) : StopFrame :=
  map (stop_row dir rid) (findall stop_pattern content).

Definition no_data (rid : text) : exn :=
  ValueError ("No data found for route ID " ++ string_of_list_ascii rid).

Module V00003.
(** 00003.py: the frame keeps the captured texts. *)
Definition parse_route_info (dir rid content : text) : result StopFrame :=
  match stop_frame dir rid content with
  | [] => Raise (no_data rid)
  | df => Ok df
  end.
End V00003.

Module Realtime.
(** scraper/realtime_scraper.py: latitude, longitude and stop_number
    are converted, in this order. *)
Definition parse_route_info (dir rid content : text) : result StopFrame :=
  match stop_frame dir rid content with
  | [] => Raise (no_data rid)
  | df =>
      df1 <- astype astype_float latitude set_latitude df ;;
      df2 <- astype astype_float longitude set_longitude df1 ;;
      astype astype_int stop_number set_stop_number df2
  end.
End Realtime.

(** What a function prints. *)
Inductive printed : Type :=
| NoStopData (rid dir : text)
| ParsedStops (rid dir : text) (n : nat)
| ClickFailed (e : exn)
| Fetching (rid dir : text).

Module Interactive.
(** interactive_bus_info.py: on no match the function prints and
    returns an empty frame; latitude and longitude are converted. *)
Definition parse_route_info (dir rid content : text)
  : result StopFrame * list printed :=
  match stop_frame dir rid content with
  | [] => (Ok [], [NoStopData rid dir])
  | df =>
      match (df1 <- astype astype_float latitude set_latitude df ;;
             astype astype_float longitude set_longitude df1) with
      | Ok df2 => (Ok df2, [ParsedStops rid dir (List.length df2)])
      | Raise e => (Raise e, [])
      end
  end.
End Interactive.

(** ** The store

    One SQLite file with the tables [data_route_list] and
    [data_route_info_busstop].  A table is the list of its rows in
    storage order; its primary key is unique among them. *)

(** The refresh status of a route: the enum of realtime_scraper.py, the
    integers 0, 1 and 2 of 00003.py. *)
Inductive RouteStatus : Type := pending | updated | failed.

Definition status_eqb (a b : RouteStatus) : bool :=
  match a, b with
  | pending, pending | updated, updated | failed, failed => true
  | _, _ => false
  end.

Module RouteORM.
Record t : Type := mk {
  route_id : text;
  route_name : text;
  route_data_updated : RouteStatus
}.
End RouteORM.

Module StopORM.
Record t : Type := mk {
  stop_id : cell;
  arrival_info : text;
  stop_number : cell;
  stop_name : text;
  latitude : cell;
  longitude : cell;
  direction : text;
  route_id : text
}.
End StopORM.

Definition cell_eqb (a b : cell) : bool :=
  match a, b with
  | Str x, Str y => text_eqb x y
  | Int x, Int y => Z.eqb x y
  | Float x, Float y => Z.eqb (Qnum x) (Qnum y) && Pos.eqb (Qden x) (Qden y)
  | _, _ => false
  end.

(** The column affinity of SQLite: a text that reads as a number is
    stored as that number in an INTEGER or FLOAT column (given here for
    the numerals the patterns capture). *)
Definition integer_affinity (c : cell) : cell :=
  match c with
  | Str s => match py_int s with Some n => Int n | None => Str s end
  | _ => c
  end.

Definition real_affinity (c : cell) : cell :=
  match c with
  | Str s => match py_float s with Some q => Float q | None => Str s end
  | Int n => Float (inject_Z n)
  | Float q => Float q
  end.

(** An ORM mapping: the identity key of a stored row and of an instance
    handed to [session.merge], and [load], the state of the instance
    copied onto the persistent row of its key (or onto a new row).  Only
    the attributes the instance sets are copied. *)
Record Mapper (Obj Row Key : Type) : Type := {
  key_of_obj : Obj -> Key;
  key_of_row : Row -> Key;
  key_eqb : Key -> Key -> bool;
  load : Obj -> option Row -> Row
}.

Section Session.
Variables Obj Row Key : Type.
Variable M : Mapper Obj Row Key.

(** [session.merge(obj)] *)
Fixpoint merge (o : Obj) (tbl : list Row) : list Row :=
  match tbl with
  | [] => [load M o None]
  | r :: tbl' =>
      if key_eqb M (key_of_row M r) (key_of_obj M o)
      then load M o (Some r) :: tbl'
      else r :: merge o tbl'
  end.

(** [for _, row in df.iterrows(): session.merge(...)] and the commit *)
Definition merge_all (os : list Obj) (tbl : list Row) : list Row :=
  fold_left (fun tb o => merge o tb) os tbl.

(** [session.query(orm).filter_by(key).first()] *)
Definition get (k : Key) (tbl : list Row) : option Row :=
  find (fun r => key_eqb M (key_of_row M r) k) tbl.

Definition rows_with (k : Key) (tbl : list Row) : list Row :=
  filter (fun r => key_eqb M (key_of_row M r) k) tbl.

(** The instance written last for key [k] *)
Definition last_with (k : Key) (os : list Obj) : option Obj :=
  find (fun o => key_eqb M (key_of_obj M o) k) (rev os).

(** The primary-key constraint of a table *)
Definition unique_keys (tbl : list Row) : Prop :=
  NoDup (map (key_of_row M) tbl).
End Session.

Definition route_mapper : Mapper (text * text) RouteORM.t text := {|
  key_of_obj := fst;
  key_of_row := RouteORM.route_id;
  key_eqb := text_eqb;
  load := fun o old =>
    RouteORM.mk (fst o) (snd o)
      match old with
      | Some r => RouteORM.route_data_updated r
      | None => pending
      end
|}.

Definition stop_key : Type := text * text * cell.

Definition stop_key_eqb (a b : stop_key) : bool :=
  let '(r1, d1, n1) := a in
  let '(r2, d2, n2) := b in
  text_eqb r1 r2 && text_eqb d1 d2 && cell_eqb n1 n2.

Definition stop_orm (r : StopRow) : StopORM.t :=
  StopORM.mk (integer_affinity (stop_id r)) (arrival_info r)
             (integer_affinity (stop_number r)) (stop_name r)
             (real_affinity (latitude r)) (real_affinity (longitude r))
             (direction r) (route_id r).

Definition stop_mapper : Mapper StopRow StopORM.t stop_key := {|
  key_of_obj := fun r =>
    (route_id r, direction r, integer_affinity (stop_number r));
  key_of_row := fun r =>
    (StopORM.route_id r, StopORM.direction r, StopORM.stop_number r);
  key_eqb := stop_key_eqb;
  load := fun o _ => stop_orm o
|}.

Module taipei_route_list.
Definition save_to_database (df : RouteFrame) (tbl : list RouteORM.t)
  : list RouteORM.t :=
  merge_all route_mapper df tbl.

Definition read_from_database (tbl : list RouteORM.t) : list RouteORM.t :=
  tbl.
End taipei_route_list.

Module taipei_route_info.
Definition save_to_database (df : StopFrame) (tbl : list StopORM.t)
  : list StopORM.t :=
  merge_all stop_mapper df tbl.
End taipei_route_info.

Definition id_name (r : RouteORM.t) : text * text :=
  (RouteORM.route_id r, RouteORM.route_name r).

Module Main.
(** main.py, fetch_all_routes: a route is added only when no row has
    its route_id yet. *)
Definition add_if_absent (o : text * text) (tbl : list RouteORM.t)
  : list RouteORM.t :=
  match get route_mapper (fst o) tbl with
  | Some _ => tbl
  | None => tbl ++ [RouteORM.mk (fst o) (strip (snd o)) pending]
  end.

Definition store_routes (matches : list (text * text))
  (tbl : list RouteORM.t) : list RouteORM.t :=
  fold_left (fun tb o => add_if_absent o tb) matches tbl.
End Main.

(** [session.query(orm).filter_by(route_id=...).update({...})] *)
Definition set_route_status (rid : text) (st : RouteStatus)
  (tbl : list RouteORM.t) : list RouteORM.t :=
  map (fun r =>
         if text_eqb (RouteORM.route_id r) rid
         then RouteORM.mk (RouteORM.route_id r) (RouteORM.route_name r) st
         else r) tbl.

Definition status_of (rid : text) (tbl : list RouteORM.t)
  : option RouteStatus :=
  option_map RouteORM.route_data_updated (get route_mapper rid tbl).

(** ** The page renderer

    The browser is the outside world: [goto] gives the page a URL loads,
    [click] the page after a click on a selector; either may raise.
    [page.content()] is the page itself; waiting has no effect here. *)

Record Browser : Type := {
  goto : text -> result text;
  click : text -> text -> result text
}.

Definition stops_url (rid : text) : text :=
  t "https://ebus.gov.taipei/Route/StopsOfRoute?routeid=" ++ rid.

Definition list_url : text := t "https://ebus.gov.taipei/ebus?ct=all".

Definition come_button : text :=
  t "a.stationlist-come-go-gray.stationlist-come".

(** 00003.py and realtime_scraper.py, taipei_route_info._fetch_content *)
Definition _fetch_content (b : Browser) (rid dir : text) : result text :=
  page <- goto b (stops_url rid) ;;
  page' <- (if text_eqb dir (t "come") then click b come_button page
            else Ok page) ;;
  Ok page'.

(** taipei_route_info.__init__ of the same two files (the HTML file
    that realtime_scraper.py may write for inspection is left out) *)
Definition new_route_info (b : Browser) (rid dir : text) : result text :=
  if text_eqb dir (t "go") || text_eqb dir (t "come")
  then _fetch_content b rid dir
  else Raise (ValueError "Direction must be 'go' or 'come'").

Module InteractiveFetch.
(** interactive_bus_info.py, taipei_route_info.fetch_route_info *)
Definition fetch_route_info (b : Browser) (rid dir : text)
  : result text * list printed :=
  match goto b (stops_url rid) with
  | Raise e => (Raise e, [Fetching rid dir])
  | Ok page =>
      if text_eqb dir (t "come") then
        match click b come_button page with
        | Ok page' => (Ok page', [Fetching rid dir])
        | Raise e => (Ok page, [Fetching rid dir; ClickFailed e])
        end
      else (Ok page, [Fetching rid dir])
  end.
End InteractiveFetch.

(** ** The driver loops of 00003.py and realtime_scraper.py *)

Inductive script : Type := script_00003 | realtime_scraper.

Inductive event : Type :=
| StatusWrite (rid : text) (old new : RouteStatus)
| ErrorPrinted (rid : text) (e : exn).

Record State : Type := mkState {
  data_route_list : list RouteORM.t;
  data_route_info_busstop : list StopORM.t;
  events : list event
}.

(** The rows an UPDATE of the status of [rid] rewrites *)
Definition status_writes (rid : text) (st : RouteStatus)
  (tbl : list RouteORM.t) : list event :=
  map (fun r => StatusWrite rid (RouteORM.route_data_updated r) st)
      (rows_with route_mapper rid tbl).

Section Driver.
Variable v : script.
Variable browser : Browser.
(** whether the store accepts the commit of a frame *)
Variable commit_ok : StopFrame -> bool.
(** plot_route_map of 00003.py: it may raise *)
Variable plot_route_map : text -> StopFrame -> result unit.
(** whether a status, as [pd.read_sql] gives it, equals the string
    ['pending']: so it is for pending alone when the column comes back
    as text, and for no status when it comes back as enum members *)
Variable reads_pending : RouteStatus -> bool.

Definition parse_route_info (dir rid content : text) : result StopFrame :=
  match v with
  | script_00003 => V00003.parse_route_info dir rid content
  | realtime_scraper => Realtime.parse_route_info dir rid content
  end.

Definition after_save (rid : text) (df : StopFrame) : result unit :=
  match v with
  | script_00003 => plot_route_map rid df
  | realtime_scraper => Ok tt
  end.

(** fetch and parse: the first two statements of the [try] block *)
Definition scrape (rid : text) : result StopFrame :=
  content <- new_route_info browser rid (t "go") ;;
  parse_route_info (t "go") rid content.

Definition mark (rid : text) (s : RouteStatus) (log : list event)
  (st : State) : State :=
  mkState (set_route_status rid s (data_route_list st))
          (data_route_info_busstop st)
          (events st ++ log ++ status_writes rid s (data_route_list st)).

Definition on_error (rid : text) (e : exn) (st : State) : State :=
  mark rid failed [ErrorPrinted rid e] st.

Definition saved (df : StopFrame) (st : State) : State :=
  mkState (data_route_list st)
          (taipei_route_info.save_to_database df
             (data_route_info_busstop st))
          (events st).

(** One iteration of [for route_id in bus_list: try: ... except: ...] *)
Definition step (st : State) (rid : text) : State :=
  match scrape rid with
  | Raise e => on_error rid e st
  | Ok df =>
      if commit_ok df then
        match after_save rid df with
        | Ok _ => mark rid updated [] (saved df st)
        | Raise e => on_error rid e (saved df st)
        end
      else on_error rid (OperationalError "commit failed") st
  end.

Definition run_loop (bus_list : list text) (st : State) : State :=
  fold_left step bus_list st.

(** The frame the [try] block of a route commits to the store, if it
    gets that far *)
Definition persisted (rid : text) : option StopFrame :=
  match scrape rid with
  | Ok df => if commit_ok df then Some df else None
  | Raise _ => None
  end.

Definition save_persisted (rid : text) (tbl : list StopORM.t)
  : list StopORM.t :=
  match persisted rid with
  | Some df => taipei_route_info.save_to_database df tbl
  | None => tbl
  end.

(** The exception the [try] block of a route raises, if any *)
Definition failure (rid : text) : option exn :=
  match scrape rid with
  | Raise e => Some e
  | Ok df =>
      if commit_ok df then
        match after_save rid df with
        | Ok _ => None
        | Raise e => Some e
        end
      else Some (OperationalError "commit failed")
  end.

Definition succeeds (rid : text) : bool :=
  match failure rid with
  | None => true
  | Some _ => false
  end.

Definition verdict (rid : text) : RouteStatus :=
  if succeeds rid then updated else failed.

(** What one attempt on a route still pending prints and writes *)
Definition attempt_events (rid : text) : list event :=
  match failure rid with
  | Some e => [ErrorPrinted rid e]
  | None => []
  end ++ [StatusWrite rid pending (verdict rid)].

(** realtime_scraper.py reads back from the store the routes whose
    status compares equal to ['pending']; 00003.py has its list in the
    script. *)
Definition pending_ids (tbl : list RouteORM.t) : list text :=
  map RouteORM.route_id
      (filter (fun r => reads_pending (RouteORM.route_data_updated r))
              (taipei_route_list.read_from_database tbl)).

Definition bus_list (tbl : list RouteORM.t) : list text :=
  match v with
  | script_00003 => [t "0161000900"]
  | realtime_scraper => pending_ids tbl
  end.

(** [__main__] *)
Definition main (st0 : State) : result State :=
  content <- goto browser list_url ;;
  df <- parse_route_list content ;;
  let routes :=
    taipei_route_list.save_to_database df (data_route_list st0) in
  Ok (run_loop (bus_list routes)
               (mkState routes (data_route_info_busstop st0) [])).
End Driver.

(** The two ways the status column may come back from [pd.read_sql]:
    as text, where exactly pending equals ['pending'], or as members of
    the enum, none of which equals a string. *)
Definition reads_as_text (s : RouteStatus) : bool := status_eqb s pending.

Definition reads_as_enum (_ : RouteStatus) : bool := false.

(** The status writes of a route among the events of a run *)
Definition writes_of (rid : text) (evs : list event) : list event :=
  filter (fun e =>
            match e with
            | StatusWrite r _ _ => text_eqb r rid
            | ErrorPrinted _ _ => false
            end) evs.

(** The stored stops of the routes other than [rid] *)
Definition stops_of_others (rid : text) (tbl : list StopORM.t)
  : list StopORM.t :=
  filter (fun row => negb (text_eqb (StopORM.route_id row) rid)) tbl.

(** The stored stops of the route [rid] *)
Definition stops_of (rid : text) (tbl : list StopORM.t) : list StopORM.t :=
  filter (fun row => text_eqb (StopORM.route_id row) rid) tbl.

(** ** The static route finder (route_stop_info.py, bus_info_project/main.py) *)

Module BusRouteFinder.
Record Row : Type := mkRow {
  route_name : text;
  direction_text : text;
  stop_number : Z;
  stop_name : text
}.

Record Found : Type := mkFound {
  found_route_name : text;
  found_direction_text : text;
  stops : list text
}.

Fixpoint text_leb (a b : text) : bool :=
  match a, b with
  | [], _ => true
  | _ :: _, [] => false
  | x :: a', y :: b' =>
      if Ascii.eqb x y then text_leb a' b'
      else nat_of_ascii x <? nat_of_ascii y
  end.

Definition key : Type := text * text.

Definition key_of (r : Row) : key := (route_name r, direction_text r).

Definition key_eqb (a b : key) : bool :=
  text_eqb (fst a) (fst b) && text_eqb (snd a) (snd b).

Definition key_leb (a b : key) : bool :=
  if text_eqb (fst a) (fst b) then text_leb (snd a) (snd b)
  else text_leb (fst a) (fst b).

Section Sort.
Variable A : Type.
Variable leb : A -> A -> bool.

Fixpoint insert (x : A) (l : list A) : list A :=
  match l with
  | [] => [x]
  | y :: l' => if leb y x then y :: insert x l' else x :: l
  end.

(** a stable sort *)
Definition sort (l : list A) : list A := fold_right insert [] (rev l).
End Sort.

Fixpoint distinct (l : list key) : list key :=
  match l with
  | [] => []
  | k :: l' => k :: filter (fun k' => negb (key_eqb k' k)) (distinct l')
  end.

(** [df.groupby(['route_name', 'direction_text'])]: the groups in the
    order of their keys, each with its rows in frame order *)
Definition groupby (df : list Row) : list (key * list Row) :=
  map (fun k => (k, filter (fun r => key_eqb (key_of r) k) df))
      (sort key_leb (distinct (map key_of df))).

(** [group.sort_values('stop_number')]; rows of equal stop_number keep
    their frame order here (the default sort of pandas may order them
    otherwise). *)
Definition sort_values (group : list Row) : list Row :=
  sort (fun a b => (stop_number a <=? stop_number b)%Z) group.

Definition contains (x : text) (l : list text) : bool :=
  existsb (text_eqb x) l.

(** [list.index]: the position of the first occurrence *)
Fixpoint index (x : text) (l : list text) : option nat :=
  match l with
  | [] => None
  | y :: l' =>
      if text_eqb y x then Some 0
      else option_map S (index x l')
  end.

(** [l[i:j]] *)
Definition slice (l : list text) (i j : nat) : list text :=
  firstn (j - i) (skipn i l).

Definition find_in_group (origin destination : text)
  (g : key * list Row) : list Found :=
  let stops := map stop_name (sort_values (snd g)) in
  if contains origin stops && contains destination stops then
    match index origin stops, index destination stops with
    | Some i, Some j =>
        if i <? j
        then [mkFound (fst (fst g)) (snd (fst g)) (slice stops i (j + 1))]
        else []
    | _, _ => []
    end
  else [].

Definition find_routes (df : list Row) (origin destination : text)
  : list Found :=
  flat_map (find_in_group origin destination) (groupby df).
End BusRouteFinder.

(** The status a route has in a table; a route not yet there gets the
    column default when its row is created. *)
Definition status_or_pending (rid : text) (tbl : list RouteORM.t)
  : RouteStatus :=
  match get route_mapper rid tbl with
  | Some r => RouteORM.route_data_updated r
  | None => pending
  end.

(** ** Shapes of matches and of pages *)

(** The capture groups of a pattern, in order: the least number of
    characters and the class of each. *)
Fixpoint groups (p : pattern) : list (nat * (ascii -> bool)) :=
  match p with
  | [] => []
  | Lit _ :: p' => groups p'
  | Rep true _ min cls :: p' => (min, cls) :: groups p'
  | Rep false _ _ _ :: p' => groups p'
  end.

Definition is_prefix (l s : text) : bool :=
  match strip_prefix l s with
  | Some _ => true
  | None => false
  end.

(** [free_of delim x]: the delimiter does not begin inside [x], also
    when [x] is followed by the delimiter. *)
Fixpoint free_of (delim x : text) : bool :=
  match x with
  | [] => true
  | _ :: x' => negb (is_prefix delim (x ++ delim)) && free_of delim x'
  end.

Definition route_open : text := t "<li><a href=`javascript:go('".
Definition route_mid : text := t "')`>".
Definition route_close : text := t "</a></li>".

(** One anchor entry of the route-list page *)
Definition route_entry (rid name : text) : text :=
  route_open ++ rid ++ route_mid ++ name ++ route_close.

(** A route-list page: anchor entries, each after some filler text, and
    the text after the last entry. *)
Definition route_page (entries : list (text * text * text)) (tail : text)
  : text :=
  flat_map (fun e => fst (fst e) ++ route_entry (snd (fst e)) (snd e))
           entries ++ tail.

Definition entry_ok (e : text * text * text) : bool :=
  free_of route_open (fst (fst e)) &&
  free_of route_mid (snd (fst e)) &&
  free_of route_close (snd e).

(** The six captures of a stop block and the classes of the numeric
    ones *)
Definition stop_captures (caps : list text) : Prop :=
  exists a n name sid lat lon,
    caps = [a; n; name; sid; lat; lon] /\
    (1 <= List.length n /\ forallb is_digit n = true) /\
    (1 <= List.length sid /\ forallb is_digit sid = true) /\
    (1 <= List.length lat /\ forallb digit_or_dot lat = true) /\
    (1 <= List.length lon /\ forallb digit_or_dot lon = true).

(** What the three conversions of realtime_scraper.py make of a row *)
Definition converted (r0 r : StopRow) : Prop :=
  exists ca co cn,
    astype_float (latitude r0) = Ok ca /\
    astype_float (longitude r0) = Ok co /\
    astype_int (stop_number r0) = Ok cn /\
    r = mkStopRow (arrival_info r0) cn (stop_name r0) (stop_id r0)
                  ca co (direction r0) (route_id r0).

(** ** main.py: route list, realtime snapshots and the time lookup *)

Definition not_newline (c : ascii) : bool := negb (Ascii.eqb c "010"%char).

Module MainPy.
(** fetch_all_routes: the route-list pattern, here without [re.DOTALL],
    so that [.] takes no line break *)
Definition route_pattern : pattern :=
  [ Lit route_open;
    Rep true false 0 not_newline;
    Lit route_mid;
    Rep true false 0 not_newline;
    Lit route_close ].

Definition no_routes : exn := ValueError "❌ 無法解析公車路線".

(** A row of the table [data_route_list] as main.py declares it: no
    status column *)
Record RouteList : Type := mkRoute {
  list_route_id : text;
  list_route_name : text
}.

(** [session.query(RouteList).filter_by(route_id=route_id).first()] *)
Definition existing_route (rid : text) (tbl : list RouteList)
  : option RouteList :=
  find (fun r => text_eqb (list_route_id r) rid) tbl.

(** [if not existing_route: session.add(RouteList(...))] *)
Definition add_route (tbl : list RouteList) (o : text * text)
  : list RouteList :=
  match existing_route (fst o) tbl with
  | Some _ => tbl
  | None => tbl ++ [mkRoute (fst o) (strip (snd o))]
  end.

(** fetch_all_routes, from [page.content()] on: [content] is the page
    after the scrolling *)
Definition fetch_all_routes (content : text) (tbl : list RouteList)
  : result (list RouteList) :=
  match map pair_of (findall route_pattern content) with
  | [] => Raise no_routes
  | matches => Ok (fold_left add_route matches tbl)
  end.

(** A row of the frame of fetch_realtime_info *)
Record Row : Type := mkRow {
  row_arrival_info : text;
  row_stop_number : cell;
  row_stop_name : text;
  row_direction : text;
  row_route_id : text
}.

(** A row of the table [data_realtime_info] *)
Record RealtimeInfo : Type := mkInfo {
  id : Z;
  info_route_id : text;
  info_direction : text;
  info_stop_number : cell;
  info_stop_name : text;
  info_arrival_info : text
}.

Definition no_realtime : exn := ValueError "❌ 找不到即時資料".

Definition realtime_row (dir rid : text) (caps : list text) : Row :=
  match caps with
  | [a; n; name] => mkRow a (Str n) name dir rid
  | _ => mkRow [] (Str []) [] dir rid
  end.

Definition set_row_stop_number (r : Row) (c : cell) : Row :=
  mkRow (row_arrival_info r) c (row_stop_name r) (row_direction r)
        (row_route_id r).

(** fetch_realtime_info, from [page.content()] on; its pattern is the
    first three lines of the stop-list pattern *)
Definition parse_realtime (dir rid content : text) : result (list Row) :=
  match map (realtime_row dir rid) (findall stop_head content) with
  | [] => Raise no_realtime
  | df =>
      col <- mapM (fun r => astype_int (row_stop_number r)) df ;;
      Ok (map (fun rc => set_row_stop_number (fst rc) (snd rc))
              (combine df col))
  end.

(** fetch_realtime_info: the direction is not checked; the button is
    clicked for 'come' alone *)
Definition fetch_realtime_info (b : Browser) (rid dir : text)
  : result (list Row) :=
  content <- _fetch_content b rid dir ;;
  parse_realtime dir rid content.

(** The key SQLite gives a new row of a table with an integer primary
    key: 1 in an empty table, else one more than the largest key (the
    largest key is taken to be below the end of the 64-bit range) *)
Definition next_id (tbl : list RealtimeInfo) : Z :=
  match map id tbl with
  | [] => 1
  | i :: ids => 1 + fold_right Z.max i ids
  end.

Definition add_info (tbl : list RealtimeInfo) (row : Row)
  : list RealtimeInfo :=
  tbl ++ [mkInfo (next_id tbl) (row_route_id row) (row_direction row)
                 (row_stop_number row) (row_stop_name row)
                 (row_arrival_info row)].

(** save_realtime_info: every row of the frame is added *)
Definition save_realtime_info (df : list Row) (tbl : list RealtimeInfo)
  : list RealtimeInfo :=
  fold_left add_info df tbl.

(** A snapshot without its key *)
Definition as_row (r : RealtimeInfo) : Row :=
  mkRow (info_arrival_info r) (info_stop_number r) (info_stop_name r)
        (info_direction r) (info_route_id r).

(** find_route_and_time.  The dict [route_times] is the list of its
    items in insertion order; the two times of a route are optional. *)
Definition times : Type := option text * option text.

Fixpoint setdefault_update (k : text) (f : times -> times)
  (d : list (text * times)) : list (text * times) :=
  match d with
  | [] => [(k, f (None, None))]
  | (k', v) :: d' =>
      if text_eqb k' k then (k', f v) :: d'
      else (k', v) :: setdefault_update k f d'
  end.

Definition note (start_stop end_stop : text) (d : list (text * times))
  (r : RealtimeInfo) : list (text * times) :=
  if text_eqb (info_stop_name r) start_stop then
    setdefault_update (info_route_id r)
      (fun v => (Some (info_arrival_info r), snd v)) d
  else if text_eqb (info_stop_name r) end_stop then
    setdefault_update (info_route_id r)
      (fun v => (fst v, Some (info_arrival_info r))) d
  else d.

Definition unknown : text := t "未知".

Inductive line : Type :=
| NoRoute (start_stop end_stop : text)
| RouteTimes (rid start_time end_time : text).

Definition or_unknown (o : option text) : text :=
  match o with
  | Some x => x
  | None => unknown
  end.

Definition find_route_and_time (start_stop end_stop : text)
  (tbl : list RealtimeInfo) : list line :=
  match filter (fun r => text_eqb (info_stop_name r) start_stop
                         || text_eqb (info_stop_name r) end_stop) tbl with
  | [] => [NoRoute start_stop end_stop]
  | routes =>
      map (fun kv => RouteTimes (fst kv) (or_unknown (fst (snd kv)))
                                (or_unknown (snd (snd kv))))
          (fold_left (note start_stop end_stop) routes [])
  end.

(** The arrival text of the last snapshot of a route at a stop *)
Definition last_arrival (rid name : text) (tbl : list RealtimeInfo)
  : option text :=
  option_map info_arrival_info
    (find (fun r => text_eqb (info_route_id r) rid
                    && text_eqb (info_stop_name r) name) (rev tbl)).
End MainPy.

(** A match of the head of the stop-list pattern, and the row that
    fetch_realtime_info of main.py makes of it *)
Definition head_row (dir rid : text) (caps : list text) (r : MainPy.Row)
  : Prop :=
  exists a n name,
    caps = [a; n; name] /\
    (digits_value n <= int64_max)%Z /\
    r = MainPy.mkRow a (Int (digits_value n)) name dir rid.

(** The dict [route_times] of find_route_and_time after the rows [l]:
    one item per route that has a row at one of the two stops, holding
    the arrival texts noted last *)
Definition times_inv (start_stop end_stop : text)
  (l : list MainPy.RealtimeInfo) (d : list (text * MainPy.times)) : Prop :=
  NoDup (map fst d) /\
  (forall k, In k (map fst d) <->
             exists r, In r l /\ MainPy.info_route_id r = k /\
                       (MainPy.info_stop_name r = start_stop \/
                        MainPy.info_stop_name r = end_stop)) /\
  forall k v, In (k, v) d ->
    v = (MainPy.last_arrival k start_stop l,
         if text_eqb start_stop end_stop then None
         else MainPy.last_arrival k end_stop l).

(** ** 00003.py: the data plot_route_map draws from *)

Module PlotRouteMap.
(** Python [==] between a value of the frame and an int: a str equals
    no int *)
Definition eq_int (c : cell) (n : Z) : bool :=
  match c with
  | Str _ => false
  | Int m => Z.eqb m n
  | Float q => Qeq_bool q (inject_Z n)
  end.

(** [df["latitude"].astype(float)] and [df["longitude"].astype(float)] *)
Definition coordinates (df : StopFrame) : result (list cell * list cell) :=
  latitudes <- mapM (fun r => astype_float (latitude r)) df ;;
  longitudes <- mapM (fun r => astype_float (longitude r)) df ;;
  Ok (latitudes, longitudes).

(** The stops that get the person image:
    [if stop_number == person_stop_number] *)
Definition person_stops (df : StopFrame) (person_stop_number : Z)
  : list StopRow :=
  filter (fun r => eq_int (stop_number r) person_stop_number) df.
End PlotRouteMap.

(** ** interactive_bus_info.py: from a route name to a route id *)

Module InteractiveQuery.
(** A row of [data_route_list] as interactive_bus_info.py declares it *)
Record bus_route_orm : Type := mk {
  route_id : text;
  route_name : text
}.

(** [session.query(bus_route_orm).filter(route_name == ...).first()] *)
Definition get_route_id_by_name (name : text)
  (tbl : list bus_route_orm) : option text :=
  match find (fun r => text_eqb (route_name r) name) tbl with
  | Some r => Some (route_id r)
  | None => None
  end.

(** What interactive_interface does with its two inputs before it
    fetches a page *)
Inductive answer : Type :=
| BadDirection
| NoSuchRoute (route_name : text)
| Query (rid dir : text).

Definition resolve (name_input dir_input : text)
  (tbl : list bus_route_orm) : answer :=
  let name := strip name_input in
  let dir := strip dir_input in
  if negb (text_eqb dir (t "go") || text_eqb dir (t "come"))
  then BadDirection
  else
    match get_route_id_by_name name tbl with
    | Some rid => if is_nil rid then NoSuchRoute name else Query rid dir
    | None => NoSuchRoute name
    end.
End InteractiveQuery.

(** The (route, direction) group a result of [find_routes] names *)
Definition found_key (res : BusRouteFinder.Found) : BusRouteFinder.key :=
  (BusRouteFinder.found_route_name res,
   BusRouteFinder.found_direction_text res).

(** The stop names of the group of a key, ordered by stop_number *)
Definition group_stops (df : list BusRouteFinder.Row)
  (k : BusRouteFinder.key) : list text :=
  map BusRouteFinder.stop_name
      (BusRouteFinder.sort_values
         (filter (fun r => BusRouteFinder.key_eqb (BusRouteFinder.key_of r) k)
                 df)).

(** A match of the stop-list pattern, and the row that
    interactive_bus_info.py makes of it *)
Definition interactive_row (dir rid : text) (caps : list text)
  (r : StopRow) : Prop :=
  exists a n name sid lat lon qa qo,
    caps = [a; n; name; sid; lat; lon] /\
    py_float lat = Some qa /\ py_float lon = Some qo /\
    r = mkStopRow a (Str n) name (Str sid) (Float qa) (Float qo) dir rid.

(** ** The two front ends: what a query shows *)

Module FrontEnds.
Inductive shown : Type :=
| Arrivals (rows : list (cell * text * text))
| NoArrivalInfo
| QueryError (e : exn)
| QueryKeyError (column : text).

(** [df[["stop_number", "stop_name", "arrival_info"]]] *)
Definition columns (r : StopRow) : cell * text * text :=
  (stop_number r, stop_name r, arrival_info r).

(** interactive_bus_info.py, interactive_interface: the [try] block.
    The empty frame of a page without stops is [df.empty]. *)
Definition interactive_query (b : Browser) (rid dir : text) : shown :=
  match fst (InteractiveFetch.fetch_route_info b rid dir) with
  | Raise e => QueryError e
  | Ok content =>
      match fst (Interactive.parse_route_info dir rid content) with
      | Raise e => QueryError e
      | Ok [] => NoArrivalInfo
      | Ok df => Arrivals (map columns df)
      end
  end.

(** route_stop_info.py, main: the [try] block of one route.  The empty
    frame of a page without stops has no column, so that
    [df["stop_name"]] raises a KeyError, which the block catches. *)
Definition route_stop_query (b : Browser) (rid direction_text : text)
  (origin destination : text) : shown :=
  let dir := if text_eqb direction_text (t "去程") then t "go"
             else t "come" in
  match fst (InteractiveFetch.fetch_route_info b rid dir) with
  | Raise e => QueryError e
  | Ok content =>
      match fst (Interactive.parse_route_info dir rid content) with
      | Raise e => QueryError e
      | Ok [] => QueryKeyError (t "stop_name")
      | Ok df =>
          match filter (fun r => text_eqb (stop_name r) origin
                                 || text_eqb (stop_name r) destination) df
          with
          | [] => NoArrivalInfo
          | rows => Arrivals (map columns rows)
          end
      end
  end.
End FrontEnds.

(** ** Numerals the stop-list pattern can capture *)

Definition is_dot (c : ascii) : bool := Ascii.eqb c "."%char.

(** At most one dot and at least one digit *)
Definition plain_decimal (s : text) : bool :=
  (List.length (filter is_dot s) <=? 1) && existsb is_digit s.

(** ** Sample pages, frames and browsers *)

Module Fixtures.
Definition bus1 : text := t "0161000900".

Definition no_stops_page : text := t "<html><body></body></html>".

(** A browser whose pages load and whose click on the direction
    button times out *)
Definition click_times_out : Browser := {|
  goto := fun _ => Ok no_stops_page;
  click := fun _ _ =>
    Raise (TimeoutError "Timeout 30000ms exceeded.")
|}.

(** One stop entry of the stop-list page *)
Definition stop_block (pos n name sid lat lon : string) : text :=
  t "<li><a><span class=`auto-list-stationlist-position auto-list-time`>"
  ++ t pos
  ++ t "</span> <span class=`auto-list-stationlist-number`> " ++ t n
  ++ t "</span> <span class=`auto-list-stationlist-place`>" ++ t name
  ++ t "</span></a><input type=`hidden` name=`item.UniStopId` id=`u` value=`"
  ++ t sid
  ++ t "`><input type=`hidden` name=`item.Latitude` id=`la` value=`"
  ++ t lat
  ++ t "`><input type=`hidden` name=`item.Longitude` id=`lo` value=`"
  ++ t lon ++ t "`></li>".

Definition good_page : text :=
  stop_block "3 min" "1" "A" "100" "25.05" "121.5"
  ++ stop_block "5 min" "2" "B" "101" "25.06" "121.6".

(** The latitude of the second stop is not a numeral. *)
Definition bad_latitude_page : text :=
  stop_block "3 min" "1" "A" "100" "25.05" "121.5"
  ++ stop_block "5 min" "2" "B" "101" "abc" "121.6".

(** The latitude of the second stop has two dots. *)
Definition two_dots_page : text :=
  stop_block "3 min" "1" "A" "100" "25.05" "121.5"
  ++ stop_block "5 min" "2" "B" "101" "25.0.6" "121.6".

Definition bus2 : text := t "0100000A00".

Definition route_entries : list (text * text * text) :=
  [ (t "<ul>", bus1, t " Chengde ");
    (t "", bus2, t "0 East") ].

Definition route_list_page : text := route_page route_entries (t "</ul>").

(** A site where the route list and the stops of [bus1] load and
    every other page times out *)
Definition web : Browser := {|
  goto := fun url =>
    if text_eqb url list_url then Ok route_list_page
    else if text_eqb url (stops_url bus1) then Ok good_page
    else Raise (TimeoutError "Timeout 30000ms exceeded.");
  click := fun _ page => Ok page
|}.

Definition always_commits (_ : StopFrame) : bool := true.

Definition plots (_ : text) (_ : StopFrame) : result unit := Ok tt.

Definition empty_store : State := mkState [] [] [].

Definition stop1 : StopRow :=
  mkStopRow (t "3 min") (Int 1) (t "A") (Str (t "100"))
            (Float (2505 # 100)) (Float (1215 # 10)) (t "go") bus1.

Definition stop2 : StopRow :=
  mkStopRow (t "5 min") (Int 2) (t "B") (Str (t "101"))
            (Float (2506 # 100)) (Float (1216 # 10)) (t "go") bus1.

Definition two_pending : State :=
  mkState [ RouteORM.mk bus1 (t "Chengde") pending;
            RouteORM.mk bus2 (t "0 East") pending ] [] [].

Definition found_307 : BusRouteFinder.Found :=
  BusRouteFinder.mkFound (t "307") (t "go") [t "A"; t "B"; t "C"].

Definition two_names_one_id : RouteFrame :=
  [ (t "0100000A00", t "0 East"); (t "0100000A00", t "0 West") ].

Definition finder_frame : list BusRouteFinder.Row :=
  [ BusRouteFinder.mkRow (t "307") (t "go") 2 (t "B");
    BusRouteFinder.mkRow (t "307") (t "go") 1 (t "A");
    BusRouteFinder.mkRow (t "307") (t "go") 3 (t "C");
    BusRouteFinder.mkRow (t "307") (t "come") 1 (t "C");
    BusRouteFinder.mkRow (t "307") (t "come") 2 (t "A") ].
End Fixtures.

(** Snapshots of two routes at the stops A and B *)
Module Samples.
Definition snapshots : list MainPy.RealtimeInfo :=
  [ MainPy.mkInfo 1 Fixtures.bus1 (t "go") (Int 1) (t "A") (t "3 min");
    MainPy.mkInfo 2 Fixtures.bus1 (t "go") (Int 2) (t "B") (t "5 min");
    MainPy.mkInfo 3 Fixtures.bus2 (t "come") (Int 1) (t "B") (t "7 min") ].
End Samples.

(** * Properties *)

(** ** Text equality *)

Lemma text_eqb_eq a b : text_eqb a b = true <-> a = b.
Proof.
  unfold text_eqb. rewrite String.eqb_eq. split; intro H.
  - rewrite <- (list_ascii_of_string_of_list_ascii a),
            <- (list_ascii_of_string_of_list_ascii b), H. reflexivity.
  - now subst.
Qed.

Lemma text_eqb_refl a : text_eqb a a = true.
Proof. now apply text_eqb_eq. Qed.

Lemma text_eqb_neq a b : text_eqb a b = false <-> a <> b.
Proof.
  rewrite <- text_eqb_eq. destruct (text_eqb a b); split; congruence.
Qed.

Lemma text_eqb_sym a b : text_eqb a b = text_eqb b a.
Proof.
  destruct (text_eqb b a) eqn:E.
  - apply text_eqb_eq in E. subst. apply text_eqb_refl.
  - apply text_eqb_neq in E. apply text_eqb_neq. congruence.
Qed.

(** ** The route finder *)

Module FinderFacts.
Import BusRouteFinder.

Lemma contains_In x l : contains x l = true <-> In x l.
Proof.
  unfold contains. rewrite existsb_exists. split.
  - intros (y & Hy & E). apply text_eqb_eq in E. now subst.
  - intros H. exists x. split; [assumption | apply text_eqb_refl].
Qed.

Lemma index_nth x l i :
  index x l = Some i -> nth_error l i = Some x.
Proof.
  revert i. induction l as [|y l IH]; simpl; intros i H; [discriminate|].
  destruct (text_eqb y x) eqn:E.
  - injection H as <-. apply text_eqb_eq in E. now subst.
  - destruct (index x l) as [n|]; [|discriminate].
    injection H as <-. simpl. now apply IH.
Qed.

(** [index] is the first occurrence. *)
Lemma index_first x l i k :
  index x l = Some i -> k < i -> nth_error l k <> Some x.
Proof.
  revert i k. induction l as [|y l IH]; simpl; intros i k H Hk;
    [discriminate|].
  destruct (text_eqb y x) eqn:E.
  - injection H as <-. lia.
  - destruct (index x l) as [n|] eqn:En; [|discriminate].
    injection H as <-. destruct k as [|k]; simpl.
    + apply text_eqb_neq in E. congruence.
    + apply (IH n); [reflexivity | lia].
Qed.

Section SortFacts.
Variable A : Type.
Variable leb : A -> A -> bool.
Hypothesis leb_total : forall a b, leb a b = true \/ leb b a = true.

Lemma insert_perm x l : Permutation (insert leb x l) (x :: l).
Proof.
  induction l as [|y l IH]; simpl; [reflexivity|].
  destruct (leb y x); [|reflexivity].
  rewrite IH. apply perm_swap.
Qed.

Lemma sort_perm l : Permutation (sort leb l) l.
Proof.
  unfold sort. rewrite (Permutation_rev l) at 2.
  induction (rev l) as [|x r IH]; simpl; [reflexivity|].
  now rewrite insert_perm, IH.
Qed.

Lemma insert_hd x y l :
  leb y x = true -> HdRel (fun a b => leb a b = true) y l ->
  HdRel (fun a b => leb a b = true) y (insert leb x l).
Proof.
  intros Hyx H. destruct l as [|z l]; simpl.
  - now constructor.
  - inversion H; subst. destruct (leb z x); now constructor.
Qed.

Lemma insert_sorted x l :
  Sorted (fun a b => leb a b = true) l ->
  Sorted (fun a b => leb a b = true) (insert leb x l).
Proof.
  induction l as [|y l IH]; simpl; intros H.
  - constructor; constructor.
  - inversion H as [|? ? Hs Hh]; subst.
    destruct (leb y x) eqn:E.
    + constructor; [now apply IH | now apply insert_hd].
    + constructor; [assumption|]. constructor.
      destruct (leb_total x y) as [H1|H1]; congruence.
Qed.

Lemma sort_sorted l : Sorted (fun a b => leb a b = true) (sort leb l).
Proof.
  unfold sort. induction (rev l) as [|x r IH]; simpl; [constructor|].
  now apply insert_sorted.
Qed.
End SortFacts.

Lemma sort_values_perm group : Permutation (sort_values group) group.
Proof. apply sort_perm. Qed.

Lemma sort_values_sorted group :
  Sorted (fun a b => (stop_number a <= stop_number b)%Z) (sort_values group).
Proof.
  unfold sort_values.
  assert (H : Sorted (fun a b => (stop_number a <=? stop_number b)%Z = true)
                (sort (fun a b => (stop_number a <=? stop_number b)%Z) group)).
  { apply sort_sorted. intros a b.
    destruct (Z.leb_spec (stop_number a) (stop_number b)); [now left|].
    right. apply Z.leb_le. lia. }
  induction H as [|x l _ IH Hh]; constructor; [assumption|].
  destruct Hh as [|y l' Hxy]; constructor. now apply Z.leb_le.
Qed.

(** A group of [groupby] holds the rows of the frame with its key. *)
Lemma groupby_rows df k group :
  In (k, group) (groupby df) ->
  group = filter (fun r => key_eqb (key_of r) k) df.
Proof.
  unfold groupby. intros H. apply in_map_iff in H.
  destruct H as (k' & E & _). now injection E as <- <-.
Qed.

Lemma slice_ends l i j o d :
  nth_error l i = Some o -> nth_error l j = Some d -> i < j ->
  exists mid, slice l i (j + 1) = o :: mid ++ [d].
Proof.
  unfold slice. revert i j. induction l as [|y l IH]; intros i j Hi Hj Hij.
  - destruct i; discriminate.
  - destruct i as [|i].
    + simpl in Hi. injection Hi as ->.
      destruct j as [|j]; [lia|]. simpl in Hj.
      replace (S j + 1 - 0) with (S (S j)) by lia.
      change (skipn 0 (o :: l)) with (o :: l).
      rewrite firstn_cons.
      exists (firstn j l). f_equal.
      clear IH Hij. revert l Hj. induction j as [|j IHj]; intros l Hj.
      * destruct l; [discriminate|]. simpl in Hj. injection Hj as ->.
        reflexivity.
      * destruct l as [|z l]; [discriminate|]. simpl in Hj.
        change (firstn (S (S j)) (z :: l)) with (z :: firstn (S j) l).
        rewrite (IHj l Hj). reflexivity.
    + destruct j as [|j]; [lia|]. simpl in Hi, Hj.
      destruct (IH i j Hi Hj ltac:(lia)) as (mid & Hm).
      exists mid. simpl. exact Hm.
Qed.
End FinderFacts.

(** C10. Every result of [find_routes] names a (route, direction) group
    of the frame, the rows with that route name and direction; in the
    stop names of the group, ordered by stop_number, origin and
    destination both occur with the first occurrence of origin strictly
    before the first occurrence of destination; its stops are the slice
    between the two, which begins with origin and ends with destination.
    With origin equal to destination there is no result. *)
Theorem find_routes_sound (df : list BusRouteFinder.Row)
  (origin destination : text) :
  (forall res,
     In res (BusRouteFinder.find_routes df origin destination) ->
     exists group,
       In ((BusRouteFinder.found_route_name res,
            BusRouteFinder.found_direction_text res), group)
          (BusRouteFinder.groupby df) /\
       group
       = filter (fun r =>
                   BusRouteFinder.key_eqb
                     (BusRouteFinder.key_of r)
                     (BusRouteFinder.found_route_name res,
                      BusRouteFinder.found_direction_text res)) df /\
       Permutation (BusRouteFinder.sort_values group) group /\
       Sorted (fun a b =>
                 (BusRouteFinder.stop_number a
                  <= BusRouteFinder.stop_number b)%Z)
              (BusRouteFinder.sort_values group) /\
       let names :=
         map BusRouteFinder.stop_name (BusRouteFinder.sort_values group) in
       In origin names /\ In destination names /\
       (exists i j,
          BusRouteFinder.index origin names = Some i /\
          BusRouteFinder.index destination names = Some j /\
          i < j /\
          (forall k, k < i -> nth_error names k <> Some origin) /\
          (forall k, k < j -> nth_error names k <> Some destination) /\
          BusRouteFinder.stops res = BusRouteFinder.slice names i (j + 1)) /\
       exists mid, BusRouteFinder.stops res = origin :: mid ++ [destination])
  /\ BusRouteFinder.find_routes df origin origin = [].
Proof.
  split.
  - intros res Hres. unfold BusRouteFinder.find_routes in Hres.
    apply in_flat_map in Hres. destruct Hres as ([[rn dt] group] & Hg & Hin).
    unfold BusRouteFinder.find_in_group in Hin. simpl in Hin.
    set (names := map BusRouteFinder.stop_name
                      (BusRouteFinder.sort_values group)) in *.
    destruct (BusRouteFinder.contains origin names) eqn:Ho;
      [|contradiction].
    destruct (BusRouteFinder.contains destination names) eqn:Hd;
      [|contradiction].
    simpl in Hin.
    destruct (BusRouteFinder.index origin names) as [i|] eqn:Ei;
      [|contradiction].
    destruct (BusRouteFinder.index destination names) as [j|] eqn:Ej;
      [|contradiction].
    destruct (i <? j) eqn:Hij; [|contradiction].
    apply Nat.ltb_lt in Hij.
    destruct Hin as [<-|[]]. simpl.
    exists group. split; [exact Hg|].
    split; [now apply FinderFacts.groupby_rows|].
    split; [apply FinderFacts.sort_values_perm|].
    split; [apply FinderFacts.sort_values_sorted|]. fold names.
    split; [now apply FinderFacts.contains_In|].
    split; [now apply FinderFacts.contains_In|].
    split.
    + exists i, j. repeat split; try assumption.
      * intros k Hk. eapply FinderFacts.index_first; eassumption.
      * intros k Hk. eapply FinderFacts.index_first; eassumption.
    + apply FinderFacts.slice_ends; try assumption;
        now apply FinderFacts.index_nth.
  - unfold BusRouteFinder.find_routes.
    induction (BusRouteFinder.groupby df) as [|g l IH]; [reflexivity|].
    simpl. rewrite IH, app_nil_r.
    unfold BusRouteFinder.find_in_group.
    destruct (BusRouteFinder.contains origin _ && _); [|reflexivity].
    destruct (BusRouteFinder.index origin _) as [i|]; [|reflexivity].
    now rewrite Nat.ltb_irrefl.
Qed.

(** ** Tables under [session.merge] *)

Section SessionFacts.
Variables Obj Row Key : Type.
Variable M : Mapper Obj Row Key.
Hypothesis key_eqb_eq : forall a b, key_eqb M a b = true <-> a = b.
Hypothesis load_key :
  forall o r, key_of_row M (load M o r) = key_of_obj M o.

Let key_eqb_refl k : key_eqb M k k = true.
Proof. now apply key_eqb_eq. Qed.

Let key_eqb_neq a b : a <> b -> key_eqb M a b = false.
Proof.
  intros H. destruct (key_eqb M a b) eqn:E; [|reflexivity].
  apply key_eqb_eq in E. contradiction.
Qed.

Lemma merge_keys_incl o tbl k :
  In k (map (key_of_row M) (merge M o tbl)) <->
  k = key_of_obj M o \/ In k (map (key_of_row M) tbl).
Proof.
  induction tbl as [|r tbl IH]; simpl.
  - rewrite load_key. intuition.
  - destruct (key_eqb M (key_of_row M r) (key_of_obj M o)) eqn:E; simpl.
    + apply key_eqb_eq in E. rewrite load_key, E. intuition.
    + rewrite IH. intuition.
Qed.

Lemma merge_unique o tbl :
  unique_keys M tbl -> unique_keys M (merge M o tbl).
Proof.
  unfold unique_keys. induction tbl as [|r tbl IH]; simpl; intros H.
  - constructor; [intros []|constructor].
  - inversion H as [|? ? Hn Hd]; subst.
    destruct (key_eqb M (key_of_row M r) (key_of_obj M o)) eqn:E; simpl.
    + apply key_eqb_eq in E. rewrite load_key, <- E.
      now constructor.
    + constructor; [|now apply IH].
      intros Hin. apply merge_keys_incl in Hin. destruct Hin as [Hk|Hk].
      * rewrite Hk, key_eqb_refl in E. discriminate.
      * contradiction.
Qed.

Lemma get_merge_same o tbl :
  get M (key_of_obj M o) (merge M o tbl)
  = Some (load M o (get M (key_of_obj M o) tbl)).
Proof.
  unfold get. induction tbl as [|r tbl IH]; simpl.
  - now rewrite load_key, key_eqb_refl.
  - destruct (key_eqb M (key_of_row M r) (key_of_obj M o)) eqn:E; simpl.
    + now rewrite load_key, key_eqb_refl.
    + now rewrite E.
Qed.

Lemma get_merge_other o tbl k :
  k <> key_of_obj M o -> get M k (merge M o tbl) = get M k tbl.
Proof.
  intros Hk. unfold get. induction tbl as [|r tbl IH]; simpl.
  - rewrite load_key, key_eqb_neq; [reflexivity | congruence].
  - destruct (key_eqb M (key_of_row M r) (key_of_obj M o)) eqn:E; simpl.
    + apply key_eqb_eq in E.
      rewrite load_key, (key_eqb_neq (a := key_of_obj M o)) by congruence.
      rewrite E, (key_eqb_neq (a := key_of_obj M o)) by congruence.
      reflexivity.
    + now rewrite IH.
Qed.

Lemma get_Some k tbl r :
  get M k tbl = Some r -> In r tbl /\ key_of_row M r = k.
Proof.
  unfold get. intros H. apply find_some in H. destruct H as [H1 H2].
  apply key_eqb_eq in H2. now split.
Qed.

Lemma get_None k tbl :
  get M k tbl = None <-> ~ In k (map (key_of_row M) tbl).
Proof.
  unfold get. induction tbl as [|r tbl IH]; simpl; [intuition|].
  destruct (key_eqb M (key_of_row M r) k) eqn:E.
  - apply key_eqb_eq in E. split; [discriminate | intuition].
  - rewrite IH. split; [|intuition].
    intros H [H1|H1]; [|contradiction].
    rewrite H1, key_eqb_refl in E. discriminate.
Qed.

Lemma rows_with_absent k tbl :
  ~ In k (map (key_of_row M) tbl) -> rows_with M k tbl = [].
Proof.
  unfold rows_with. induction tbl as [|r tbl IH]; simpl; intros H;
    [reflexivity|].
  rewrite key_eqb_neq; [apply IH|]; intuition.
Qed.

Lemma rows_with_get k tbl :
  unique_keys M tbl ->
  rows_with M k tbl
  = match get M k tbl with Some r => [r] | None => [] end.
Proof.
  unfold unique_keys. induction tbl as [|r tbl IH]; simpl; intros H;
    [reflexivity|].
  inversion H as [|? ? Hn Hd]; subst. unfold rows_with, get. simpl.
  destruct (key_eqb M (key_of_row M r) k) eqn:E.
  - f_equal. apply key_eqb_eq in E. subst k.
    now apply rows_with_absent.
  - now apply IH.
Qed.

Lemma get_In r tbl :
  unique_keys M tbl -> In r tbl -> get M (key_of_row M r) tbl = Some r.
Proof.
  intros Hu Hin.
  assert (Hf : In r (rows_with M (key_of_row M r) tbl)).
  { unfold rows_with. apply filter_In. split; [assumption|].
    apply key_eqb_refl. }
  rewrite rows_with_get in Hf by assumption.
  destruct (get M (key_of_row M r) tbl); simpl in Hf; [|contradiction].
  destruct Hf as [->|[]]. reflexivity.
Qed.

Lemma merge_all_snoc os o tbl :
  merge_all M (os ++ [o]) tbl = merge M o (merge_all M os tbl).
Proof. unfold merge_all. now rewrite fold_left_app. Qed.

Lemma merge_all_unique os tbl :
  unique_keys M tbl -> unique_keys M (merge_all M os tbl).
Proof.
  revert tbl. induction os as [|o os IH]; simpl; intros tbl H;
    [assumption|].
  apply IH. now apply merge_unique.
Qed.

Lemma last_with_snoc k os o :
  last_with M k (os ++ [o])
  = if key_eqb M (key_of_obj M o) k then Some o else last_with M k os.
Proof. unfold last_with. now rewrite rev_unit. Qed.

Lemma last_with_key k os o :
  last_with M k os = Some o -> key_of_obj M o = k /\ In o os.
Proof.
  unfold last_with. intros H. apply find_some in H. destruct H as [H1 H2].
  apply key_eqb_eq in H2. split; [assumption | now apply in_rev].
Qed.

Lemma last_with_None k os :
  last_with M k os = None <-> ~ In k (map (key_of_obj M) os).
Proof.
  induction os as [|o os IH] using rev_ind; [simpl; intuition|].
  rewrite last_with_snoc, map_app, in_app_iff. simpl.
  destruct (key_eqb M (key_of_obj M o) k) eqn:E.
  - apply key_eqb_eq in E. split; [discriminate | intuition].
  - rewrite IH. split; [|intuition].
    intros H [H1|[H1|[]]]; [contradiction|].
    rewrite H1, key_eqb_refl in E. discriminate.
Qed.

(** After a batch of merges the row of a key the batch wrote is the
    state of the instance written last for it. *)
Lemma get_merge_all_last k os o tbl :
  last_with M k os = Some o ->
  exists old, get M k (merge_all M os tbl) = Some (load M o old).
Proof.
  induction os as [|o' os IH] using rev_ind; [discriminate|].
  rewrite last_with_snoc, merge_all_snoc.
  destruct (key_eqb M (key_of_obj M o') k) eqn:E.
  - intros H. injection H as <-. apply key_eqb_eq in E. subst k.
    eexists. apply get_merge_same.
  - intros H. destruct (IH H) as (old & Hold). exists old.
    rewrite get_merge_other; [assumption|].
    intros ->. rewrite key_eqb_refl in E. discriminate.
Qed.

Lemma get_merge_all_untouched k os tbl :
  ~ In k (map (key_of_obj M) os) ->
  get M k (merge_all M os tbl) = get M k tbl.
Proof.
  induction os as [|o' os IH] using rev_ind; [reflexivity|].
  rewrite map_app, in_app_iff, merge_all_snoc. simpl. intros H.
  rewrite get_merge_other; [apply IH|]; intuition.
Qed.

Lemma merge_all_keys os tbl k :
  In k (map (key_of_row M) (merge_all M os tbl)) <->
  In k (map (key_of_obj M) os) \/ In k (map (key_of_row M) tbl).
Proof.
  revert tbl. induction os as [|o os IH]; simpl; intros tbl; [intuition|].
  rewrite IH, merge_keys_incl. intuition.
Qed.

Lemma merge_keys_present o tbl :
  In (key_of_obj M o) (map (key_of_row M) tbl) ->
  map (key_of_row M) (merge M o tbl) = map (key_of_row M) tbl.
Proof.
  induction tbl as [|r tbl IH]; simpl; intros H; [contradiction|].
  destruct (key_eqb M (key_of_row M r) (key_of_obj M o)) eqn:E; simpl.
  - apply key_eqb_eq in E. now rewrite load_key, E.
  - f_equal. apply IH. destruct H as [H|H]; [|assumption].
    rewrite H, key_eqb_refl in E. discriminate.
Qed.

Lemma merge_all_keys_present os tbl :
  incl (map (key_of_obj M) os) (map (key_of_row M) tbl) ->
  map (key_of_row M) (merge_all M os tbl) = map (key_of_row M) tbl.
Proof.
  revert tbl. induction os as [|o os IH]; simpl; intros tbl H;
    [reflexivity|].
  assert (Ho : In (key_of_obj M o) (map (key_of_row M) tbl))
    by (apply H; now left).
  rewrite IH; [now apply merge_keys_present|].
  rewrite merge_keys_present by assumption.
  intros k Hk. apply H. now right.
Qed.

(** Two tables with the same keys in the same order and the same row
    under every key are the same table. *)
Lemma table_ext t1 t2 :
  unique_keys M t1 ->
  map (key_of_row M) t1 = map (key_of_row M) t2 ->
  (forall k, get M k t1 = get M k t2) ->
  t1 = t2.
Proof.
  unfold unique_keys. revert t2.
  induction t1 as [|r1 t1 IH]; intros [|r2 t2] Hu Hk Hg;
    try discriminate; [reflexivity|].
  simpl in Hk. injection Hk as Hk1 Hk2.
  inversion Hu as [|? ? Hn Hd]; subst.
  pose proof (Hg (key_of_row M r1)) as H1. unfold get in H1. simpl in H1.
  rewrite key_eqb_refl, <- Hk1, key_eqb_refl in H1. injection H1 as <-.
  f_equal. apply IH; [assumption | assumption |].
  intros k. specialize (Hg k). unfold get in Hg. simpl in Hg.
  destruct (key_eqb M (key_of_row M r1) k) eqn:E; [|exact Hg].
  apply key_eqb_eq in E. subst k.
  transitivity (@None Row); [|symmetry].
  + now apply get_None.
  + apply get_None. now rewrite <- Hk2.
Qed.
End SessionFacts.

(** ** The two tables *)

Lemma cell_eqb_eq a b : cell_eqb a b = true <-> a = b.
Proof.
  destruct a as [x|x|x], b as [y|y|y]; simpl;
    try (split; [discriminate | congruence]).
  - rewrite text_eqb_eq. split; congruence.
  - rewrite Z.eqb_eq. split; congruence.
  - rewrite andb_true_iff, Z.eqb_eq, Pos.eqb_eq.
    destruct x, y; simpl. split; [intros []; congruence|].
    intros H. injection H as -> ->. now split.
Qed.

Lemma route_key_eqb_eq a b : key_eqb route_mapper a b = true <-> a = b.
Proof. apply text_eqb_eq. Qed.

Lemma route_load_key o r :
  key_of_row route_mapper (load route_mapper o r) = key_of_obj route_mapper o.
Proof. reflexivity. Qed.

Lemma stop_key_eqb_eq a b : key_eqb stop_mapper a b = true <-> a = b.
Proof.
  destruct a as [[r1 d1] n1], b as [[r2 d2] n2]. simpl.
  rewrite !andb_true_iff, !text_eqb_eq, cell_eqb_eq.
  split; [intros [[] ?]; congruence|].
  intros H. injection H as -> -> ->. auto.
Qed.

Lemma stop_load_key o r :
  key_of_row stop_mapper (load stop_mapper o r) = key_of_obj stop_mapper o.
Proof. reflexivity. Qed.

(** A merge never touches the status column. *)
Lemma status_or_pending_merge o tbl rid :
  status_or_pending rid (merge route_mapper o tbl)
  = status_or_pending rid tbl.
Proof.
  unfold status_or_pending.
  destruct (text_eqb rid (fst o)) eqn:E.
  - apply text_eqb_eq in E. subst rid.
    change (fst o) with (key_of_obj route_mapper o).
    rewrite (get_merge_same route_mapper route_key_eqb_eq route_load_key).
    simpl. now destruct (get route_mapper (fst o) tbl).
  - apply text_eqb_neq in E.
    now rewrite (get_merge_other route_mapper route_key_eqb_eq route_load_key).
Qed.

Lemma status_or_pending_merge_all os tbl rid :
  status_or_pending rid (merge_all route_mapper os tbl)
  = status_or_pending rid tbl.
Proof.
  revert tbl. induction os as [|o os IH]; simpl; intros tbl; [reflexivity|].
  now rewrite IH, status_or_pending_merge.
Qed.

(** The row of a route after a batch that wrote it *)
Lemma route_after_save df tbl rid name :
  last_with route_mapper rid df = Some (rid, name) ->
  get route_mapper rid (merge_all route_mapper df tbl)
  = Some (RouteORM.mk rid name (status_or_pending rid tbl)).
Proof.
  intros Hl.
  destruct (get_merge_all_last route_mapper route_key_eqb_eq route_load_key
              _ _ tbl Hl)
    as (old & Hold).
  rewrite Hold. f_equal.
  rewrite <- (status_or_pending_merge_all df tbl rid).
  unfold status_or_pending. rewrite Hold. reflexivity.
Qed.

Lemma stop_after_save df tbl k r :
  last_with stop_mapper k df = Some r ->
  get stop_mapper k (merge_all stop_mapper df tbl) = Some (stop_orm r).
Proof.
  intros Hl.
  destruct (get_merge_all_last stop_mapper stop_key_eqb_eq stop_load_key
              _ _ tbl Hl)
    as (old & Hold).
  exact Hold.
Qed.

(** Writing a frame a second time changes nothing. *)
Lemma route_save_idempotent (tbl : list RouteORM.t) (df : RouteFrame) :
  unique_keys route_mapper tbl ->
  merge_all route_mapper df (merge_all route_mapper df tbl)
  = merge_all route_mapper df tbl.
Proof.
  intros Hu. set (T := merge_all route_mapper df tbl).
  assert (HuT : unique_keys route_mapper T)
    by now apply (merge_all_unique route_key_eqb_eq route_load_key _).
  apply (table_ext route_key_eqb_eq).
  - now apply (merge_all_unique route_key_eqb_eq route_load_key _).
  - apply (merge_all_keys_present route_mapper route_key_eqb_eq route_load_key).
    intros k Hk.
    apply (merge_all_keys route_mapper route_key_eqb_eq route_load_key).
    now left.
  - intros k.
    destruct (last_with route_mapper k df) as [[rid name]|] eqn:E.
    + pose proof (last_with_key route_mapper route_key_eqb_eq _ _ E)
        as [Hk _].
      simpl in Hk. subst rid.
      rewrite (route_after_save df T E). unfold T.
      rewrite (route_after_save df tbl E).
      now rewrite status_or_pending_merge_all.
    + apply (last_with_None route_mapper route_key_eqb_eq) in E.
      now apply (get_merge_all_untouched route_mapper route_key_eqb_eq
                   route_load_key).
Qed.

Lemma stop_save_idempotent (tbl : list StopORM.t) (df : StopFrame) :
  unique_keys stop_mapper tbl ->
  merge_all stop_mapper df (merge_all stop_mapper df tbl)
  = merge_all stop_mapper df tbl.
Proof.
  intros Hu. set (T := merge_all stop_mapper df tbl).
  assert (HuT : unique_keys stop_mapper T)
    by now apply (merge_all_unique stop_key_eqb_eq stop_load_key _).
  apply (table_ext stop_key_eqb_eq).
  - now apply (merge_all_unique stop_key_eqb_eq stop_load_key _).
  - apply (merge_all_keys_present stop_mapper stop_key_eqb_eq stop_load_key).
    intros k Hk.
    apply (merge_all_keys stop_mapper stop_key_eqb_eq stop_load_key).
    now left.
  - intros k.
    destruct (last_with stop_mapper k df) as [r|] eqn:E.
    + erewrite (stop_after_save df T) by exact E. unfold T.
      now erewrite (stop_after_save df tbl) by exact E.
    + apply (last_with_None stop_mapper stop_key_eqb_eq) in E.
      now apply (get_merge_all_untouched stop_mapper stop_key_eqb_eq
                   stop_load_key).
Qed.


(** ** Round trip of the route table *)

Lemma last_with_unique (df : RouteFrame) rid name :
  NoDup (map fst df) -> In (rid, name) df ->
  last_with route_mapper rid df = Some (rid, name).
Proof.
  intros Hn Hin.
  destruct (last_with route_mapper rid df) as [[rid' name']|] eqn:E.
  - apply (last_with_key route_mapper route_key_eqb_eq) in E.
    destruct E as [E1 E2].
    simpl in E1. subst rid'. f_equal. f_equal.
    clear -Hn Hin E2. induction df as [|[a b] df IH]; [contradiction|].
    simpl in Hn. inversion Hn as [|? ? Hna Hnd]; subst.
    destruct Hin as [Hin|Hin], E2 as [E2|E2].
    + congruence.
    + injection Hin as -> ->. exfalso. apply Hna.
      now apply (in_map fst) in E2.
    + injection E2 as -> ->. exfalso. apply Hna.
      now apply (in_map fst) in Hin.
    + now apply IH.
  - apply (last_with_None route_mapper route_key_eqb_eq) in E. exfalso. apply E.
    now apply (in_map fst) in Hin.
Qed.

(** C8, as amended. Route records with pairwise distinct route_ids,
    written to a table that holds no route outside them (an empty table,
    or the table of an earlier scrape of the same routes), are read back
    as exactly as many records, with the same (route_id, route_name)
    pairs up to order. *)
Theorem route_round_trip (tbl : list RouteORM.t) (df : RouteFrame) :
  unique_keys route_mapper tbl ->
  NoDup (map fst df) ->
  (forall r, In r tbl -> In (RouteORM.route_id r) (map fst df)) ->
  let back :=
    taipei_route_list.read_from_database
      (taipei_route_list.save_to_database df tbl) in
  List.length back = List.length df /\ Permutation (map id_name back) df.
Proof.
  intros Hu Hn Hin back.
  assert (Hub : unique_keys route_mapper back)
    by now apply (merge_all_unique route_key_eqb_eq route_load_key _).
  assert (Hp : Permutation (map id_name back) df).
  { apply NoDup_Permutation.
    - unfold unique_keys in Hub. simpl in Hub.
      apply (NoDup_map_inv fst). now rewrite map_map.
    - now apply (NoDup_map_inv fst).
    - intros [rid name]. split.
      + intros H. apply in_map_iff in H. destruct H as (r & Hr & Hrb).
        unfold id_name in Hr. injection Hr as Hid Hname.
        assert (Hk : In rid (map fst df)).
        { assert (Hk : In rid (map (key_of_row route_mapper) back))
            by (rewrite <- Hid; now apply in_map).
          apply (merge_all_keys route_mapper route_key_eqb_eq route_load_key)
            in Hk.
          destruct Hk as [Hk|Hk]; [exact Hk|].
          apply in_map_iff in Hk. destruct Hk as (r' & E & Hr').
          simpl in E. rewrite <- E. now apply Hin. }
        apply in_map_iff in Hk. destruct Hk as ([rid' name'] & E & Hd).
        simpl in E. subst rid'.
        pose proof (route_after_save df tbl (@last_with_unique _ _ _ Hn Hd))
          as Hg.
        pose proof (get_In route_key_eqb_eq _ Hub Hrb) as Hg'.
        simpl in Hg'. rewrite Hid in Hg'. unfold back in Hg'.
        unfold taipei_route_list.read_from_database,
          taipei_route_list.save_to_database in Hg'.
        rewrite Hg in Hg'. injection Hg' as <-. simpl in Hname.
        now subst name.
      + intros Hd.
        pose proof (route_after_save df tbl (@last_with_unique _ _ _ Hn Hd))
          as Hg.
        apply (get_Some route_mapper route_key_eqb_eq) in Hg.
        destruct Hg as [Hg _].
        apply in_map_iff. eexists. split; [|exact Hg]. reflexivity. }
  split; [|exact Hp].
  apply Permutation_length in Hp. now rewrite length_map in Hp.
Qed.

(** ** No match *)

Lemma mapM_length A B (f : A -> result B) l l' :
  mapM f l = Ok l' -> List.length l' = List.length l.
Proof.
  revert l'. induction l as [|a l IH]; simpl; intros l' H.
  - now injection H as <-.
  - destruct (f a); [|discriminate]. simpl in H.
    destruct (mapM f l) as [bs|]; [|discriminate]. simpl in H.
    injection H as <-. simpl. f_equal. now apply IH.
Qed.

Lemma astype_length conv get set df df' :
  astype conv get set df = Ok df' -> List.length df' = List.length df.
Proof.
  unfold astype. destruct (mapM _ df) as [col|] eqn:E; [|discriminate].
  simpl. intros H. injection H as <-.
  apply mapM_length in E.
  rewrite length_map, length_combine, E. apply Nat.min_id.
Qed.

Lemma realtime_parse_length dir rid content df :
  Realtime.parse_route_info dir rid content = Ok df ->
  List.length df = List.length (findall stop_pattern content).
Proof.
  unfold Realtime.parse_route_info, stop_frame.
  destruct (findall stop_pattern content) as [|m ms]; [discriminate|].
  set (df0 := map _ (m :: ms)).
  assert (H0 : List.length df0 = List.length (m :: ms))
    by apply length_map.
  change (match df0 with
          | [] => Raise (no_data rid)
          | _ :: _ =>
              df1 <- astype astype_float latitude set_latitude df0 ;;
              df2 <- astype astype_float longitude set_longitude df1 ;;
              astype astype_int stop_number set_stop_number df2
          end = Ok df -> List.length df = List.length (m :: ms)).
  destruct df0 as [|r0 df0']; [discriminate|]. 
  destruct (astype astype_float latitude set_latitude (r0 :: df0'))
    as [df1|] eqn:E1; [|discriminate].
  simpl. destruct (astype astype_float longitude set_longitude df1)
    as [df2|] eqn:E2; [|discriminate].
  simpl. intros E3.
  apply astype_length in E1. apply astype_length in E2.
  apply astype_length in E3. simpl in *. lia.
Qed.

(** C2, as amended. When the pattern matches nowhere, [parse_route_list]
    and the [parse_route_info] of 00003.py and of realtime_scraper.py
    raise the no-data ValueError, and none of the three ever returns an
    empty frame; the [parse_route_info] of interactive_bus_info.py prints
    a message and returns an empty frame instead. *)
Theorem no_match_outcomes (dir rid content : text) :
  (findall route_pattern content = [] ->
   parse_route_list content
   = Raise (ValueError "No data found for route table"))
  /\
  (findall stop_pattern content = [] ->
   V00003.parse_route_info dir rid content = Raise (no_data rid) /\
   Realtime.parse_route_info dir rid content = Raise (no_data rid) /\
   Interactive.parse_route_info dir rid content
   = (Ok [], [NoStopData rid dir]))
  /\
  parse_route_list content <> Ok [] /\
  V00003.parse_route_info dir rid content <> Ok [] /\
  Realtime.parse_route_info dir rid content <> Ok [].
Proof.
  split; [|split; [|split; [|split]]].
  - intros H. unfold parse_route_list. now rewrite H.
  - intros H.
    unfold V00003.parse_route_info, Realtime.parse_route_info,
      Interactive.parse_route_info, stop_frame.
    rewrite H. simpl. auto.
  - unfold parse_route_list.
    destruct (findall route_pattern content) as [|m ms]; simpl;
      discriminate.
  - unfold V00003.parse_route_info, stop_frame.
    destruct (findall stop_pattern content) as [|m ms]; simpl;
      discriminate.
  - intros H. pose proof (realtime_parse_length _ _ _ H) as Hl.
    unfold Realtime.parse_route_info, stop_frame in H.
    destruct (findall stop_pattern content) as [|m ms]; [discriminate|].
    discriminate.
Qed.

(** ** The click on the direction button *)

(** C5, as amended. When the page loads and the click on the 'come'
    button fails or times out, [fetch_route_info] of
    interactive_bus_info.py prints the failure and returns the page as
    it loaded, while [_fetch_content] of 00003.py and
    realtime_scraper.py, and the constructor that calls it, raise the
    click's exception. *)
Theorem click_failure_policy (b : Browser) (rid page : text) (e : exn) :
  goto b (stops_url rid) = Ok page ->
  click b come_button page = Raise e ->
  InteractiveFetch.fetch_route_info b rid (t "come")
  = (Ok page, [Fetching rid (t "come"); ClickFailed e]) /\
  _fetch_content b rid (t "come") = Raise e /\
  new_route_info b rid (t "come") = Raise e.
Proof.
  intros Hg Hc.
  unfold new_route_info, _fetch_content, InteractiveFetch.fetch_route_info.
  rewrite Hg. simpl. rewrite Hc. simpl. auto.
Qed.

(** ** The matcher *)

Section RepetitionFacts.
Variable k : text -> option (list text * text).
Variable cls : ascii -> bool.

Lemma take_Some c r m caps rest :
  take c r = Some (m, caps, rest) ->
  exists m', m = c :: m' /\ r = Some (m', caps, rest).
Proof.
  destruct r as [[[m' caps'] rest']|]; simpl; [|discriminate].
  intros H. injection H as <- <- <-. now exists m'.
Qed.

Lemma rest_here_Some s m caps rest :
  rest_here k s = Some (m, caps, rest) ->
  m = [] /\ k s = Some (caps, rest).
Proof.
  unfold rest_here. destruct (k s) as [[caps' rest']|]; [|discriminate].
  intros H. injection H as <- <- <-. now split.
Qed.

(** What a repetition returns: the characters it took are of its
    class, and the rest of the pattern matched what follows them. *)
Lemma rep_lazy_sound s m caps rest :
  rep_lazy k cls s = Some (m, caps, rest) ->
  forallb cls m = true /\
  exists s', s = m ++ s' /\ k s' = Some (caps, rest).
Proof.
  revert m. induction s as [|c s IH]; intros m; simpl.
  - destruct (rest_here k []) as [r|] eqn:E; [|discriminate].
    intros H. injection H as ->. apply rest_here_Some in E.
    destruct E as [-> E]. split; [reflexivity|]. now exists [].
  - destruct (rest_here k (c :: s)) as [r|] eqn:E.
    + intros H. injection H as ->. apply rest_here_Some in E.
      destruct E as [-> E]. split; [reflexivity|]. now exists (c :: s).
    + destruct (cls c) eqn:Ec; [|discriminate].
      intros H. apply take_Some in H. destruct H as (m' & -> & H).
      apply IH in H. destruct H as (Hf & s' & -> & Hk).
      simpl. rewrite Ec. split; [assumption|]. now exists s'.
Qed.

Lemma rep_greedy_sound s m caps rest :
  rep_greedy k cls s = Some (m, caps, rest) ->
  forallb cls m = true /\
  exists s', s = m ++ s' /\ k s' = Some (caps, rest).
Proof.
  assert (Hhere : forall s m, rest_here k s = Some (m, caps, rest) ->
            forallb cls m = true /\
            exists s', s = m ++ s' /\ k s' = Some (caps, rest)).
  { intros s0 m0 E. apply rest_here_Some in E. destruct E as [-> E].
    split; [reflexivity|]. now exists s0. }
  revert m. induction s as [|c s IH]; intros m; simpl; [apply Hhere|].
  destruct (cls c) eqn:Ec; [|apply Hhere].
  destruct (take c (rep_greedy k cls s)) as [r|] eqn:E; [|apply Hhere].
  intros H. injection H as ->.
  apply take_Some in E. destruct E as (m' & -> & H).
  apply IH in H. destruct H as (Hf & s' & -> & Hk).
  simpl. rewrite Ec. split; [assumption|]. now exists s'.
Qed.

Lemma rep_min_sound greedy min s m caps rest :
  rep_min k cls greedy min s = Some (m, caps, rest) ->
  forallb cls m = true /\ min <= List.length m /\
  exists s', s = m ++ s' /\ k s' = Some (caps, rest).
Proof.
  revert s m. induction min as [|min IH]; intros s m; simpl.
  - intros H.
    assert (H' : forallb cls m = true /\
                 exists s', s = m ++ s' /\ k s' = Some (caps, rest))
      by (destruct greedy;
          [now apply rep_greedy_sound | now apply rep_lazy_sound]).
    destruct H' as [H1 H2]. repeat split; [assumption | lia | assumption].
  - destruct s as [|c s]; [discriminate|].
    destruct (cls c) eqn:Ec; [|discriminate].
    intros H. apply take_Some in H. destruct H as (m' & -> & H).
    apply IH in H. destruct H as (Hf & Hl & s' & -> & Hk).
    simpl. rewrite Ec. repeat split; [assumption | lia |]. now exists s'.
Qed.

(** A lazy repetition stops at the first place where the rest of the
    pattern matches. *)
Lemma rep_lazy_until x y caps rest :
  forallb cls x = true ->
  (forall a b, x = a ++ b -> b <> [] -> k (b ++ y) = None) ->
  k y = Some (caps, rest) ->
  rep_lazy k cls (x ++ y) = Some (x, caps, rest).
Proof.
  induction x as [|c x IH]; intros Hc Hn Hk.
  - simpl. destruct y as [|d y]; simpl; unfold rest_here; now rewrite Hk.
  - simpl in Hc. apply andb_true_iff in Hc. destruct Hc as [Hc1 Hc2].
    change ((c :: x) ++ y) with (c :: (x ++ y)). simpl.
    unfold rest_here at 1.
    pose proof (Hn [] (c :: x) eq_refl ltac:(discriminate)) as Hh.
    change ((c :: x) ++ y) with (c :: x ++ y) in Hh. rewrite Hh.
    rewrite Hc1, IH; [reflexivity | assumption | | assumption].
    intros a b -> Hb. now apply (Hn (c :: a) b).
Qed.
End RepetitionFacts.

Lemma strip_prefix_Some l s s' :
  strip_prefix l s = Some s' <-> s = l ++ s'.
Proof.
  revert s. induction l as [|a l IH]; intros s; simpl.
  - split; [intros H; now injection H as -> | intros ->; reflexivity].
  - destruct s as [|b s]; [split; discriminate|].
    destruct (Ascii.eqb a b) eqn:E.
    + apply Ascii.eqb_eq in E. subst b. rewrite IH.
      split; [intros ->; reflexivity | intros H; now injection H].
    + apply Ascii.eqb_neq in E. split; [discriminate|].
      intros H. injection H as H _. congruence.
Qed.

Lemma strip_prefix_app l s : strip_prefix l (l ++ s) = Some s.
Proof. now apply strip_prefix_Some. Qed.

Lemma strip_prefix_None_app l s x :
  strip_prefix l s = None -> List.length l <= List.length s ->
  strip_prefix l (s ++ x) = None.
Proof.
  revert s. induction l as [|a l IH]; intros s; simpl; [discriminate|].
  destruct s as [|b s]; simpl; [lia|].
  destruct (Ascii.eqb a b); [|reflexivity].
  intros H Hl. apply IH; [assumption | lia].
Qed.

(** Inside a text free of the delimiter the delimiter does not match,
    whatever follows the delimiter that ends the text. *)
Lemma free_of_no_match delim x a b z :
  free_of delim x = true -> x = a ++ b -> b <> [] ->
  strip_prefix delim (b ++ delim ++ z) = None.
Proof.
  revert x. induction a as [|c a IH]; intros x Hf -> Hb.
  - destruct b as [|c b]; [contradiction|]. simpl in Hf.
    apply andb_true_iff in Hf. destruct Hf as [Hf _].
    unfold is_prefix in Hf.
    change ((c :: b) ++ delim) with (c :: b ++ delim) in Hf.
    destruct (strip_prefix delim (c :: b ++ delim)) eqn:E; [discriminate|].
    change (([] ++ c :: b) ++ delim ++ z) with ((c :: b) ++ delim ++ z).
    rewrite app_assoc. apply strip_prefix_None_app; [exact E|].
    simpl. rewrite length_app. lia.
  - simpl in Hf. apply andb_true_iff in Hf. destruct Hf as [_ Hf].
    now apply (IH (a ++ b)).
Qed.

Lemma match_items_groups p s caps rest :
  match_items p s = Some (caps, rest) ->
  Forall2 (fun m g => fst g <= List.length m /\ forallb (snd g) m = true)
          caps (groups p).
Proof.
  revert s caps. induction p as [|[l|capture greedy min cls] p IH];
    intros s caps; simpl.
  - intros H. injection H as <- <-. constructor.
  - destruct (strip_prefix l s) as [s'|]; [|discriminate]. apply IH.
  - destruct (rep_min (match_items p) cls greedy min s)
      as [[[m caps'] rest']|] eqn:E; [|discriminate].
    intros H. injection H as <- <-.
    apply rep_min_sound in E. destruct E as (Hf & Hl & s' & -> & Hk).
    apply IH in Hk. destruct capture; [|assumption].
    constructor; [now split | assumption].
Qed.

(** A match consumes a prefix of the text. *)
Lemma match_items_suffix p s caps rest :
  match_items p s = Some (caps, rest) -> exists used, s = used ++ rest.
Proof.
  revert s caps. induction p as [|[l|capture greedy min cls] p IH];
    intros s caps; simpl.
  - intros H. injection H as <- <-. now exists [].
  - destruct (strip_prefix l s) as [s'|] eqn:E; [|discriminate].
    apply strip_prefix_Some in E. subst s. intros H.
    apply IH in H. destruct H as (used & ->).
    exists (l ++ used). now rewrite app_assoc.
  - destruct (rep_min (match_items p) cls greedy min s)
      as [[[m caps'] rest']|] eqn:E; [|discriminate].
    intros H. injection H as <- <-.
    apply rep_min_sound in E. destruct E as (_ & _ & s' & -> & Hk).
    apply IH in Hk. destruct Hk as (used & ->).
    exists (m ++ used). now rewrite app_assoc.
Qed.

(** ** [findall] *)

Lemma findall_from_fuel p f1 : forall f2 s,
  List.length s < f1 -> List.length s < f2 ->
  findall_from f1 p s = findall_from f2 p s.
Proof.
  induction f1 as [|f1 IH]; intros f2 s H1 H2; [lia|].
  destruct f2 as [|f2]; [lia|]. simpl.
  assert (Hnext :
            match s with [] => [] | _ :: s' => findall_from f1 p s' end
            = match s with [] => [] | _ :: s' => findall_from f2 p s' end).
  { destruct s as [|c s']; [reflexivity|]. simpl in *. apply IH; lia. }
  rewrite Hnext.
  destruct (match_items p s) as [[caps rest]|]; [|reflexivity].
  destruct (List.length rest <? List.length s) eqn:E; [|reflexivity].
  apply Nat.ltb_lt in E. f_equal. apply IH; lia.
Qed.

Lemma findall_from_S f p s :
  findall_from (S f) p s
  = let next := match s with [] => [] | _ :: s' => findall_from f p s' end in
    match match_items p s with
    | Some (caps, rest) =>
        caps :: (if List.length rest <? List.length s
                 then findall_from f p rest else next)
    | None => next
    end.
Proof. reflexivity. Qed.

Lemma findall_miss p c s :
  match_items p (c :: s) = None -> findall p (c :: s) = findall p s.
Proof.
  intros H. unfold findall. rewrite findall_from_S. cbv zeta.
  rewrite H. reflexivity.
Qed.

Lemma findall_hit p s caps rest :
  match_items p s = Some (caps, rest) ->
  List.length rest < List.length s ->
  findall p s = caps :: findall p rest.
Proof.
  intros H Hl. unfold findall at 1. rewrite findall_from_S. cbv zeta.
  rewrite H, (proj2 (Nat.ltb_lt _ _) Hl). f_equal.
  apply findall_from_fuel; lia.
Qed.

(** Every tuple [findall] returns is the captures of a match. *)
Lemma findall_from_In p fuel s caps :
  In caps (findall_from fuel p s) ->
  exists s' rest, match_items p s' = Some (caps, rest).
Proof.
  revert s. induction fuel as [|f IH]; intros s; simpl; [contradiction|].
  assert (Hnext :
            In caps (match s with
                     | [] => []
                     | _ :: s' => findall_from f p s'
                     end) ->
            exists s' rest, match_items p s' = Some (caps, rest)).
  { destruct s as [|c s']; [contradiction | apply IH]. }
  destruct (match_items p s) as [[caps' rest]|] eqn:E; [|exact Hnext].
  intros [<-|H]; [now exists s, rest|].
  destruct (List.length rest <? List.length s); [now apply (IH rest)|].
  now apply Hnext.
Qed.

Lemma findall_In p s caps :
  In caps (findall p s) ->
  Forall2 (fun m g => fst g <= List.length m /\ forallb (snd g) m = true)
          caps (groups p).
Proof.
  intros H. apply findall_from_In in H. destruct H as (s' & rest & H).
  now apply match_items_groups in H.
Qed.

(** ** The route-list page *)

Lemma match_items_Lit l p s :
  match_items (Lit l :: p) (l ++ s) = match_items p s.
Proof.
  change (match_items (Lit l :: p) (l ++ s))
    with (match strip_prefix l (l ++ s) with
          | Some s' => match_items p s'
          | None => None
          end).
  now rewrite strip_prefix_app.
Qed.

Lemma match_items_Lit_None l p s :
  strip_prefix l s = None -> match_items (Lit l :: p) s = None.
Proof.
  intros H.
  change (match_items (Lit l :: p) s)
    with (match strip_prefix l s with
          | Some s' => match_items p s'
          | None => None
          end).
  now rewrite H.
Qed.

Lemma match_items_lazy_capture cls p x y caps rest :
  forallb cls x = true ->
  (forall a b, x = a ++ b -> b <> [] -> match_items p (b ++ y) = None) ->
  match_items p y = Some (caps, rest) ->
  match_items (Rep true false 0 cls :: p) (x ++ y) = Some (x :: caps, rest).
Proof.
  intros Hc Hn Hk.
  change (match_items (Rep true false 0 cls :: p) (x ++ y))
    with (match rep_lazy (match_items p) cls (x ++ y) with
          | Some (m, caps, rest) => Some (m :: caps, rest)
          | None => None
          end).
  now rewrite (@rep_lazy_until (match_items p) cls x y caps rest Hc Hn Hk).
Qed.

Lemma forallb_any_char x : forallb any_char x = true.
Proof. induction x; simpl; auto. Qed.

Lemma route_pattern_eq :
  route_pattern
  = [ Lit route_open; Rep true false 0 any_char; Lit route_mid;
      Rep true false 0 any_char; Lit route_close ].
Proof. reflexivity. Qed.

(** An anchor entry is matched as a whole, and gives its id and name. *)
Lemma route_entry_match rid name rest :
  free_of route_mid rid = true ->
  free_of route_close name = true ->
  match_items route_pattern
    (route_open ++ rid ++ route_mid ++ name ++ route_close ++ rest)
  = Some ([rid; name], rest).
Proof.
  intros Hid Hname. rewrite route_pattern_eq.
  rewrite match_items_Lit.
  apply match_items_lazy_capture; [apply forallb_any_char | |].
  - intros a b Hx Hb. apply match_items_Lit_None.
    eapply free_of_no_match; eassumption.
  - rewrite match_items_Lit.
    apply match_items_lazy_capture; [apply forallb_any_char | |].
    + intros a b Hx Hb. apply match_items_Lit_None.
      eapply free_of_no_match; eassumption.
    + now rewrite match_items_Lit.
Qed.

Lemma route_page_cons sep rid name es tail :
  route_page ((sep, rid, name) :: es) tail
  = sep ++ route_open ++ rid ++ route_mid ++ name ++ route_close
        ++ route_page es tail.
Proof.
  unfold route_page, route_entry. cbn [flat_map fst snd].
  now rewrite <- !app_assoc.
Qed.

(** The scan passes over filler text that is free of the opening. *)
Lemma findall_skip_filler sep z :
  free_of route_open sep = true ->
  findall route_pattern (sep ++ route_open ++ z)
  = findall route_pattern (route_open ++ z).
Proof.
  induction sep as [|c sep IH]; intros Hf; [reflexivity|].
  change ((c :: sep) ++ route_open ++ z)
    with (c :: (sep ++ route_open ++ z)).
  rewrite findall_miss.
  - apply IH. simpl in Hf. apply andb_true_iff in Hf. tauto.
  - rewrite route_pattern_eq. apply match_items_Lit_None.
    change (c :: sep ++ route_open ++ z)
      with ((c :: sep) ++ route_open ++ z).
    apply (@free_of_no_match route_open (c :: sep) [] (c :: sep) z Hf);
      [reflexivity | discriminate].
Qed.

Lemma findall_route_page entries tail :
  forallb entry_ok entries = true ->
  findall route_pattern (route_page entries tail)
  = map (fun e => [snd (fst e); snd e]) entries
    ++ findall route_pattern tail.
Proof.
  induction entries as [|[[sep rid] name] es IH]; intros Hok;
    [reflexivity|].
  simpl in Hok. apply andb_true_iff in Hok. destruct Hok as [Hok Hes].
  unfold entry_ok in Hok. simpl in Hok.
  apply andb_true_iff in Hok. destruct Hok as [Hok Hname].
  apply andb_true_iff in Hok. destruct Hok as [Hsep Hid].
  rewrite route_page_cons.
  rewrite (@findall_skip_filler sep _ Hsep).
  rewrite (@findall_hit _ _ _ _
             (@route_entry_match rid name (route_page es tail) Hid Hname)).
  - cbn [map fst snd app]. f_equal. now apply IH.
  - rewrite !length_app.
    assert (0 < List.length route_open) by (vm_compute; lia). lia.
Qed.

(** ** [str.strip] *)

Lemma strip_left_suffix s : exists a, s = a ++ strip_left s.
Proof.
  induction s as [|c s (a & IH)]; [now exists []|]. simpl.
  destruct (is_space c); [|now exists []].
  exists (c :: a). simpl. now f_equal.
Qed.

Lemma strip_left_head s c r : strip_left s = c :: r -> is_space c = false.
Proof.
  induction s as [|d s IH]; simpl; [discriminate|].
  destruct (is_space d) eqn:E; [assumption|].
  intros H. now injection H as <- _.
Qed.

(** The stripped text neither begins nor ends with whitespace. *)
Lemma strip_no_outer_space s :
  (forall c r, strip s = c :: r -> is_space c = false) /\
  (forall r c, strip s = r ++ [c] -> is_space c = false).
Proof.
  unfold strip. set (y := strip_left s).
  destruct (strip_left_suffix (rev y)) as (a & Ha).
  set (z := strip_left (rev y)) in *.
  split.
  - intros c r H.
    assert (Hy : y = rev z ++ rev a).
    { rewrite <- rev_app_distr, <- Ha. now rewrite rev_involutive. }
    rewrite H in Hy. simpl in Hy.
    now apply (@strip_left_head s c (r ++ rev a)).
  - intros r c H.
    assert (Hz : z = c :: rev r).
    { rewrite <- (rev_involutive z), H, rev_app_distr. reflexivity. }
    now apply (@strip_left_head (rev y) c (rev r)).
Qed.


(** ** Numerals *)

Lemma span_spec cls s a b :
  span cls s = (a, b) -> forallb cls a = true /\ s = a ++ b.
Proof.
  revert a b. induction s as [|c s IH]; simpl; intros a b H.
  - injection H as <- <-. now split.
  - destruct (cls c) eqn:Ec.
    + destruct (span cls s) as [a' b'] eqn:E. injection H as <- <-.
      destruct (IH a' b' eq_refl) as [H1 H2]. simpl. rewrite Ec, H1.
      split; [reflexivity | now f_equal].
    + injection H as <- <-. now split.
Qed.

Lemma digit_or_dot_not_space c : digit_or_dot c = true -> is_space c = false.
Proof.
  unfold digit_or_dot, is_digit, is_space. intros H.
  apply orb_true_iff in H. destruct H as [H|H].
  - apply andb_true_iff in H. destruct H as [H1 H2].
    apply Nat.leb_le in H1, H2.
    apply orb_false_iff. split; apply andb_false_iff.
    + right. apply Nat.leb_gt. lia.
    + right. apply Nat.leb_gt. lia.
  - apply Ascii.eqb_eq in H. now subst c.
Qed.

Lemma digit_or_dot_not_sign c :
  digit_or_dot c = true ->
  Ascii.eqb c "-"%char = false /\ Ascii.eqb c "+"%char = false.
Proof.
  unfold digit_or_dot, is_digit. intros H.
  apply orb_true_iff in H. destruct H as [H|H].
  - apply andb_true_iff in H. destruct H as [H1 H2].
    apply Nat.leb_le in H1, H2.
    split; apply Ascii.eqb_neq; intros ->; vm_compute in H1; lia.
  - apply Ascii.eqb_eq in H. now subst c.
Qed.

Lemma strip_left_id s :
  (forall c r, s = c :: r -> is_space c = false) -> strip_left s = s.
Proof.
  destruct s as [|c s]; [reflexivity|]. intros H. simpl.
  now rewrite (H c s eq_refl).
Qed.

(** A text of digits and dots has nothing to strip. *)
Lemma strip_unsigned s : forallb digit_or_dot s = true -> strip s = s.
Proof.
  intros H. unfold strip.
  assert (Hs : forall c, In c s -> is_space c = false).
  { intros c Hc. apply digit_or_dot_not_space.
    now apply (proj1 (forallb_forall _ _) H). }
  rewrite (@strip_left_id s).
  - rewrite (@strip_left_id (rev s)); [apply rev_involutive|].
    intros c r E. apply Hs. apply in_rev. rewrite E. now left.
  - intros c r E. apply Hs. rewrite E. now left.
Qed.

Lemma digit_value_nonneg c : is_digit c = true -> (0 <= digit_value c)%Z.
Proof.
  unfold is_digit, digit_value. intros H.
  apply andb_true_iff in H. destruct H as [H _]. apply Nat.leb_le in H. lia.
Qed.

Lemma digits_value_nonneg ds :
  forallb is_digit ds = true -> (0 <= digits_value ds)%Z.
Proof.
  unfold digits_value.
  assert (G : forall acc, (0 <= acc)%Z -> forallb is_digit ds = true ->
              (0 <= fold_left (fun a c => a * 10 + digit_value c) ds acc)%Z).
  { induction ds as [|c ds IH]; intros acc Ha H; simpl; [assumption|].
    simpl in H. apply andb_true_iff in H. destruct H as [H1 H2].
    apply IH; [|assumption]. apply digit_value_nonneg in H1. lia. }
  intros H. apply G; [lia | assumption].
Qed.

(** [float] of a text of digits and dots is never negative. *)
Lemma py_float_unsigned s q :
  forallb digit_or_dot s = true -> py_float s = Some q -> (0 <= q)%Q.
Proof.
  intros Hs. unfold py_float. rewrite (@strip_unsigned s Hs).
  assert (Hr : read_sign s = (false, s)).
  { destruct s as [|c s']; [reflexivity|]. simpl in Hs.
    apply andb_true_iff in Hs. destruct Hs as [Hc _].
    apply digit_or_dot_not_sign in Hc. destruct Hc as [H1 H2].
    unfold read_sign. now rewrite H1, H2. }
  rewrite Hr. destruct (span is_digit s) as [ip r1] eqn:E1.
  apply span_spec in E1. destruct E1 as [Hip _].
  assert (Hfp : forall fp r2,
             match r1 with
             | c :: r' =>
                 if Ascii.eqb c "."%char then span is_digit r' else ([], r1)
             | [] => ([], r1)
             end = (fp, r2) -> forallb is_digit fp = true).
  { intros fp r2 H. destruct r1 as [|c r'].
    - now injection H as <- _.
    - destruct (Ascii.eqb c "."%char).
      + now apply span_spec in H.
      + now injection H as <- _. }
  destruct (match r1 with
            | c :: r' =>
                if Ascii.eqb c "."%char then span is_digit r' else ([], r1)
            | [] => ([], r1)
            end) as [fp r2] eqn:E2.
  specialize (Hfp fp r2 eq_refl).
  destruct (is_nil ip && is_nil fp); [discriminate|].
  destruct (read_exponent r2) as [e|]; [|discriminate].
  intros H. injection H as <-. simpl signed.
  apply Qmult_le_0_compat.
  - change 0%Q with (inject_Z 0). rewrite <- Zle_Qle.
    apply digits_value_nonneg. rewrite forallb_app, Hip, Hfp. reflexivity.
  - apply Qpower_0_le. discriminate.
Qed.

(** ** The stop-list page *)

Lemma groups_stop_pattern :
  groups stop_pattern
  = [ (0, any_char); (1, is_digit); (0, any_char); (1, is_digit);
      (1, digit_or_dot); (1, digit_or_dot) ].
Proof. reflexivity. Qed.

Lemma findall_stop_captures content caps :
  In caps (findall stop_pattern content) -> stop_captures caps.
Proof.
  intros H. apply findall_In in H. rewrite groups_stop_pattern in H.
  inversion H as [|a ? c1 ? Ha H1]; subst.
  inversion H1 as [|n ? c2 ? Hn H2]; subst.
  inversion H2 as [|name ? c3 ? Hname H3]; subst.
  inversion H3 as [|sid ? c4 ? Hsid H4]; subst.
  inversion H4 as [|lat ? c5 ? Hlat H5]; subst.
  inversion H5 as [|lon ? c6 ? Hlon H6]; subst.
  inversion H6; subst.
  exists a, n, name, sid, lat, lon. simpl in *. tauto.
Qed.

Lemma mapM_Forall2 A B (f : A -> result B) l l' :
  mapM f l = Ok l' -> Forall2 (fun a b => f a = Ok b) l l'.
Proof.
  revert l'. induction l as [|a l IH]; simpl; intros l' H.
  - injection H as <-. constructor.
  - destruct (f a) as [b|] eqn:E; [|discriminate]. simpl in H.
    destruct (mapM f l) as [bs|]; [|discriminate]. simpl in H.
    injection H as <-. constructor; [assumption | now apply IH].
Qed.

Lemma mapM_Raise_inv A B (f : A -> result B) l e :
  mapM f l = Raise e -> exists a, In a l /\ f a = Raise e.
Proof.
  induction l as [|a l IH]; simpl; [discriminate|].
  destruct (f a) as [b|e'] eqn:E; simpl.
  - destruct (mapM f l) as [bs|e'] eqn:E'; [discriminate|]. simpl.
    intros H. injection H as ->. destruct (IH eq_refl) as (x & Hx & Hf).
    exists x. split; [now right | assumption].
  - intros H. injection H as ->. exists a. split; [now left | assumption].
Qed.

Lemma mapM_Ok_inv A B (f : A -> result B) l l' a :
  mapM f l = Ok l' -> In a l -> exists b, f a = Ok b.
Proof.
  intros H Hin. apply mapM_Forall2 in H.
  induction H as [|x y l l' Hxy _ IH]; [contradiction|].
  destruct Hin as [<-|Hin]; [now exists y | now apply IH].
Qed.

(** The rows of a frame after one column is converted *)
Lemma astype_rows conv get set df df' :
  astype conv get set df = Ok df' ->
  Forall2 (fun r r' => exists c, conv (get r) = Ok c /\ r' = set r c) df df'.
Proof.
  unfold astype. destruct (mapM _ df) as [col|] eqn:E; [|discriminate].
  simpl. intros H. injection H as <-.
  apply mapM_Forall2 in E.
  induction E as [|r c df col Hrc _ IH]; simpl; constructor;
    [now exists c | assumption].
Qed.

Lemma Forall2_compose A B C (R1 : A -> B -> Prop) (R2 : B -> C -> Prop)
  l1 l2 l3 :
  Forall2 R1 l1 l2 -> Forall2 R2 l2 l3 ->
  Forall2 (fun a c => exists b, R1 a b /\ R2 b c) l1 l3.
Proof.
  intros H. revert l3. induction H as [|a b l1 l2 Hab _ IH]; intros l3 H2.
  - inversion H2. constructor.
  - inversion H2 as [|? c ? l3' Hbc H2']; subst.
    constructor; [now exists b | now apply IH].
Qed.

Lemma Forall2_impl A B (R1 R2 : A -> B -> Prop) l1 l2 :
  (forall a b, In a l1 -> R1 a b -> R2 a b) ->
  Forall2 R1 l1 l2 -> Forall2 R2 l1 l2.
Proof.
  intros Hi H. induction H as [|a b l1 l2 Hab _ IH]; constructor.
  - apply Hi; [now left | assumption].
  - apply IH. intros x y Hx. apply Hi. now right.
Qed.

Lemma Forall2_In_r A B (R : A -> B -> Prop) l1 l2 b :
  Forall2 R l1 l2 -> In b l2 -> exists a, In a l1 /\ R a b.
Proof.
  intros H. induction H as [|x y l1 l2 Hxy _ IH]; [contradiction|].
  intros [<-|Hin].
  - exists x. split; [now left | assumption].
  - destruct (IH Hin) as (a & Ha & Hr). exists a.
    split; [now right | assumption].
Qed.

Lemma Forall2_In_l A B (R : A -> B -> Prop) l1 l2 a :
  Forall2 R l1 l2 -> In a l1 -> exists b, In b l2 /\ R a b.
Proof.
  intros H. induction H as [|x y l1 l2 Hxy _ IH]; [contradiction|].
  intros [<-|Hin].
  - exists y. split; [now left | assumption].
  - destruct (IH Hin) as (b & Hb & Hr). exists b.
    split; [now right | assumption].
Qed.

Lemma realtime_rows dir rid content df :
  Realtime.parse_route_info dir rid content = Ok df ->
  Forall2 converted (stop_frame dir rid content) df.
Proof.
  unfold Realtime.parse_route_info.
  set (df0 := stop_frame dir rid content).
  destruct df0 as [|r0 df0'] eqn:E0; [discriminate|]. rewrite <- E0.
  destruct (astype astype_float latitude set_latitude df0)
    as [df1|] eqn:E1; [|discriminate].
  simpl. destruct (astype astype_float longitude set_longitude df1)
    as [df2|] eqn:E2; [|discriminate].
  simpl. intros E3.
  apply astype_rows in E1. apply astype_rows in E2. apply astype_rows in E3.
  pose proof (Forall2_compose (Forall2_compose E1 E2) E3) as H.
  revert H. apply Forall2_impl.
  intros a b _
    (r2 & (r1 & (ca & Hca & ->) & (co & Hco & ->)) & (cn & Hcn & ->)).
  exists ca, co, cn. simpl in *. auto.
Qed.

Lemma stop_frame_rows dir rid content r :
  In r (stop_frame dir rid content) ->
  exists a n name sid lat lon,
    In [a; n; name; sid; lat; lon] (findall stop_pattern content) /\
    r = mkStopRow a (Str n) name (Str sid) (Str lat) (Str lon) dir rid /\
    stop_captures [a; n; name; sid; lat; lon].
Proof.
  unfold stop_frame. intros H. apply in_map_iff in H.
  destruct H as (caps & <- & Hin).
  pose proof (findall_stop_captures _ _ Hin) as Hc.
  destruct Hc as (a & n & name & sid & lat & lon & -> & Hc).
  exists a, n, name, sid, lat, lon. split; [assumption|].
  split; [reflexivity|].
  exists a, n, name, sid, lat, lon. now split.
Qed.

Lemma astype_float_Str s c :
  astype_float (Str s) = Ok c -> exists q, py_float s = Some q /\ c = Float q.
Proof.
  simpl. destruct (py_float s) as [q|]; [|discriminate].
  intros H. injection H as <-. now exists q.
Qed.

Lemma astype_int_Str s c :
  astype_int (Str s) = Ok c -> exists n, py_int s = Some n /\ c = Int n.
Proof.
  simpl. destruct (py_int s) as [n|]; [|discriminate].
  destruct (_ && _); [|discriminate].
  intros H. injection H as <-. now exists n.
Qed.


(** ** Numeric columns *)

Lemma astype_Raise_inv conv get set df e :
  astype conv get set df = Raise e ->
  exists r, In r df /\ conv (get r) = Raise e.
Proof.
  unfold astype. destruct (mapM _ df) as [col|e'] eqn:E; [discriminate|].
  simpl. intros H. injection H as ->.
  now apply mapM_Raise_inv in E.
Qed.

Lemma astype_Ok_inv conv get set df df' r :
  astype conv get set df = Ok df' -> In r df ->
  exists c, conv (get r) = Ok c.
Proof.
  unfold astype. destruct (mapM _ df) as [col|e'] eqn:E; [|discriminate].
  intros _ Hin. exact (mapM_Ok_inv _ _ _ E Hin).
Qed.

Lemma astype_float_Str_Raise s e :
  astype_float (Str s) = Raise e -> py_float s = None /\ e = float_error.
Proof.
  simpl. destruct (py_float s); [discriminate|].
  intros H. injection H as <-. now split.
Qed.

Lemma Forall2_map_l A A' B (f : A -> A') (R : A' -> B -> Prop) l l' :
  Forall2 R (map f l) l' -> Forall2 (fun a b => R (f a) b) l l'.
Proof.
  revert l'. induction l as [|a l IH]; intros l' H; inversion H; subst;
    constructor; auto.
Qed.

(** A text that [float] rejects in the latitude or longitude column
    makes the whole parse of realtime_scraper.py raise. *)
Lemma realtime_malformed_float dir rid content a n name sid lat lon :
  In [a; n; name; sid; lat; lon] (findall stop_pattern content) ->
  py_float lat = None \/ py_float lon = None ->
  Realtime.parse_route_info dir rid content = Raise float_error.
Proof.
  intros Hin Hbad.
  set (r0 := mkStopRow a (Str n) name (Str sid) (Str lat) (Str lon) dir rid).
  assert (Hr0 : In r0 (stop_frame dir rid content)).
  { unfold stop_frame.
    change r0 with (stop_row dir rid [a; n; name; sid; lat; lon]).
    now apply in_map. }
  unfold Realtime.parse_route_info.
  set (df0 := stop_frame dir rid content) in *.
  destruct df0 as [|x df0'] eqn:E0; [contradiction|]. rewrite <- E0 in *.
  destruct (astype astype_float latitude set_latitude df0)
    as [df1|e] eqn:E1.
  - simpl.
    destruct (astype_Ok_inv _ _ _ _ _ E1 Hr0) as (c & Hc).
    apply astype_float_Str in Hc. destruct Hc as (qa & Hqa & ->).
    destruct Hbad as [Hbad|Hbad]; [simpl in Hqa; congruence|].
    pose proof (astype_rows _ _ _ _ E1) as H1.
    destruct (@Forall2_In_l _ _ _ _ _ _ H1 Hr0)
      as (r1 & Hr1 & c & _ & Er1).
    destruct (astype astype_float longitude set_longitude df1)
      as [df2|e] eqn:E2.
    + destruct (astype_Ok_inv _ _ _ _ _ E2 Hr1) as (c' & Hc').
      rewrite Er1 in Hc'. simpl in Hc'. rewrite Hbad in Hc'. discriminate.
    + simpl. f_equal.
      apply astype_Raise_inv in E2. destruct E2 as (x1 & Hx1 & Hf).
      destruct (@Forall2_In_r _ _ _ _ _ _ H1 Hx1)
        as (x0 & Hx0 & c0 & _ & Ex1).
      apply stop_frame_rows in Hx0.
      destruct Hx0 as (? & ? & ? & ? & ? & lon' & _ & -> & _).
      rewrite Ex1 in Hf. simpl longitude in Hf.
      now apply astype_float_Str_Raise in Hf.
  - simpl. f_equal.
    apply astype_Raise_inv in E1. destruct E1 as (x0 & Hx0 & Hf).
    apply stop_frame_rows in Hx0.
    destruct Hx0 as (? & ? & ? & ? & lat' & ? & _ & -> & _).
    simpl latitude in Hf. now apply astype_float_Str_Raise in Hf.
Qed.


(** ** The status column *)

Lemma set_route_status_keys rid s tbl :
  map RouteORM.route_id (set_route_status rid s tbl)
  = map RouteORM.route_id tbl.
Proof.
  unfold set_route_status. rewrite map_map. apply map_ext.
  intros r. now destruct (text_eqb (RouteORM.route_id r) rid).
Qed.

Lemma set_route_status_unique rid s tbl :
  unique_keys route_mapper tbl ->
  unique_keys route_mapper (set_route_status rid s tbl).
Proof.
  unfold unique_keys. simpl. now rewrite set_route_status_keys.
Qed.

Lemma status_of_set k rid s tbl :
  status_of k (set_route_status rid s tbl)
  = if text_eqb k rid then option_map (fun _ => s) (status_of k tbl)
    else status_of k tbl.
Proof.
  unfold status_of, get, set_route_status. simpl.
  induction tbl as [|r tbl IH]; simpl.
  - now destruct (text_eqb k rid).
  - destruct (text_eqb (RouteORM.route_id r) rid) eqn:Er; simpl.
    + destruct (text_eqb (RouteORM.route_id r) k) eqn:Ek; simpl.
      * apply text_eqb_eq in Er, Ek. subst.
        now rewrite text_eqb_refl.
      * exact IH.
    + destruct (text_eqb (RouteORM.route_id r) k) eqn:Ek; simpl.
      * apply text_eqb_eq in Ek. subst k. now rewrite Er.
      * exact IH.
Qed.

Lemma status_writes_pending rid s tbl :
  unique_keys route_mapper tbl ->
  status_of rid tbl = Some pending ->
  status_writes rid s tbl = [StatusWrite rid pending s].
Proof.
  intros Hu Hs. unfold status_writes.
  rewrite (rows_with_get route_key_eqb_eq _ Hu).
  unfold status_of in Hs. destruct (get route_mapper rid tbl) as [r|];
    [|discriminate].
  simpl in Hs. injection Hs as Hs. simpl. now rewrite Hs.
Qed.

(** ** Stops of other routes under a merge *)

Lemma merge_cons Obj Row Key (M : Mapper Obj Row Key) o r tbl :
  merge M o (r :: tbl)
  = if key_eqb M (key_of_row M r) (key_of_obj M o)
    then load M o (Some r) :: tbl
    else r :: merge M o tbl.
Proof. reflexivity. Qed.

Lemma stop_key_route r o :
  key_eqb stop_mapper (key_of_row stop_mapper r) (key_of_obj stop_mapper o)
  = true ->
  StopORM.route_id r = route_id o.
Proof.
  intros E. apply stop_key_eqb_eq in E. simpl in E. now injection E.
Qed.

Lemma others_cons rid r tbl :
  stops_of_others rid (r :: tbl)
  = if negb (text_eqb (StopORM.route_id r) rid)
    then r :: stops_of_others rid tbl
    else stops_of_others rid tbl.
Proof. reflexivity. Qed.

Lemma others_merge_same rid o tbl :
  route_id o = rid ->
  stops_of_others rid (merge stop_mapper o tbl) = stops_of_others rid tbl.
Proof.
  intros Ho. induction tbl as [|r tbl IH].
  - cbn [merge]. rewrite others_cons. cbn [load stop_mapper].
    unfold stop_orm. cbn [StopORM.route_id].
    now rewrite Ho, text_eqb_refl.
  - rewrite merge_cons.
    destruct (key_eqb stop_mapper _ _) eqn:E.
    + apply stop_key_route in E. rewrite !others_cons.
      cbn [load stop_mapper]. unfold stop_orm. cbn [StopORM.route_id].
      now rewrite E, Ho, text_eqb_refl.
    + rewrite !others_cons, IH. reflexivity.
Qed.

Lemma others_merge_other rid o tbl :
  route_id o <> rid ->
  stops_of_others rid (merge stop_mapper o tbl)
  = merge stop_mapper o (stops_of_others rid tbl).
Proof.
  intros Ho. apply text_eqb_neq in Ho. induction tbl as [|r tbl IH].
  - cbn [merge]. rewrite others_cons. cbn [load stop_mapper].
    unfold stop_orm. cbn [StopORM.route_id]. now rewrite Ho.
  - rewrite merge_cons.
    destruct (key_eqb stop_mapper _ _) eqn:E.
    + pose proof (stop_key_route _ _ E) as E'. rewrite !others_cons.
      cbn [load stop_mapper]. unfold stop_orm at 1.
      cbn [StopORM.route_id]. rewrite E', Ho. cbn [negb].
      now rewrite merge_cons, E.
    + rewrite !others_cons.
      destruct (negb (text_eqb (StopORM.route_id r) rid)).
      * rewrite merge_cons, E. now f_equal.
      * exact IH.
Qed.

Lemma others_save_same rid df tbl :
  Forall (fun o => route_id o = rid) df ->
  stops_of_others rid (taipei_route_info.save_to_database df tbl)
  = stops_of_others rid tbl.
Proof.
  unfold taipei_route_info.save_to_database, merge_all.
  revert tbl. induction df as [|o df IH]; intros tbl H; [reflexivity|].
  inversion H; subst. simpl. rewrite IH by assumption.
  now apply others_merge_same.
Qed.

Lemma others_save_other rid rid' df tbl :
  rid' <> rid ->
  Forall (fun o => route_id o = rid') df ->
  stops_of_others rid (taipei_route_info.save_to_database df tbl)
  = taipei_route_info.save_to_database df (stops_of_others rid tbl).
Proof.
  intros Hne. unfold taipei_route_info.save_to_database, merge_all.
  revert tbl. induction df as [|o df IH]; intros tbl H; [reflexivity|].
  inversion H as [|? ? Ho Hdf]; subst. simpl. rewrite IH by assumption.
  f_equal. apply others_merge_other. congruence.
Qed.

(** ** The driver loop *)

Section DriverFacts.
Variable v : script.
Variable browser : Browser.
Variable commit_ok : StopFrame -> bool.
Variable plot_route_map : text -> StopFrame -> result unit.

Local Abbreviation step' := (step v browser commit_ok plot_route_map).
Local Abbreviation run_loop' :=
  (run_loop v browser commit_ok plot_route_map).
Local Abbreviation failure' :=
  (failure v browser commit_ok plot_route_map).
Local Abbreviation verdict' :=
  (verdict v browser commit_ok plot_route_map).
Local Abbreviation persisted' := (persisted v browser commit_ok).
Local Abbreviation scrape' := (scrape v browser).
Local Abbreviation save_persisted' :=
  (save_persisted v browser commit_ok).

Lemma step_routes st rid :
  data_route_list (step' st rid)
  = set_route_status rid (verdict' rid) (data_route_list st).
Proof.
  unfold step, verdict, succeeds, failure.
  destruct (scrape' rid) as [df|e]; [|reflexivity].
  destruct (commit_ok df); [|reflexivity].
  now destruct (after_save v plot_route_map rid df).
Qed.

Lemma step_stops st rid :
  data_route_info_busstop (step' st rid)
  = save_persisted' rid (data_route_info_busstop st).
Proof.
  unfold step, save_persisted, persisted.
  destruct (scrape' rid) as [df|e]; [|reflexivity].
  destruct (commit_ok df); [|reflexivity].
  now destruct (after_save v plot_route_map rid df).
Qed.

Lemma step_events st rid :
  events (step' st rid)
  = events st
    ++ match failure' rid with
       | Some e => [ErrorPrinted rid e]
       | None => []
       end
    ++ status_writes rid (verdict' rid) (data_route_list st).
Proof.
  unfold step, verdict, succeeds, failure.
  destruct (scrape' rid) as [df|e]; [|reflexivity].
  destruct (commit_ok df); [|reflexivity].
  now destruct (after_save v plot_route_map rid df).
Qed.

Lemma run_loop_app l1 l2 st :
  run_loop' (l1 ++ l2) st = run_loop' l2 (run_loop' l1 st).
Proof. unfold run_loop. apply fold_left_app. Qed.

Lemma run_loop_routes l st :
  data_route_list (run_loop' l st)
  = fold_left (fun tb r => set_route_status r (verdict' r) tb) l
              (data_route_list st).
Proof.
  revert st. induction l as [|r l IH]; intros st; [reflexivity|].
  cbn [run_loop fold_left].
  change (fold_left step' l (step' st r)) with (run_loop' l (step' st r)).
  now rewrite IH, step_routes.
Qed.

Lemma run_loop_stops l st :
  data_route_info_busstop (run_loop' l st)
  = fold_left (fun tb r => save_persisted' r tb) l
              (data_route_info_busstop st).
Proof.
  revert st. induction l as [|r l IH]; intros st; [reflexivity|].
  cbn [run_loop fold_left].
  change (fold_left step' l (step' st r)) with (run_loop' l (step' st r)).
  now rewrite IH, step_stops.
Qed.

(** Every row of the frame of a route carries its route_id. *)
Lemma persisted_route rid df :
  persisted' rid = Some df -> Forall (fun o => route_id o = rid) df.
Proof.
  unfold persisted, scrape.
  destruct (new_route_info browser rid (t "go")) as [content|];
    [|discriminate].
  cbn [bind].
  destruct (parse_route_info v (t "go") rid content) as [df'|] eqn:E;
    [|discriminate].
  destruct (commit_ok df'); [|discriminate].
  intros H. injection H as <-. apply Forall_forall. intros r Hr.
  unfold parse_route_info in E. destruct v.
  - unfold V00003.parse_route_info in E.
    destruct (stop_frame (t "go") rid content) as [|r0 df0] eqn:E0;
      [discriminate|].
    injection E as <-. rewrite <- E0 in Hr.
    apply stop_frame_rows in Hr.
    now destruct Hr as (? & ? & ? & ? & ? & ? & _ & -> & _).
  - apply realtime_rows in E.
    destruct (@Forall2_In_r _ _ _ _ _ _ E Hr)
      as (r0 & Hr0 & ? & ? & ? & _ & _ & _ & ->).
    apply stop_frame_rows in Hr0.
    now destruct Hr0 as (? & ? & ? & ? & ? & ? & _ & -> & _).
Qed.

Lemma others_save_persisted rid r tbl :
  stops_of_others rid (save_persisted' r tbl)
  = if text_eqb r rid then stops_of_others rid tbl
    else save_persisted' r (stops_of_others rid tbl).
Proof.
  unfold save_persisted. destruct (persisted' r) as [df|] eqn:E.
  - apply persisted_route in E. destruct (text_eqb r rid) eqn:Er.
    + apply text_eqb_eq in Er. subst r. now apply others_save_same.
    + apply text_eqb_neq in Er. now apply others_save_other with (rid' := r).
  - now destruct (text_eqb r rid).
Qed.

(** The stops of the other routes do not depend on whether [rid] is
    in the list. *)
Lemma others_fold rid l tbl :
  stops_of_others rid (fold_left (fun tb r => save_persisted' r tb) l tbl)
  = fold_left (fun tb r => save_persisted' r tb)
              (filter (fun r => negb (text_eqb r rid)) l)
              (stops_of_others rid tbl).
Proof.
  revert tbl. induction l as [|r l IH]; intros tbl; [reflexivity|].
  cbn [fold_left filter]. rewrite IH, others_save_persisted.
  now destruct (text_eqb r rid).
Qed.

Lemma status_fold_congr k l tb1 tb2 :
  status_of k tb1 = status_of k tb2 ->
  status_of k (fold_left (fun tb r => set_route_status r (verdict' r) tb)
                         l tb1)
  = status_of k (fold_left (fun tb r => set_route_status r (verdict' r) tb)
                           l tb2).
Proof.
  revert tb1 tb2. induction l as [|r l IH]; intros tb1 tb2 H;
    [assumption|].
  cbn [fold_left]. apply IH. rewrite !status_of_set. now rewrite H.
Qed.
End DriverFacts.

(** C4. In the driver loops of 00003.py and of realtime_scraper.py a
    route whose fetch, parse, commit (or, in 00003.py, plot) raises has
    its error printed and its status set to failed, and the loop goes on
    with the routes after it; the statuses and the stored stops of all
    other routes are the same as in a run without that route. *)
Theorem failure_is_isolated (v : script) (browser : Browser)
  (commit_ok : StopFrame -> bool)
  (plot_route_map : text -> StopFrame -> result unit)
  (before after : list text) (rid : text) (st : State) :
  succeeds v browser commit_ok plot_route_map rid = false ->
  let run := run_loop v browser commit_ok plot_route_map in
  let reached := run before st in
  let marked := step v browser commit_ok plot_route_map reached rid in
  (exists e,
     failure v browser commit_ok plot_route_map rid = Some e /\
     events marked
     = events reached ++ [ErrorPrinted rid e]
       ++ status_writes rid failed (data_route_list reached))
  /\ data_route_list marked
     = set_route_status rid failed (data_route_list reached)
  /\ (status_of rid (data_route_list reached) <> None ->
      status_of rid (data_route_list marked) = Some failed)
  /\ run (before ++ rid :: after) st = run after marked
  /\ (forall other, other <> rid ->
      status_of other (data_route_list (run (before ++ rid :: after) st))
      = status_of other (data_route_list (run (before ++ after) st)))
  /\ stops_of_others rid
       (data_route_info_busstop (run (before ++ rid :: after) st))
     = stops_of_others rid
         (data_route_info_busstop (run (before ++ after) st)).
Proof.
  intros Hfail run reached marked.
  assert (Hv : verdict v browser commit_ok plot_route_map rid = failed)
    by (unfold verdict; now rewrite Hfail).
  assert (Hroutes : data_route_list marked
                    = set_route_status rid failed (data_route_list reached))
    by (unfold marked; now rewrite step_routes, Hv).
  split; [|split; [|split; [|split; [|split]]]].
  - unfold succeeds in Hfail.
    destruct (failure v browser commit_ok plot_route_map rid) as [e|] eqn:E;
      [|discriminate].
    exists e. split; [reflexivity|].
    unfold marked. now rewrite step_events, E, Hv.
  - exact Hroutes.
  - intros Hin. rewrite Hroutes, status_of_set, text_eqb_refl.
    destruct (status_of rid (data_route_list reached)); [reflexivity|].
    contradiction.
  - unfold run. rewrite run_loop_app. reflexivity.
  - intros other Hne. unfold run.
    rewrite !run_loop_routes, !fold_left_app. cbn [fold_left].
    apply status_fold_congr. rewrite status_of_set.
    apply text_eqb_neq in Hne. now rewrite Hne.
  - unfold run. rewrite !run_loop_stops, !others_fold, !filter_app.
    cbn [filter]. now rewrite text_eqb_refl.
Qed.

(** ** Status writes of a run *)

Lemma NoDup_map_filter A B (f : A -> B) (p : A -> bool) l :
  NoDup (map f l) -> NoDup (map f (filter p l)).
Proof.
  induction l as [|a l IH]; simpl; intros H; [constructor|].
  inversion H as [|? ? Hn Hd]; subst.
  destruct (p a); simpl; [|now apply IH].
  constructor; [|now apply IH].
  intros Hin. apply Hn. apply in_map_iff in Hin.
  destruct Hin as (x & Hx & Hf). apply filter_In in Hf.
  apply in_map_iff. exists x. tauto.
Qed.

Lemma existsb_text x l : existsb (text_eqb x) l = true <-> In x l.
Proof.
  rewrite existsb_exists. split.
  - intros (y & Hy & E). apply text_eqb_eq in E. now subst.
  - intros H. exists x. split; [assumption | apply text_eqb_refl].
Qed.

Section WritesFacts.
Variable v : script.
Variable browser : Browser.
Variable commit_ok : StopFrame -> bool.
Variable plot_route_map : text -> StopFrame -> result unit.

Local Abbreviation step' := (step v browser commit_ok plot_route_map).
Local Abbreviation run_loop' :=
  (run_loop v browser commit_ok plot_route_map).
Local Abbreviation attempt_events' :=
  (attempt_events v browser commit_ok plot_route_map).
Local Abbreviation verdict' :=
  (verdict v browser commit_ok plot_route_map).

Lemma step_events_pending st rid :
  unique_keys route_mapper (data_route_list st) ->
  status_of rid (data_route_list st) = Some pending ->
  events (step' st rid) = events st ++ attempt_events' rid.
Proof.
  intros Hu Hp. rewrite step_events.
  now rewrite (@status_writes_pending rid _ _ Hu Hp).
Qed.

Lemma run_loop_events l : forall st,
  unique_keys route_mapper (data_route_list st) ->
  NoDup l ->
  (forall r, In r l -> status_of r (data_route_list st) = Some pending) ->
  events (run_loop' l st) = events st ++ flat_map attempt_events' l.
Proof.
  induction l as [|r l IH]; intros st Hu Hn Hp.
  - simpl. now rewrite app_nil_r.
  - inversion Hn as [|? ? Hr Hn']; subst.
    cbn [run_loop fold_left flat_map].
    change (fold_left step' l (step' st r))
      with (run_loop' l (step' st r)).
    rewrite IH.
    + rewrite step_events_pending; [now rewrite app_assoc | assumption |].
      apply Hp. now left.
    + rewrite step_routes. now apply set_route_status_unique.
    + assumption.
    + intros r' Hr'. rewrite step_routes, status_of_set.
      destruct (text_eqb r' r) eqn:E.
      * apply text_eqb_eq in E. subst r'. contradiction.
      * apply Hp. now right.
Qed.

Lemma run_loop_keys l st :
  map RouteORM.route_id (data_route_list (run_loop' l st))
  = map RouteORM.route_id (data_route_list st).
Proof.
  revert st. induction l as [|r l IH]; intros st; [reflexivity|].
  cbn [run_loop fold_left].
  change (fold_left step' l (step' st r))
    with (run_loop' l (step' st r)).
  now rewrite IH, step_routes, set_route_status_keys.
Qed.

Lemma writes_of_attempt rid r :
  writes_of rid (attempt_events' r)
  = if text_eqb r rid then [StatusWrite r pending (verdict' r)] else [].
Proof.
  unfold attempt_events, writes_of. rewrite filter_app.
  destruct (failure v browser commit_ok plot_route_map r); simpl;
    now destruct (text_eqb r rid).
Qed.

Lemma writes_of_attempts rid l :
  NoDup l ->
  List.length (writes_of rid (flat_map attempt_events' l))
  = if existsb (text_eqb rid) l then 1 else 0.
Proof.
  induction l as [|r l IH]; intros Hn; [reflexivity|].
  inversion Hn as [|? ? Hr Hn']; subst.
  cbn [flat_map existsb]. unfold writes_of in *. rewrite filter_app.
  fold (writes_of rid (attempt_events' r)).
  rewrite length_app, writes_of_attempt, IH by assumption.
  rewrite (text_eqb_sym rid r).
  destruct (text_eqb r rid) eqn:E; simpl; [|reflexivity].
  apply text_eqb_eq in E. subst r.
  destruct (existsb (text_eqb rid) l) eqn:El; [|reflexivity].
  apply existsb_text in El. contradiction.
Qed.

Lemma In_attempts e l :
  In e (flat_map attempt_events' l) ->
  exists r, In r l /\ In e (attempt_events' r).
Proof. intros H. now apply in_flat_map in H. Qed.
End WritesFacts.

Lemma pending_ids_spec reads tbl rid :
  unique_keys route_mapper tbl ->
  (In rid (pending_ids reads tbl) <->
   exists s, status_of rid tbl = Some s /\ reads s = true).
Proof.
  intros Hu. unfold pending_ids, taipei_route_list.read_from_database.
  rewrite in_map_iff. split.
  - intros (r & Hid & Hf). apply filter_In in Hf. destruct Hf as [Hin Hs].
    subst rid. exists (RouteORM.route_data_updated r).
    split; [|assumption]. unfold status_of.
    change (RouteORM.route_id r) with (key_of_row route_mapper r).
    now rewrite (get_In route_key_eqb_eq _ Hu Hin).
  - intros (st & Hs & Hr). unfold status_of in Hs.
    destruct (get route_mapper rid tbl) as [r|] eqn:E; [|discriminate].
    apply (get_Some route_mapper route_key_eqb_eq) in E.
    destruct E as [Hin Hk]. simpl in Hk, Hs. injection Hs as Hs.
    exists r. split; [assumption|]. apply filter_In.
    split; [assumption|]. now rewrite Hs.
Qed.

Lemma status_of_in_keys rid tbl s :
  status_of rid tbl = Some s -> In rid (map RouteORM.route_id tbl).
Proof.
  unfold status_of. intros H.
  destruct (get route_mapper rid tbl) as [r|] eqn:E; [|discriminate].
  apply (get_Some route_mapper route_key_eqb_eq) in E.
  destruct E as [Hin Hk]. simpl in Hk. subst rid. now apply in_map.
Qed.

(** When the status column comes back as enum members no route compares
    equal to ['pending'] and the list of realtime_scraper.py is empty. *)
Lemma pending_ids_as_enum tbl : pending_ids reads_as_enum tbl = [].
Proof.
  unfold pending_ids, taipei_route_list.read_from_database, reads_as_enum.
  induction tbl as [|r tbl IH]; [reflexivity | exact IH].
Qed.

Lemma reads_as_text_pending s : reads_as_text s = true -> s = pending.
Proof. now destruct s. Qed.

Lemma status_of_or_pending rid tbl s :
  In rid (map RouteORM.route_id tbl) ->
  (status_of rid tbl = Some s <-> status_or_pending rid tbl = s).
Proof.
  intros Hin. unfold status_of, status_or_pending.
  destruct (get route_mapper rid tbl) as [r|] eqn:E; simpl.
  - split; congruence.
  - apply (get_None route_mapper route_key_eqb_eq) in E. contradiction.
Qed.


(** ** main.py keeps the first name of a route *)

Lemma add_if_absent_keeps o tbl k r :
  get route_mapper k tbl = Some r ->
  get route_mapper k (Main.add_if_absent o tbl) = Some r.
Proof.
  intros H. unfold Main.add_if_absent.
  destruct (get route_mapper (fst o) tbl); [assumption|].
  unfold get in *. apply find_some in H as H'.
  destruct H' as [Hin Hk].
  induction tbl as [|x tbl IH]; [contradiction|]. simpl in *.
  destruct (text_eqb (RouteORM.route_id x) k) eqn:E; [assumption|].
  destruct Hin as [->|Hin]; [congruence|]. now apply IH.
Qed.

Lemma store_routes_keeps_first ms tbl k r :
  get route_mapper k tbl = Some r ->
  get route_mapper k (Main.store_routes ms tbl) = Some r.
Proof.
  unfold Main.store_routes. revert tbl.
  induction ms as [|o ms IH]; intros tbl H; [assumption|].
  simpl. apply IH. now apply add_if_absent_keeps.
Qed.

(** ** The claims at sample inputs *)


(** C8, the claim as stated fails: two records with one route_id are
    read back as one record. *)
Lemma duplicate_ids_counterexample :
  List.length Fixtures.two_names_one_id = 2 /\
  map id_name
    (taipei_route_list.read_from_database
       (taipei_route_list.save_to_database Fixtures.two_names_one_id []))
  = [(Fixtures.bus2, t "0 West")].
Proof. split; reflexivity. Qed.

Lemma route_round_trip_witness :
  unique_keys route_mapper [] /\
  NoDup (map fst [(Fixtures.bus1, t "Chengde"); (Fixtures.bus2, t "0 East")])
  /\
  Permutation
    (map id_name
       (taipei_route_list.read_from_database
          (taipei_route_list.save_to_database
             [(Fixtures.bus1, t "Chengde"); (Fixtures.bus2, t "0 East")] [])))
    [(Fixtures.bus1, t "Chengde"); (Fixtures.bus2, t "0 East")].
Proof.
  assert (Hu : unique_keys route_mapper []) by constructor.
  assert (Hn : NoDup (map fst [(Fixtures.bus1, t "Chengde");
                               (Fixtures.bus2, t "0 East")])).
  { constructor.
    - intros [H|[]]. vm_compute in H. discriminate.
    - constructor; [intros []|constructor]. }
  split; [exact Hu|]. split; [exact Hn|].
  exact (proj2 (@route_round_trip [] _ Hu Hn
                  (fun r (H : In r []) => match H with end))).
Defined.

(** C2, the claim as stated fails: on a page without a stop entry the
    [parse_route_info] of interactive_bus_info.py returns an empty
    frame and raises nothing. *)
Lemma no_match_counterexample :
  findall stop_pattern Fixtures.no_stops_page = [] /\
  Interactive.parse_route_info (t "go") Fixtures.bus1 Fixtures.no_stops_page
  = (Ok [], [NoStopData Fixtures.bus1 (t "go")]).
Proof. split; vm_compute; reflexivity. Qed.

Lemma no_match_outcomes_witness :
  findall stop_pattern Fixtures.no_stops_page = [] /\
  Realtime.parse_route_info (t "go") Fixtures.bus1 Fixtures.no_stops_page
  = Raise (no_data Fixtures.bus1).
Proof.
  assert (H : findall stop_pattern Fixtures.no_stops_page = [])
    by (vm_compute; reflexivity).
  split; [exact H|].
  exact (proj1 (proj2 (proj1 (proj2 (no_match_outcomes
           (t "go") Fixtures.bus1 Fixtures.no_stops_page)) H))).
Defined.

(** C5, the claim as stated fails: in 00003.py and realtime_scraper.py
    a click that times out aborts the fetch. *)
Lemma click_timeout_counterexample :
  goto Fixtures.click_times_out (stops_url Fixtures.bus1)
  = Ok Fixtures.no_stops_page /\
  new_route_info Fixtures.click_times_out Fixtures.bus1 (t "come")
  = Raise (TimeoutError "Timeout 30000ms exceeded.").
Proof. split; reflexivity. Qed.

Lemma click_failure_policy_witness :
  goto Fixtures.click_times_out (stops_url Fixtures.bus1)
  = Ok Fixtures.no_stops_page /\
  click Fixtures.click_times_out come_button Fixtures.no_stops_page
  = Raise (TimeoutError "Timeout 30000ms exceeded.") /\
  InteractiveFetch.fetch_route_info Fixtures.click_times_out Fixtures.bus1
    (t "come")
  = (Ok Fixtures.no_stops_page,
     [Fetching Fixtures.bus1 (t "come");
      ClickFailed (TimeoutError "Timeout 30000ms exceeded.")]).
Proof.
  split; [reflexivity|]. split; [reflexivity|].
  exact (proj1 (click_failure_policy Fixtures.click_times_out Fixtures.bus1
                  (page := Fixtures.no_stops_page) eq_refl eq_refl)).
Defined.





Lemma find_routes_sound_witness :
  In Fixtures.found_307
     (BusRouteFinder.find_routes Fixtures.finder_frame (t "A") (t "C")) /\
  exists mid,
    BusRouteFinder.stops Fixtures.found_307 = t "A" :: mid ++ [t "C"].
Proof.
  assert (H : In Fixtures.found_307
                (BusRouteFinder.find_routes Fixtures.finder_frame
                   (t "A") (t "C")))
    by (vm_compute; left; reflexivity).
  split; [exact H|].
  destruct (proj1 (find_routes_sound Fixtures.finder_frame (t "A") (t "C"))
              Fixtures.found_307 H)
    as (group & _ & _ & _ & _ & _ & _ & _ & Hm).
  exact Hm.
Defined.

Lemma failure_is_isolated_witness :
  succeeds realtime_scraper Fixtures.web Fixtures.always_commits
    Fixtures.plots Fixtures.bus2 = false /\
  stops_of_others Fixtures.bus2
    (data_route_info_busstop
       (run_loop realtime_scraper Fixtures.web Fixtures.always_commits
          Fixtures.plots ([Fixtures.bus1] ++ Fixtures.bus2 :: [])
          Fixtures.two_pending))
  = stops_of_others Fixtures.bus2
      (data_route_info_busstop
         (run_loop realtime_scraper Fixtures.web Fixtures.always_commits
            Fixtures.plots ([Fixtures.bus1] ++ []) Fixtures.two_pending)).
Proof.
  assert (H : succeeds realtime_scraper Fixtures.web Fixtures.always_commits
                Fixtures.plots Fixtures.bus2 = false)
    by (vm_compute; reflexivity).
  split; [exact H|].
  exact (proj2 (proj2 (proj2 (proj2 (proj2
           (@failure_is_isolated realtime_scraper Fixtures.web
              Fixtures.always_commits Fixtures.plots
              [Fixtures.bus1] [] Fixtures.bus2 Fixtures.two_pending H)))))).
Defined.


(** * Further properties of the code *)

(** ** What the route-list pattern can capture *)

Section LazyFacts.
Variable k : text -> option (list text * text).
Variable cls : ascii -> bool.

(** A lazy repetition takes no more than it must: before the place
    where it stopped, the rest of the pattern matched nowhere. *)
Lemma rep_lazy_first s m caps rest :
  rep_lazy k cls s = Some (m, caps, rest) ->
  exists s', s = m ++ s' /\ k s' = Some (caps, rest) /\
             forall a b, m = a ++ b -> b <> [] -> k (b ++ s') = None.
Proof.
  revert m. induction s as [|c s IH]; intros m; simpl.
  - destruct (rest_here k []) as [r|] eqn:E; [|discriminate].
    intros H. injection H as ->. apply rest_here_Some in E.
    destruct E as [-> E]. exists []. repeat split; [assumption|].
    intros a b Hab Hb. destruct a; destruct b; try discriminate.
    contradiction.
  - destruct (rest_here k (c :: s)) as [r|] eqn:E.
    + intros H. injection H as ->. apply rest_here_Some in E.
      destruct E as [-> E]. exists (c :: s). repeat split; [assumption|].
      intros a b Hab Hb. destruct a; destruct b; try discriminate.
      contradiction.
    + destruct (cls c) eqn:Ec; [|discriminate].
      intros H. apply take_Some in H. destruct H as (m' & -> & H).
      apply IH in H. destruct H as (s' & -> & Hk & Hmin).
      exists s'. repeat split; [assumption|].
      intros a b Hab Hb. destruct a as [|c' a].
      * simpl in Hab. subst b. simpl. unfold rest_here in E.
        destruct (k (c :: m' ++ s')) as [[? ?]|]; [discriminate|].
        reflexivity.
      * simpl in Hab. injection Hab as _ Hab. now apply (Hmin a b).
Qed.
End LazyFacts.

(** A lazy [.*?] before a literal finds the literal when it occurs. *)
Lemma lazy_capture_finds cls l x rest :
  forallb cls x = true ->
  match_items [Rep true false 0 cls; Lit l] (x ++ l ++ rest) <> None.
Proof.
  intros Hx.
  change (match_items [Rep true false 0 cls; Lit l] (x ++ l ++ rest))
    with (match rep_lazy (match_items [Lit l]) cls (x ++ l ++ rest) with
          | Some (m, caps, rest) => Some (m :: caps, rest)
          | None => None
          end).
  assert (H : rep_lazy (match_items [Lit l]) cls (x ++ l ++ rest) <> None).
  { induction x as [|c x IH].
    - change ([] ++ l ++ rest) with (l ++ rest).
      assert (Hh : rest_here (match_items [Lit l]) (l ++ rest)
                   = Some ([], [], rest))
        by (unfold rest_here; now rewrite match_items_Lit).
      destruct (l ++ rest) as [|d s]; cbn [rep_lazy]; rewrite Hh;
        discriminate.
    - simpl in Hx. apply andb_true_iff in Hx. destruct Hx as [Hc Hx].
      change ((c :: x) ++ l ++ rest) with (c :: (x ++ l ++ rest)). simpl.
      destruct (rest_here _ (c :: x ++ l ++ rest)); [discriminate|].
      rewrite Hc. specialize (IH Hx).
      destruct (rep_lazy _ cls (x ++ l ++ rest)) as [[[? ?] ?]|];
        [discriminate | contradiction]. }
  destruct (rep_lazy _ cls (x ++ l ++ rest)) as [[[? ?] ?]|];
    [discriminate | contradiction].
Qed.

Lemma free_of_intro delim x :
  (forall a b, x = a ++ b -> b <> [] ->
               strip_prefix delim (b ++ delim) = None) ->
  free_of delim x = true.
Proof.
  induction x as [|c x IH]; intros H; [reflexivity|].
  simpl. apply andb_true_iff. split.
  - unfold is_prefix.
    change (c :: x ++ delim) with ((c :: x) ++ delim).
    now rewrite (H [] (c :: x) eq_refl ltac:(discriminate)).
  - apply IH. intros a b -> Hb. now apply (H (c :: a) b).
Qed.

Lemma strip_prefix_app_Some l s z x :
  strip_prefix l s = Some z -> strip_prefix l (s ++ x) = Some (z ++ x).
Proof.
  intros H. apply strip_prefix_Some in H. subst s.
  rewrite <- app_assoc. apply strip_prefix_app.
Qed.

Lemma route_match_shape s caps rest :
  match_items route_pattern s = Some (caps, rest) ->
  exists rid name,
    caps = [rid; name] /\
    s = route_open ++ rid ++ route_mid ++ name ++ route_close ++ rest /\
    free_of route_mid rid = true /\ free_of route_close name = true.
Proof.
  rewrite route_pattern_eq.
  change (match_items
            [Lit route_open; Rep true false 0 any_char; Lit route_mid;
             Rep true false 0 any_char; Lit route_close] s)
    with (match strip_prefix route_open s with
          | Some s1 =>
              match rep_lazy
                      (match_items
                         [Lit route_mid; Rep true false 0 any_char;
                          Lit route_close]) any_char s1 with
              | Some (m, caps, rest) => Some (m :: caps, rest)
              | None => None
              end
          | None => None
          end).
  destruct (strip_prefix route_open s) as [s1|] eqn:E1; [|discriminate].
  apply strip_prefix_Some in E1. subst s.
  destruct (rep_lazy _ any_char s1) as [[[rid caps1] rest1]|] eqn:E2;
    [|discriminate].
  intros H. injection H as <- <-.
  apply rep_lazy_first in E2. destruct E2 as (s2 & -> & Hk1 & Hmin1).
  change (match_items
            [Lit route_mid; Rep true false 0 any_char; Lit route_close] s2)
    with (match strip_prefix route_mid s2 with
          | Some s3 =>
              match rep_lazy (match_items [Lit route_close]) any_char s3 with
              | Some (m, caps, rest) => Some (m :: caps, rest)
              | None => None
              end
          | None => None
          end) in Hk1.
  destruct (strip_prefix route_mid s2) as [s3|] eqn:E3; [|discriminate].
  apply strip_prefix_Some in E3. subst s2.
  destruct (rep_lazy _ any_char s3) as [[[name caps2] rest2]|] eqn:E4;
    [|discriminate].
  injection Hk1 as <- <-.
  apply rep_lazy_first in E4. destruct E4 as (s4 & -> & Hk2 & Hmin2).
  change (match_items [Lit route_close] s4)
    with (match strip_prefix route_close s4 with
          | Some s' => Some (@nil text, s')
          | None => None
          end) in Hk2.
  destruct (strip_prefix route_close s4) as [s5|] eqn:E5; [|discriminate].
  injection Hk2 as <- <-.
  apply strip_prefix_Some in E5. subst s4.
  exists rid, name. split; [reflexivity|]. split; [reflexivity|]. split.
  - apply free_of_intro. intros a b Hab Hb.
    destruct (strip_prefix route_mid (b ++ route_mid)) as [z|] eqn:Ez;
      [|reflexivity].
    exfalso. specialize (Hmin1 a b Hab Hb).
    apply (strip_prefix_app_Some _ _ (name ++ route_close ++ s5)) in Ez.
    rewrite <- app_assoc in Ez.
    change (match_items
              [Lit route_mid; Rep true false 0 any_char; Lit route_close]
              (b ++ route_mid ++ name ++ route_close ++ s5))
      with (match strip_prefix route_mid
                    (b ++ route_mid ++ name ++ route_close ++ s5) with
            | Some s' =>
                match_items [Rep true false 0 any_char; Lit route_close] s'
            | None => None
            end) in Hmin1.
    rewrite Ez in Hmin1. revert Hmin1. rewrite app_assoc.
    apply lazy_capture_finds. apply forallb_any_char.
  - apply free_of_intro. intros a b Hab Hb.
    destruct (strip_prefix route_close (b ++ route_close)) as [z|] eqn:Ez;
      [|reflexivity].
    exfalso. specialize (Hmin2 a b Hab Hb).
    apply (strip_prefix_app_Some _ _ s5) in Ez.
    rewrite <- app_assoc in Ez.
    change (match_items [Lit route_close] (b ++ route_close ++ s5))
      with (match strip_prefix route_close (b ++ route_close ++ s5) with
            | Some s' => Some (@nil text, s')
            | None => None
            end) in Hmin2.
    rewrite Ez in Hmin2. discriminate.
Qed.

(** Every tuple [findall] returns is the captures of a match at some
    place of the text. *)
Lemma findall_from_at p fuel s caps :
  In caps (findall_from fuel p s) ->
  exists pre s' rest,
    s = pre ++ s' /\ match_items p s' = Some (caps, rest).
Proof.
  revert s. induction fuel as [|f IH]; intros s; [contradiction|].
  rewrite findall_from_S. cbv zeta.
  assert (Hnext :
            In caps (match s with
                     | [] => []
                     | _ :: s' => findall_from f p s'
                     end) ->
            exists pre s' rest,
              s = pre ++ s' /\ match_items p s' = Some (caps, rest)).
  { destruct s as [|c s0]; [contradiction|]. intros H.
    apply IH in H. destruct H as (pre & s' & rest & -> & Hm).
    now exists (c :: pre), s', rest. }
  destruct (match_items p s) as [[caps' rest]|] eqn:E; [|exact Hnext].
  intros [<-|H]; [now exists [], s, rest|].
  destruct (List.length rest <? List.length s); [|now apply Hnext].
  apply IH in H. destruct H as (pre & s' & rest' & -> & Hm).
  apply match_items_suffix in E. destruct E as (used & ->).
  exists (used ++ pre), s', rest'. now rewrite app_assoc.
Qed.


(** ** When the parse of realtime_scraper.py succeeds *)

Lemma span_all cls s : forallb cls s = true -> span cls s = (s, []).
Proof.
  induction s as [|c s IH]; simpl; intros H; [reflexivity|].
  apply andb_true_iff in H. destruct H as [Hc Hs].
  now rewrite Hc, (IH Hs).
Qed.

Lemma span_stop cls s a c r :
  span cls s = (a, c :: r) -> cls c = false.
Proof.
  revert a. induction s as [|d s IH]; simpl; intros a H; [discriminate|].
  destruct (cls d) eqn:E.
  - destruct (span cls s) as [a' b'] eqn:E'. injection H as <- ->.
    now apply (IH a').
  - injection H as <- <- <-. exact E.
Qed.

Lemma digit_not_dot c : is_digit c = true -> is_dot c = false.
Proof.
  unfold is_digit, is_dot. intros H. apply Ascii.eqb_neq. intros ->.
  vm_compute in H. discriminate.
Qed.

Lemma digits_no_dot s :
  forallb is_digit s = true -> filter is_dot s = [].
Proof.
  induction s as [|c s IH]; simpl; intros H; [reflexivity|].
  apply andb_true_iff in H. destruct H as [Hc Hs].
  now rewrite (digit_not_dot c Hc), IH.
Qed.

Lemma digits_exist s :
  forallb is_digit s = true -> existsb is_digit s = negb (is_nil s).
Proof.
  destruct s as [|c s]; simpl; intros H; [reflexivity|].
  apply andb_true_iff in H. destruct H as [Hc _]. now rewrite Hc.
Qed.

Lemma digits_are_digit_or_dot s :
  forallb is_digit s = true -> forallb digit_or_dot s = true.
Proof.
  induction s as [|c s IH]; simpl; intros H; [reflexivity|].
  apply andb_true_iff in H. destruct H as [Hc Hs].
  unfold digit_or_dot at 1. now rewrite Hc, IH.
Qed.

(** [float] takes a text of digits and dots exactly when it has at most
    one dot and at least one digit. *)
Lemma py_float_plain s :
  forallb digit_or_dot s = true ->
  (py_float s <> None <-> plain_decimal s = true).
Proof.
  intros Hs. unfold py_float. rewrite (@strip_unsigned s Hs).
  assert (Hr : read_sign s = (false, s)).
  { destruct s as [|c s']; [reflexivity|]. simpl in Hs.
    apply andb_true_iff in Hs. destruct Hs as [Hc _].
    apply digit_or_dot_not_sign in Hc. destruct Hc as [H1 H2].
    unfold read_sign. now rewrite H1, H2. }
  rewrite Hr. unfold plain_decimal.
  destruct (span is_digit s) as [ip r1] eqn:E1.
  pose proof (span_spec _ _ E1) as [Hip Hsplit]. subst s.
  rewrite forallb_app in Hs. apply andb_true_iff in Hs.
  destruct Hs as [_ Hr1].
  rewrite filter_app, existsb_app, length_app, (digits_no_dot ip Hip),
    (digits_exist ip Hip).
  cbn [List.length Nat.add].
  destruct r1 as [|c r'].
  - cbn [filter List.length existsb]. rewrite app_nil_r, orb_false_r.
    destruct ip as [|d ip']; simpl; split; intros H;
      try reflexivity; try discriminate; now exfalso; apply H.
  - pose proof (span_stop _ _ E1) as Hc.
    simpl in Hr1. apply andb_true_iff in Hr1. destruct Hr1 as [Hcd Hr'].
    unfold digit_or_dot in Hcd. rewrite Hc in Hcd. simpl in Hcd.
    apply Ascii.eqb_eq in Hcd. subst c.
    change (Ascii.eqb "." ".")%char with true. cbv iota.
    change (filter is_dot ("."%char :: r'))
      with ("."%char :: filter is_dot r').
    change (existsb is_digit ("."%char :: r')) with (existsb is_digit r').
    destruct (span is_digit r') as [fp r2] eqn:E2.
    pose proof (span_spec _ _ E2) as [Hfp Hsplit']. subst r'.
    rewrite filter_app, existsb_app, (digits_no_dot fp Hfp),
      (digits_exist fp Hfp).
    cbn [List.length app].
    destruct r2 as [|c2 r3].
    + cbn [filter List.length existsb read_exponent].
      rewrite orb_false_r.
      destruct (is_nil ip); destruct (is_nil fp); simpl; split; intros H;
        try reflexivity; try discriminate; now exfalso; apply H.
    + pose proof (span_stop _ _ E2) as Hc2.
      rewrite forallb_app in Hr'. apply andb_true_iff in Hr'.
      destruct Hr' as [_ Hr2]. simpl in Hr2.
      apply andb_true_iff in Hr2. destruct Hr2 as [Hcd2 _].
      unfold digit_or_dot in Hcd2. rewrite Hc2 in Hcd2. simpl in Hcd2.
      apply Ascii.eqb_eq in Hcd2. subst c2.
      change (read_exponent ("."%char :: r3)) with (@None Z).
      change (filter is_dot ("."%char :: r3))
        with ("."%char :: filter is_dot r3).
      cbn [List.length].
      split.
      * intros H. exfalso. apply H.
        now destruct (is_nil ip && is_nil fp).
      * intros H. apply andb_true_iff in H. destruct H as [H _].
        apply Nat.leb_le in H. lia.
Qed.

Lemma digit_not_space c : is_digit c = true -> is_space c = false.
Proof.
  intros H. apply digit_or_dot_not_space. unfold digit_or_dot.
  now rewrite H.
Qed.

(** [int] of a non-empty text of digits is the number it writes. *)
Lemma py_int_digits s :
  forallb is_digit s = true -> s <> [] -> py_int s = Some (digits_value s).
Proof.
  intros Hs Hne. unfold py_int.
  rewrite (@strip_unsigned s (@digits_are_digit_or_dot s Hs)).
  assert (Hr : read_sign s = (false, s)).
  { destruct s as [|c s']; [contradiction|]. simpl in Hs.
    apply andb_true_iff in Hs. destruct Hs as [Hc _].
    assert (Hd : digit_or_dot c = true)
      by (unfold digit_or_dot; now rewrite Hc).
    apply digit_or_dot_not_sign in Hd. destruct Hd as [H1 H2].
    unfold read_sign. now rewrite H1, H2. }
  rewrite Hr, (@span_all is_digit s Hs).
  destruct s; [contradiction | reflexivity].
Qed.

Lemma astype_int_digits s c :
  forallb is_digit s = true -> s <> [] ->
  (astype_int (Str s) = Ok c <->
   (digits_value s <= int64_max)%Z /\ c = Int (digits_value s)).
Proof.
  intros Hs Hne. cbn [astype_int]. rewrite (@py_int_digits s Hs Hne).
  pose proof (@digits_value_nonneg s Hs) as H0.
  assert (Hlow : (- int64_max - 1 <=? digits_value s)%Z = true)
    by (apply Z.leb_le; unfold int64_max; lia).
  rewrite Hlow. cbn [andb].
  destruct (Z.leb_spec (digits_value s) int64_max) as [Hle|Hgt].
  - split; [intros H; injection H as <-; now split|].
    intros [_ ->]. reflexivity.
  - split; [discriminate|]. intros [H _]. lia.
Qed.

Lemma mapM_total A B (f : A -> result B) l :
  (forall a, In a l -> exists b, f a = Ok b) -> exists l', mapM f l = Ok l'.
Proof.
  induction l as [|a l IH]; intros H; [now exists []|].
  destruct (H a (or_introl eq_refl)) as (b & Hb).
  destruct IH as (bs & Hbs); [intros x Hx; apply H; now right|].
  exists (b :: bs). simpl. now rewrite Hb, Hbs.
Qed.

Lemma astype_total conv get set df :
  (forall r, In r df -> exists c, conv (get r) = Ok c) ->
  exists df', astype conv get set df = Ok df'.
Proof.
  intros H. unfold astype.
  destruct (@mapM_total _ _ (fun r => conv (get r)) df H) as (col & Hcol).
  rewrite Hcol. simpl. eauto.
Qed.

Lemma stop_size (A : Type) (l : list A) : 1 <= List.length l -> l <> [].
Proof. destruct l; simpl; [lia | discriminate]. Qed.




(** ** main.py: the route table is only ever extended *)

Lemma existing_route_None k tbl :
  MainPy.existing_route k tbl = None <->
  ~ In k (map MainPy.list_route_id tbl).
Proof.
  unfold MainPy.existing_route.
  induction tbl as [|r tbl IH]; cbn [find map In]; [tauto|].
  destruct (text_eqb (MainPy.list_route_id r) k) eqn:E.
  - apply text_eqb_eq in E. split; [discriminate | tauto].
  - apply text_eqb_neq in E. rewrite IH. tauto.
Qed.

Lemma existing_route_app k t1 t2 :
  MainPy.existing_route k (t1 ++ t2)
  = match MainPy.existing_route k t1 with
    | Some r => Some r
    | None => MainPy.existing_route k t2
    end.
Proof.
  unfold MainPy.existing_route.
  induction t1 as [|x t1 IH]; [reflexivity|].
  cbn [app find]. now destruct (text_eqb (MainPy.list_route_id x) k).
Qed.

Lemma add_route_existing tbl o k :
  MainPy.existing_route k (MainPy.add_route tbl o)
  = match MainPy.existing_route k tbl with
    | Some r => Some r
    | None =>
        if text_eqb (fst o) k
        then Some (MainPy.mkRoute k (strip (snd o)))
        else None
    end.
Proof.
  unfold MainPy.add_route.
  destruct (MainPy.existing_route (fst o) tbl) as [r0|] eqn:E0.
  - destruct (MainPy.existing_route k tbl) eqn:Ek; [reflexivity|].
    destruct (text_eqb (fst o) k) eqn:E; [|reflexivity].
    apply text_eqb_eq in E. congruence.
  - rewrite existing_route_app.
    destruct (MainPy.existing_route k tbl) eqn:Ek; [reflexivity|].
    unfold MainPy.existing_route. cbn [find MainPy.list_route_id].
    destruct (text_eqb (fst o) k) eqn:E; [|reflexivity].
    apply text_eqb_eq in E. now subst k.
Qed.

Lemma add_routes_existing ms tbl k :
  MainPy.existing_route k (fold_left MainPy.add_route ms tbl)
  = match MainPy.existing_route k tbl with
    | Some r => Some r
    | None =>
        option_map (fun o => MainPy.mkRoute k (strip (snd o)))
                   (find (fun o => text_eqb (fst o) k) ms)
    end.
Proof.
  revert tbl. induction ms as [|o ms IH]; intros tbl.
  - cbn [fold_left find option_map].
    now destruct (MainPy.existing_route k tbl).
  - cbn [fold_left find]. rewrite IH, add_route_existing.
    destruct (MainPy.existing_route k tbl); [reflexivity|].
    now destruct (text_eqb (fst o) k).
Qed.

Lemma add_route_unique tbl o :
  NoDup (map MainPy.list_route_id tbl) ->
  NoDup (map MainPy.list_route_id (MainPy.add_route tbl o)).
Proof.
  intros Hu. unfold MainPy.add_route.
  destruct (MainPy.existing_route (fst o) tbl) eqn:E; [assumption|].
  apply existing_route_None in E. rewrite map_app.
  apply (Permutation_NoDup (Permutation_cons_append _ _)).
  now constructor.
Qed.

Lemma add_routes_unique ms tbl :
  NoDup (map MainPy.list_route_id tbl) ->
  NoDup (map MainPy.list_route_id (fold_left MainPy.add_route ms tbl)).
Proof.
  revert tbl. induction ms as [|o ms IH]; intros tbl Hu; [assumption|].
  cbn [fold_left]. apply IH. now apply add_route_unique.
Qed.

Lemma add_routes_added ms tbl :
  exists added,
    fold_left MainPy.add_route ms tbl = tbl ++ added /\
    forall r, In r added ->
      exists o, In o ms /\ r = MainPy.mkRoute (fst o) (strip (snd o)).
Proof.
  revert tbl. induction ms as [|o ms IH]; intros tbl.
  - exists []. split; [now rewrite app_nil_r | intros r []].
  - cbn [fold_left]. destruct (IH (MainPy.add_route tbl o))
      as (added & -> & Hadded).
    unfold MainPy.add_route.
    destruct (MainPy.existing_route (fst o) tbl) as [r0|].
    + exists added. split; [reflexivity|].
      intros r Hr. destruct (Hadded r Hr) as (o' & Ho' & ->).
      exists o'. split; [now right | reflexivity].
    + exists (MainPy.mkRoute (fst o) (strip (snd o)) :: added).
      split; [now rewrite <- app_assoc|].
      intros r [<-|Hr].
      * exists o. split; [now left | reflexivity].
      * destruct (Hadded r Hr) as (o' & Ho' & ->).
        exists o'. split; [now right | reflexivity].
Qed.

Lemma add_routes_present ms tbl :
  (forall o, In o ms -> MainPy.existing_route (fst o) tbl <> None) ->
  fold_left MainPy.add_route ms tbl = tbl.
Proof.
  induction ms as [|o ms IH]; intros H; [reflexivity|].
  cbn [fold_left]. unfold MainPy.add_route at 2.
  destruct (MainPy.existing_route (fst o) tbl) eqn:E.
  - apply IH. intros o' Ho'. apply H. now right.
  - exfalso. apply (H o); [now left | assumption].
Qed.

Lemma main_route_captures content caps :
  In caps (findall MainPy.route_pattern content) ->
  exists rid name,
    caps = [rid; name] /\
    forallb not_newline rid = true /\ forallb not_newline name = true.
Proof.
  intros H. apply findall_In in H.
  cbv [MainPy.route_pattern groups] in H.
  inversion H as [|rid g c1 g1 [_ Hrid] H1]; subst.
  inversion H1 as [|name g' c2 g2 [_ Hname] H2]; subst.
  inversion H2; subst. now exists rid, name.
Qed.



(** ** main.py: the realtime rows of a page *)

Lemma groups_stop_head :
  groups stop_head = [ (0, any_char); (1, is_digit); (0, any_char) ].
Proof. reflexivity. Qed.

Lemma findall_head_captures content caps :
  In caps (findall stop_head content) ->
  exists a n name,
    caps = [a; n; name] /\ n <> [] /\ forallb is_digit n = true.
Proof.
  intros H. apply findall_In in H. rewrite groups_stop_head in H.
  inversion H as [|a g c1 g1 _ H1]; subst.
  inversion H1 as [|n g' c2 g2 [Hn Hd] H2]; subst.
  inversion H2 as [|name g'' c3 g3 _ H3]; subst.
  inversion H3; subst. exists a, n, name.
  split; [reflexivity|]. split; [|exact Hd].
  cbn [fst] in Hn. now apply stop_size.
Qed.

Lemma realtime_convert dir rid ms :
  (forall caps, In caps ms ->
     exists a n name,
       caps = [a; n; name] /\ n <> [] /\ forallb is_digit n = true) ->
  forall df,
    (col <- mapM (fun r => astype_int (MainPy.row_stop_number r))
                 (map (MainPy.realtime_row dir rid) ms) ;;
     Ok (map (fun rc => MainPy.set_row_stop_number (fst rc) (snd rc))
             (combine (map (MainPy.realtime_row dir rid) ms) col))) = Ok df
    <-> Forall2 (head_row dir rid) ms df.
Proof.
  induction ms as [|caps ms IH]; intros Hms df.
  - cbn [map mapM bind combine]. split.
    + intros H. injection H as <-. constructor.
    + intros H. inversion H. reflexivity.
  - destruct (Hms caps (or_introl eq_refl)) as (a & n & name & -> & Hne & Hd).
    assert (IH' := IH (fun c Hc => Hms c (or_intror Hc))). clear IH.
    cbn [map mapM MainPy.realtime_row MainPy.row_stop_number].
    destruct (astype_int (Str n)) as [c|e] eqn:Ec.
    + apply (astype_int_digits _ Hd Hne) in Ec. destruct Ec as [Hb ->].
      cbn [bind].
      destruct (mapM (fun r => astype_int (MainPy.row_stop_number r))
                     (map (MainPy.realtime_row dir rid) ms))
        as [col|e] eqn:Em; cbn [bind combine map fst snd] in *.
      * split.
        -- intros H. injection H as <-. constructor.
           ++ exists a, n, name. repeat split; assumption.
           ++ now apply IH'.
        -- intros H. inversion H as [|? r ? df' Hr Hrest]; subst.
           apply IH' in Hrest. injection Hrest as <-.
           destruct Hr as (a' & n' & name' & E & _ & ->).
           injection E as <- <- <-. reflexivity.
      * split; [discriminate|].
        intros H. inversion H as [|? r ? df' Hr Hrest]; subst.
        apply IH' in Hrest. discriminate.
    + cbn [bind]. split; [discriminate|].
      intros H. inversion H as [|? r ? df' Hr Hrest]; subst.
      destruct Hr as (a' & n' & name' & E & Hb & _).
      injection E as <- <- <-.
      assert (Ho : astype_int (Str n) = Ok (Int (digits_value n)))
        by (apply (astype_int_digits _ Hd Hne); now split).
      congruence.
Qed.

Lemma parse_realtime_Ok dir rid content df :
  MainPy.parse_realtime dir rid content = Ok df <->
  findall stop_head content <> [] /\
  Forall2 (head_row dir rid) (findall stop_head content) df.
Proof.
  unfold MainPy.parse_realtime.
  pose proof (@realtime_convert dir rid (findall stop_head content)
                (@findall_head_captures content) df) as Hc.
  destruct (findall stop_head content) as [|c0 ms0].
  - cbn [map]. split; [discriminate | intros [H _]; now elim H].
  - split.
    + intros H. split; [discriminate|]. apply Hc. exact H.
    + intros [_ H]. apply Hc in H. exact H.
Qed.

Lemma parse_realtime_Raise dir rid content e :
  MainPy.parse_realtime dir rid content = Raise e ->
  (findall stop_head content = [] /\ e = MainPy.no_realtime) \/
  (e = OverflowError "Python int too large to convert" /\
   exists a n name,
     In [a; n; name] (findall stop_head content) /\
     (int64_max < digits_value n)%Z).
Proof.
  unfold MainPy.parse_realtime.
  pose proof (@findall_head_captures content) as Hc.
  destruct (findall stop_head content) as [|c0 ms0].
  - cbn [map]. intros H. injection H as <-. now left.
  - intros H. right.
    change (bind (mapM (fun r => astype_int (MainPy.row_stop_number r))
                       (map (MainPy.realtime_row dir rid) (c0 :: ms0)))
                 (fun col =>
                    Ok (map (fun rc => MainPy.set_row_stop_number
                                         (fst rc) (snd rc))
                            (combine (map (MainPy.realtime_row dir rid)
                                          (c0 :: ms0)) col)))
            = Raise e) in H.
    destruct (mapM (fun r => astype_int (MainPy.row_stop_number r))
                   (map (MainPy.realtime_row dir rid) (c0 :: ms0)))
      as [col|e'] eqn:Ecol; [discriminate|].
    cbn [bind] in H. injection H as ->.
    apply mapM_Raise_inv in Ecol. destruct Ecol as (r & Hr & Hraise).
    apply in_map_iff in Hr. destruct Hr as (caps & <- & Hin).
    destruct (Hc caps Hin) as (a & n & name & -> & Hne & Hd).
    cbn [MainPy.realtime_row MainPy.row_stop_number astype_int] in Hraise.
    rewrite (@py_int_digits n Hd Hne) in Hraise.
    pose proof (@digits_value_nonneg n Hd) as H0.
    assert (Hlow : (- int64_max - 1 <=? digits_value n)%Z = true)
      by (apply Z.leb_le; unfold int64_max; lia).
    rewrite Hlow in Hraise. cbn [andb] in Hraise.
    destruct (Z.leb_spec (digits_value n) int64_max) as [Hle|Hgt];
      [discriminate|].
    injection Hraise as <-. split; [reflexivity|].
    exists a, n, name. now split.
Qed.



(** ** main.py: snapshots are appended *)

Lemma fold_max_ge (i : Z) (ids : list Z) :
  (i <= fold_right Z.max i ids)%Z /\
  forall j, In j ids -> (j <= fold_right Z.max i ids)%Z.
Proof.
  induction ids as [|x ids [IH1 IH2]]; cbn [fold_right].
  - split; [lia | intros j []].
  - split; [lia|]. intros j [<-|Hj]; [lia|].
    specialize (IH2 j Hj). lia.
Qed.

Lemma next_id_above tbl r :
  In r tbl -> (MainPy.id r < MainPy.next_id tbl)%Z.
Proof.
  intros H. apply (in_map MainPy.id) in H. unfold MainPy.next_id.
  destruct (map MainPy.id tbl) as [|i ids]; [contradiction|].
  destruct (fold_max_ge i ids) as [H1 H2].
  destruct H as [<-|H]; [lia|]. specialize (H2 _ H). lia.
Qed.

Lemma as_row_add tbl row :
  map MainPy.as_row (MainPy.add_info tbl row)
  = map MainPy.as_row tbl ++ [row].
Proof.
  unfold MainPy.add_info. rewrite map_app. f_equal.
  now destruct row.
Qed.

Lemma add_info_fresh tbl row :
  NoDup (map MainPy.id tbl) ->
  NoDup (map MainPy.id (MainPy.add_info tbl row)).
Proof.
  intros Hn. unfold MainPy.add_info. rewrite map_app.
  apply (Permutation_NoDup (Permutation_cons_append _ _)).
  constructor; [|assumption]. cbn [MainPy.id]. intros H.
  apply in_map_iff in H. destruct H as (r & E & Hr).
  apply next_id_above in Hr. lia.
Qed.

(** X5. main.py, save_realtime_info: the table only grows.  The rows
    it had keep their place, the rows of the frame follow them in frame
    order, each under a key larger than every key before it; so keys
    stay distinct, and a frame saved twice is stored twice. *)
Theorem save_realtime_info_appends (df : list MainPy.Row)
  (tbl : list MainPy.RealtimeInfo) :
  (exists added,
     MainPy.save_realtime_info df tbl = tbl ++ added /\
     map MainPy.as_row added = df /\
     forall old new, In old tbl -> In new added ->
                     (MainPy.id old < MainPy.id new)%Z) /\
  (NoDup (map MainPy.id tbl) ->
   NoDup (map MainPy.id (MainPy.save_realtime_info df tbl))) /\
  map MainPy.as_row
    (MainPy.save_realtime_info df (MainPy.save_realtime_info df tbl))
  = map MainPy.as_row tbl ++ df ++ df.
Proof.
  assert (Hadd : forall df tbl, exists added,
            MainPy.save_realtime_info df tbl = tbl ++ added /\
            map MainPy.as_row added = df /\
            forall old new, In old tbl -> In new added ->
                            (MainPy.id old < MainPy.id new)%Z).
  { clear. unfold MainPy.save_realtime_info.
    induction df as [|row df IH]; intros tbl.
    - exists []. split; [now rewrite app_nil_r|].
      split; [reflexivity | intros old new _ []].
    - cbn [fold_left].
      destruct (IH (MainPy.add_info tbl row)) as (added & -> & Hrows & Hid).
      unfold MainPy.add_info in *. rewrite <- app_assoc. cbn [app].
      eexists. split; [reflexivity|]. split.
      + cbn [map MainPy.as_row MainPy.info_arrival_info
             MainPy.info_stop_number MainPy.info_stop_name
             MainPy.info_direction MainPy.info_route_id].
        rewrite Hrows. now destruct row.
      + intros old new Hold [<-|Hnew].
        * cbn [MainPy.id]. now apply next_id_above.
        * apply Hid; [|assumption]. apply in_or_app. now left. }
  split; [apply Hadd|]. split.
  - unfold MainPy.save_realtime_info. revert tbl.
    induction df as [|row df IH]; intros tbl Hn; [assumption|].
    cbn [fold_left]. apply IH. now apply add_info_fresh.
  - destruct (Hadd df tbl) as (a1 & -> & H1 & _).
    destruct (Hadd df (tbl ++ a1)) as (a2 & -> & H2 & _).
    rewrite !map_app, H1, H2. now rewrite app_assoc.
Qed.

Lemma save_realtime_info_appends_witness :
  NoDup (map MainPy.id []) /\
  NoDup (map MainPy.id
           (MainPy.save_realtime_info
              [ MainPy.mkRow (t "3 min") (Int 1) (t "A") (t "go")
                             Fixtures.bus1;
                MainPy.mkRow (t "3 min") (Int 1) (t "A") (t "go")
                             Fixtures.bus1 ] [])).
Proof.
  assert (Hn : NoDup (map MainPy.id [])) by constructor.
  split; [exact Hn|].
  exact (proj1 (proj2 (save_realtime_info_appends _ [])) Hn).
Defined.

(** ** main.py: the times shown for two stops *)

Section TimesFacts.
Variables start_stop end_stop : text.

Local Abbreviation relevant r :=
  (MainPy.info_stop_name r = start_stop \/
   MainPy.info_stop_name r = end_stop).

Local Abbreviation note' := (MainPy.note start_stop end_stop).

Lemma last_arrival_snoc rid name l r :
  MainPy.last_arrival rid name (l ++ [r])
  = if text_eqb (MainPy.info_route_id r) rid
       && text_eqb (MainPy.info_stop_name r) name
    then Some (MainPy.info_arrival_info r)
    else MainPy.last_arrival rid name l.
Proof.
  unfold MainPy.last_arrival. rewrite rev_app_distr. cbn [rev app find].
  now destruct (text_eqb (MainPy.info_route_id r) rid
                && text_eqb (MainPy.info_stop_name r) name).
Qed.

Lemma last_arrival_Some rid name l a :
  MainPy.last_arrival rid name l = Some a ->
  exists r, In r l /\ MainPy.info_route_id r = rid /\
            MainPy.info_stop_name r = name.
Proof.
  unfold MainPy.last_arrival.
  destruct (find _ (rev l)) as [r|] eqn:E; [|discriminate].
  intros _. apply find_some in E. destruct E as [Hin Hr].
  apply andb_true_iff in Hr. destruct Hr as [H1 H2].
  apply text_eqb_eq in H1, H2. exists r.
  split; [now apply in_rev | now split].
Qed.

Lemma setdefault_update_keys k f d x :
  In x (map fst (MainPy.setdefault_update k f d)) <->
  x = k \/ In x (map fst d).
Proof.
  induction d as [|[k' v] d IH]; cbn [MainPy.setdefault_update map fst In].
  - intuition.
  - destruct (text_eqb k' k) eqn:E; cbn [map fst In].
    + apply text_eqb_eq in E. subst k'. intuition.
    + rewrite IH. intuition.
Qed.

Lemma setdefault_update_NoDup k f d :
  NoDup (map fst d) -> NoDup (map fst (MainPy.setdefault_update k f d)).
Proof.
  induction d as [|[k' v] d IH]; cbn [MainPy.setdefault_update map fst];
    intros Hn.
  - constructor; [intros [] | constructor].
  - inversion Hn as [|? ? Hk Hd]; subst.
    destruct (text_eqb k' k) eqn:E; cbn [map fst].
    + now constructor.
    + constructor; [|now apply IH].
      rewrite setdefault_update_keys. intros [->|H]; [|contradiction].
      now rewrite text_eqb_refl in E.
Qed.

Lemma setdefault_update_In k f d x v :
  NoDup (map fst d) ->
  In (x, v) (MainPy.setdefault_update k f d) ->
  (x <> k /\ In (x, v) d) \/
  (x = k /\ ((exists v0, In (k, v0) d /\ v = f v0) \/
             (~ In k (map fst d) /\ v = f (None, None)))).
Proof.
  induction d as [|[k' v'] d IH]; cbn [MainPy.setdefault_update map fst];
    intros Hn H.
  - destruct H as [H|[]]. injection H as <- <-. right.
    split; [reflexivity|]. right. split; [intros [] | reflexivity].
  - inversion Hn as [|? ? Hk Hd]; subst.
    destruct (text_eqb k' k) eqn:E.
    + apply text_eqb_eq in E. subst k'. destruct H as [H|H].
      * injection H as <- <-. right. split; [reflexivity|]. left.
        exists v'. split; [now left | reflexivity].
      * left. split; [|now right]. intros ->. apply Hk.
        now apply (in_map fst) in H.
    + apply text_eqb_neq in E. destruct H as [H|H].
      * injection H as <- <-. left. split; [assumption | now left].
      * destruct (IH Hd H) as [[Hx Hin]|[-> [(v0 & Hin & ->)|[Hno ->]]]].
        -- left. split; [assumption | now right].
        -- right. split; [reflexivity|]. left. exists v0.
           split; [now right | reflexivity].
        -- right. split; [reflexivity|]. right.
           split; [|reflexivity]. intros [H1|H1]; [|contradiction].
           now apply E.
Qed.

Local Abbreviation times_inv' := (times_inv start_stop end_stop).

Lemma last_arrival_absent l d k name :
  times_inv' l d -> ~ In k (map fst d) ->
  name = start_stop \/ name = end_stop ->
  MainPy.last_arrival k name l = None.
Proof.
  intros (_ & Hk & _) Hno Hname.
  destruct (MainPy.last_arrival k name l) as [a|] eqn:E; [|reflexivity].
  apply last_arrival_Some in E. destruct E as (r & Hr & Hrid & Hn).
  exfalso. apply Hno. apply Hk. exists r. split; [assumption|].
  split; [assumption|]. rewrite Hn. destruct Hname as [->| ->]; auto.
Qed.

Lemma note_inv l d r :
  times_inv' l d -> times_inv' (l ++ [r]) (note' d r).
Proof.
  intros Hinv. pose proof Hinv as (Hn & Hk & Hv). unfold MainPy.note.
  assert (Hkeys : forall f k,
            In k (map fst (MainPy.setdefault_update
                             (MainPy.info_route_id r) f d)) <->
            k = MainPy.info_route_id r \/
            exists r', In r' l /\ MainPy.info_route_id r' = k /\
                       relevant r').
  { intros f k. rewrite setdefault_update_keys, Hk. reflexivity. }
  destruct (text_eqb (MainPy.info_stop_name r) start_stop) eqn:Es;
    [|destruct (text_eqb (MainPy.info_stop_name r) end_stop) eqn:Ee].
  - apply text_eqb_eq in Es.
    split; [now apply setdefault_update_NoDup|]. split.
    + intros k. rewrite Hkeys. split.
      * intros [->|(r' & Hr' & Hrid & Hrel)].
        -- exists r. split; [apply in_or_app; right; now left|]. auto.
        -- exists r'. split; [apply in_or_app; now left|]. auto.
      * intros (r' & Hr' & Hrid & Hrel). apply in_app_or in Hr'.
        destruct Hr' as [Hr'|[<-|[]]]; [right; now exists r' | now left].
    + intros k v Hin. rewrite !last_arrival_snoc.
      apply setdefault_update_In in Hin; [|exact Hn].
      destruct Hin as [[Hx Hin]|[-> [(v0 & Hin & ->)|[Hno ->]]]].
      * assert (E : text_eqb (MainPy.info_route_id r) k = false)
          by (apply text_eqb_neq; congruence).
        rewrite E. cbn [andb]. now apply Hv.
      * rewrite text_eqb_refl, Es, text_eqb_refl. cbn [andb].
        rewrite (Hv _ _ Hin). cbn [snd].
        now destruct (text_eqb start_stop end_stop).
      * rewrite text_eqb_refl, Es, text_eqb_refl. cbn [andb snd].
        destruct (text_eqb start_stop end_stop); [reflexivity|].
        f_equal. symmetry. eapply last_arrival_absent; eauto.
  - apply text_eqb_eq in Ee. apply text_eqb_neq in Es.
    assert (Hse : text_eqb start_stop end_stop = false).
    { apply text_eqb_neq. congruence. }
    split; [now apply setdefault_update_NoDup|]. split.
    + intros k. rewrite Hkeys. split.
      * intros [->|(r' & Hr' & Hrid & Hrel)].
        -- exists r. split; [apply in_or_app; right; now left|]. auto.
        -- exists r'. split; [apply in_or_app; now left|]. auto.
      * intros (r' & Hr' & Hrid & Hrel). apply in_app_or in Hr'.
        destruct Hr' as [Hr'|[<-|[]]]; [right; now exists r' | now left].
    + intros k v Hin. rewrite !last_arrival_snoc, Hse.
      assert (Es' : text_eqb (MainPy.info_stop_name r) start_stop = false)
        by now apply text_eqb_neq.
      rewrite Es', andb_false_r.
      apply setdefault_update_In in Hin; [|exact Hn].
      destruct Hin as [[Hx Hin]|[-> [(v0 & Hin & ->)|[Hno ->]]]].
      * assert (E : text_eqb (MainPy.info_route_id r) k = false)
          by (apply text_eqb_neq; congruence).
        rewrite E. cbn [andb]. rewrite (Hv _ _ Hin). now rewrite Hse.
      * rewrite text_eqb_refl, Ee, text_eqb_refl. cbn [andb fst].
        f_equal. now rewrite (Hv _ _ Hin).
      * rewrite text_eqb_refl, Ee, text_eqb_refl. cbn [andb fst].
        f_equal. symmetry. eapply last_arrival_absent; eauto.
  - apply text_eqb_neq in Es, Ee. split; [assumption|]. split.
    + intros k. rewrite Hk. split.
      * intros (r' & Hr' & Hrid & Hrel). exists r'.
        split; [apply in_or_app; now left|]. auto.
      * intros (r' & Hr' & Hrid & Hrel). apply in_app_or in Hr'.
        destruct Hr' as [Hr'|[<-|[]]]; [now exists r'|].
        destruct Hrel; contradiction.
    + intros k v Hin. rewrite !last_arrival_snoc.
      assert (Es' : text_eqb (MainPy.info_stop_name r) start_stop = false)
        by now apply text_eqb_neq.
      assert (Ee' : text_eqb (MainPy.info_stop_name r) end_stop = false)
        by now apply text_eqb_neq.
      rewrite Es', Ee', andb_false_r. now apply Hv.
Qed.

Lemma notes_inv l :
  times_inv' l (fold_left note' l []).
Proof.
  induction l as [|r l IH] using rev_ind.
  - split; [constructor|]. split.
    + intros k. split; [intros [] | intros (r & [] & _)].
    + intros k v [].
  - rewrite fold_left_app. cbn [fold_left]. now apply note_inv.
Qed.

Lemma notes_filter l d :
  fold_left note'
    (filter (fun r => text_eqb (MainPy.info_stop_name r) start_stop
                      || text_eqb (MainPy.info_stop_name r) end_stop) l) d
  = fold_left note' l d.
Proof.
  revert d. induction l as [|r l IH]; intros d; [reflexivity|].
  cbn [filter].
  destruct (text_eqb (MainPy.info_stop_name r) start_stop) eqn:Es;
    [|destruct (text_eqb (MainPy.info_stop_name r) end_stop) eqn:Ee];
    cbn [orb fold_left]; try apply IH.
  rewrite IH. f_equal. unfold MainPy.note. now rewrite Es, Ee.
Qed.
End TimesFacts.

(** X6. main.py, find_route_and_time.  When no snapshot is at either
    stop, the only line says so.  Otherwise every route with a snapshot
    at either stop is shown once, whether or not it serves both stops
    and whatever their order or direction; its start time is the
    arrival text of its last snapshot at the start stop, its end time
    that of its last snapshot at the end stop, and a time without a
    snapshot is shown as unknown.  When the two stops are the same
    stop, the end time is always unknown. *)
Theorem find_route_and_time_lines (start_stop end_stop : text)
  (tbl : list MainPy.RealtimeInfo) :
  ((forall r, In r tbl ->
      MainPy.info_stop_name r <> start_stop /\
      MainPy.info_stop_name r <> end_stop) ->
   MainPy.find_route_and_time start_stop end_stop tbl
   = [MainPy.NoRoute start_stop end_stop]) /\
  ((exists r, In r tbl /\
              (MainPy.info_stop_name r = start_stop \/
               MainPy.info_stop_name r = end_stop)) ->
   exists routes,
     NoDup routes /\
     (forall rid,
        In rid routes <->
        exists r, In r tbl /\ MainPy.info_route_id r = rid /\
                  (MainPy.info_stop_name r = start_stop \/
                   MainPy.info_stop_name r = end_stop)) /\
     MainPy.find_route_and_time start_stop end_stop tbl
     = map (fun rid =>
              MainPy.RouteTimes rid
                (MainPy.or_unknown
                   (MainPy.last_arrival rid start_stop tbl))
                (if text_eqb start_stop end_stop then MainPy.unknown
                 else MainPy.or_unknown
                        (MainPy.last_arrival rid end_stop tbl)))
           routes).
Proof.
  unfold MainPy.find_route_and_time.
  set (rel := fun r => text_eqb (MainPy.info_stop_name r) start_stop
                       || text_eqb (MainPy.info_stop_name r) end_stop).
  split.
  - intros H. assert (E : filter rel tbl = []).
    { induction tbl as [|r tbl IH]; [reflexivity|]. cbn [filter].
      destruct (H r (or_introl eq_refl)) as [H1 H2].
      apply text_eqb_neq in H1, H2. unfold rel at 1. rewrite H1, H2.
      cbn [orb]. apply IH. intros r' Hr'. apply H. now right. }
    now rewrite E.
  - intros (r & Hr & Hrel).
    destruct (filter rel tbl) as [|r0 l0] eqn:E.
    { exfalso. assert (Hin : In r (filter rel tbl)).
      { apply filter_In. split; [assumption|]. unfold rel.
        apply orb_true_iff.
        destruct Hrel as [H|H]; [left | right]; now apply text_eqb_eq. }
      rewrite E in Hin. contradiction. }
    rewrite <- E. unfold rel. rewrite notes_filter.
    destruct (notes_inv start_stop end_stop tbl) as (Hn & Hk & Hv).
    exists (map fst (fold_left (MainPy.note start_stop end_stop) tbl [])).
    split; [exact Hn|]. split; [exact Hk|].
    rewrite map_map. apply map_ext_in. intros [k v] Hin.
    rewrite (Hv k v Hin). cbn [fst snd].
    now destruct (text_eqb start_stop end_stop).
Qed.

Lemma find_route_and_time_lines_witness :
  (exists r, In r Samples.snapshots /\
             (MainPy.info_stop_name r = t "A" \/
              MainPy.info_stop_name r = t "B")) /\
  exists routes,
    NoDup routes /\
    MainPy.find_route_and_time (t "A") (t "B") Samples.snapshots
    = map (fun rid =>
             MainPy.RouteTimes rid
               (MainPy.or_unknown
                  (MainPy.last_arrival rid (t "A") Samples.snapshots))
               (if text_eqb (t "A") (t "B") then MainPy.unknown
                else MainPy.or_unknown
                       (MainPy.last_arrival rid (t "B") Samples.snapshots)))
          routes.
Proof.
  assert (H : exists r, In r Samples.snapshots /\
                        (MainPy.info_stop_name r = t "A" \/
                         MainPy.info_stop_name r = t "B")).
  { eexists. split; [left; reflexivity | left; reflexivity]. }
  split; [exact H|].
  destruct (proj2 (find_route_and_time_lines (t "A") (t "B")
                     Samples.snapshots) H) as (routes & Hn & _ & E).
  exists routes. split; [exact Hn | exact E].
Defined.

(** ** 00003.py: plotting the frame of captured texts *)

Lemma filter_none A (f : A -> bool) l :
  (forall x, In x l -> f x = false) -> filter f l = [].
Proof.
  induction l as [|x l IH]; intros H; [reflexivity|]. cbn [filter].
  rewrite (H x (or_introl eq_refl)). apply IH.
  intros y Hy. apply H. now right.
Qed.



(** ** interactive_bus_info.py: the route of a name *)

Lemma get_route_id_by_name_None name tbl :
  InteractiveQuery.get_route_id_by_name name tbl = None <->
  ~ In name (map InteractiveQuery.route_name tbl).
Proof.
  unfold InteractiveQuery.get_route_id_by_name.
  induction tbl as [|r tbl IH]; cbn [find map In]; [tauto|].
  destruct (text_eqb (InteractiveQuery.route_name r) name) eqn:E.
  - apply text_eqb_eq in E. split; [discriminate | tauto].
  - apply text_eqb_neq in E. rewrite IH. tauto.
Qed.

Lemma get_route_id_by_name_first name pre r post :
  InteractiveQuery.route_name r = name ->
  ~ In name (map InteractiveQuery.route_name pre) ->
  InteractiveQuery.get_route_id_by_name name (pre ++ r :: post)
  = Some (InteractiveQuery.route_id r).
Proof.
  intros Hr. unfold InteractiveQuery.get_route_id_by_name.
  induction pre as [|x pre IH]; cbn [app find map In]; intros Hno.
  - subst name. now rewrite text_eqb_refl.
  - destruct (text_eqb (InteractiveQuery.route_name x) name) eqn:E.
    + apply text_eqb_eq in E. tauto.
    + apply IH. tauto.
Qed.

Lemma get_route_id_by_name_Some name tbl rid :
  InteractiveQuery.get_route_id_by_name name tbl = Some rid ->
  exists pre r post,
    tbl = pre ++ r :: post /\ InteractiveQuery.route_name r = name /\
    InteractiveQuery.route_id r = rid /\ ~ In name (map InteractiveQuery.route_name pre).
Proof.
  unfold InteractiveQuery.get_route_id_by_name.
  induction tbl as [|x tbl IH]; cbn [find]; [discriminate|].
  destruct (text_eqb (InteractiveQuery.route_name x) name) eqn:E.
  - intros H. injection H as <-. apply text_eqb_eq in E.
    exists [], x, tbl. repeat split; try assumption. intros [].
  - intros H. destruct (IH H) as (pre & r & post & -> & Hn & Hid & Hno).
    exists (x :: pre), r, post. repeat split; try assumption.
    apply text_eqb_neq in E. cbn [map In]. tauto.
Qed.



(** ** Writing the status of a route *)

Lemma set_route_status_absent rid s tbl :
  ~ In rid (map RouteORM.route_id tbl) -> set_route_status rid s tbl = tbl.
Proof.
  unfold set_route_status.
  induction tbl as [|r tbl IH]; cbn [map In]; intros H; [reflexivity|].
  destruct (text_eqb (RouteORM.route_id r) rid) eqn:E.
  - apply text_eqb_eq in E. tauto.
  - f_equal. apply IH. tauto.
Qed.

Lemma set_route_status_twice rid s1 s2 tbl :
  set_route_status rid s2 (set_route_status rid s1 tbl)
  = set_route_status rid s2 tbl.
Proof.
  unfold set_route_status. rewrite map_map. apply map_ext. intros r.
  destruct (text_eqb (RouteORM.route_id r) rid) eqn:E;
    cbn [RouteORM.route_id RouteORM.route_name]; now rewrite E.
Qed.

Lemma set_route_status_swap rid1 rid2 s1 s2 tbl :
  rid1 <> rid2 ->
  set_route_status rid1 s1 (set_route_status rid2 s2 tbl)
  = set_route_status rid2 s2 (set_route_status rid1 s1 tbl).
Proof.
  intros Hne. unfold set_route_status. rewrite !map_map.
  apply map_ext. intros r.
  destruct (text_eqb (RouteORM.route_id r) rid1) eqn:E1;
    destruct (text_eqb (RouteORM.route_id r) rid2) eqn:E2;
    cbn [RouteORM.route_id RouteORM.route_name];
    rewrite ?E1, ?E2; try reflexivity.
  apply text_eqb_eq in E1, E2. congruence.
Qed.

Lemma set_route_status_names rid s tbl :
  map id_name (set_route_status rid s tbl) = map id_name tbl.
Proof.
  unfold set_route_status. rewrite map_map. apply map_ext. intros r.
  now destruct (text_eqb (RouteORM.route_id r) rid).
Qed.

(** X9. The status update of realtime_scraper.py (set_route_status)
    and of 00003.py (set_route_data_updated, set_route_data_unexcepted).
    For a route_id the table does not hold it changes nothing and
    rewrites no row: no row is created and nothing is raised.  It never
    changes the ids, the names or the order of the rows.  A second
    update of the same route overwrites the first, and updates of
    different routes commute.  After the update a route has the new
    status when it is the updated one and is stored, and its old status
    otherwise. *)
Theorem set_route_status_update (rid : text) (s : RouteStatus)
  (tbl : list RouteORM.t) :
  (~ In rid (map RouteORM.route_id tbl) ->
   set_route_status rid s tbl = tbl /\ status_writes rid s tbl = []) /\
  map id_name (set_route_status rid s tbl) = map id_name tbl /\
  (forall s0, set_route_status rid s (set_route_status rid s0 tbl)
              = set_route_status rid s tbl) /\
  (forall rid' s',
     rid' <> rid ->
     set_route_status rid' s' (set_route_status rid s tbl)
     = set_route_status rid s (set_route_status rid' s' tbl)) /\
  (forall k,
     status_of k (set_route_status rid s tbl)
     = if text_eqb k rid then option_map (fun _ => s) (status_of k tbl)
       else status_of k tbl).
Proof.
  split.
  { intros H. split; [now apply set_route_status_absent|].
    unfold status_writes.
    now rewrite (rows_with_absent route_mapper route_key_eqb_eq). }
  split; [apply set_route_status_names|].
  split; [intros s0; apply set_route_status_twice|].
  split; [intros rid' s' H; now apply set_route_status_swap|].
  intros k. apply status_of_set.
Qed.

Lemma set_route_status_update_witness :
  ~ In (t "9999")
       (map RouteORM.route_id (data_route_list Fixtures.two_pending)) /\
  set_route_status (t "9999") updated (data_route_list Fixtures.two_pending)
  = data_route_list Fixtures.two_pending.
Proof.
  assert (H : ~ In (t "9999")
                (map RouteORM.route_id
                     (data_route_list Fixtures.two_pending))).
  { intros [H|[H|[]]]; vm_compute in H; discriminate. }
  split; [exact H|].
  exact (proj1 (proj1 (set_route_status_update (t "9999") updated
                         (data_route_list Fixtures.two_pending)) H)).
Defined.

(** ** The tables after a run *)

Lemma stops_of_merge_other rid o tbl :
  route_id o <> rid ->
  stops_of rid (merge stop_mapper o tbl) = stops_of rid tbl.
Proof.
  intros Ho. apply text_eqb_neq in Ho. unfold stops_of.
  induction tbl as [|r tbl IH].
  - cbn [merge filter load stop_mapper]. unfold stop_orm.
    cbn [StopORM.route_id]. now rewrite Ho.
  - rewrite merge_cons.
    destruct (key_eqb stop_mapper _ _) eqn:E.
    + apply stop_key_route in E. cbn [filter load stop_mapper].
      unfold stop_orm. cbn [StopORM.route_id]. now rewrite E, Ho.
    + cbn [filter]. rewrite IH. reflexivity.
Qed.

Lemma stops_of_save_other rid rid' df tbl :
  rid' <> rid ->
  Forall (fun o => route_id o = rid') df ->
  stops_of rid (taipei_route_info.save_to_database df tbl)
  = stops_of rid tbl.
Proof.
  intros Hne. unfold taipei_route_info.save_to_database, merge_all.
  revert tbl. induction df as [|o df IH]; intros tbl H; [reflexivity|].
  inversion H as [|? ? Ho Hdf]; subst. cbn [fold_left].
  rewrite IH by assumption. apply stops_of_merge_other. congruence.
Qed.

Lemma status_fold (f : text -> RouteStatus) k l tbl :
  status_of k (fold_left (fun tb r => set_route_status r (f r) tb) l tbl)
  = if existsb (text_eqb k) l
    then option_map (fun _ => f k) (status_of k tbl)
    else status_of k tbl.
Proof.
  revert tbl. induction l as [|r l IH]; intros tbl; [reflexivity|].
  cbn [fold_left existsb]. rewrite IH, status_of_set.
  destruct (text_eqb k r) eqn:E; cbn [orb].
  - apply text_eqb_eq in E. subst r.
    destruct (existsb (text_eqb k) l); [|reflexivity].
    now destruct (status_of k tbl).
  - reflexivity.
Qed.

Lemma names_fold (f : text -> RouteStatus) l tbl :
  map id_name (fold_left (fun tb r => set_route_status r (f r) tb) l tbl)
  = map id_name tbl.
Proof.
  revert tbl. induction l as [|r l IH]; intros tbl; [reflexivity|].
  cbn [fold_left]. now rewrite IH, set_route_status_names.
Qed.

Section RunFacts.
Variable v : script.
Variable browser : Browser.
Variable commit_ok : StopFrame -> bool.

Local Abbreviation save_persisted' :=
  (save_persisted v browser commit_ok).

Lemma stops_of_save_persisted rid r tbl :
  r <> rid -> stops_of rid (save_persisted' r tbl) = stops_of rid tbl.
Proof.
  intros Hne. unfold save_persisted.
  destruct (persisted v browser commit_ok r) as [df|] eqn:E;
    [|reflexivity].
  apply persisted_route in E. now apply stops_of_save_other with (rid' := r).
Qed.

Lemma stops_of_fold rid l tbl :
  existsb (text_eqb rid) l = false ->
  stops_of rid (fold_left (fun tb r => save_persisted' r tb) l tbl)
  = stops_of rid tbl.
Proof.
  revert tbl. induction l as [|r l IH]; intros tbl H; [reflexivity|].
  cbn [existsb] in H. apply orb_false_iff in H. destruct H as [Hr Hl].
  cbn [fold_left]. rewrite IH by assumption.
  apply stops_of_save_persisted. apply text_eqb_neq in Hr. congruence.
Qed.
End RunFacts.

(** X10. The tables after the driver loop of 00003.py or of
    realtime_scraper.py has gone through a list of routes.  The route
    table has the same ids and names in the same order.  A route of the
    list that the table holds has the status of its attempt: updated
    when its [try] block ran to the end, failed when it raised (a route
    listed twice gets the same status twice).  A route that is not in
    the list keeps its status, and its stored stops are the rows it had
    before the run. *)
Theorem run_final_tables (v : script) (browser : Browser)
  (commit_ok : StopFrame -> bool)
  (plot_route_map : text -> StopFrame -> result unit)
  (l : list text) (st : State) :
  let final := run_loop v browser commit_ok plot_route_map l st in
  map id_name (data_route_list final) = map id_name (data_route_list st) /\
  (forall k,
     status_of k (data_route_list final)
     = if existsb (text_eqb k) l
       then option_map
              (fun _ => verdict v browser commit_ok plot_route_map k)
              (status_of k (data_route_list st))
       else status_of k (data_route_list st)) /\
  (forall k,
     existsb (text_eqb k) l = false ->
     stops_of k (data_route_info_busstop final)
     = stops_of k (data_route_info_busstop st)).
Proof.
  cbv zeta. rewrite run_loop_routes, run_loop_stops. split; [|split].
  - apply names_fold.
  - intros k. apply status_fold.
  - intros k Hk. now apply stops_of_fold.
Qed.

Lemma run_final_tables_witness :
  existsb (text_eqb Fixtures.bus2) [Fixtures.bus1] = false /\
  stops_of Fixtures.bus2
    (data_route_info_busstop
       (run_loop realtime_scraper Fixtures.web Fixtures.always_commits
          Fixtures.plots [Fixtures.bus1] Fixtures.two_pending))
  = stops_of Fixtures.bus2 (data_route_info_busstop Fixtures.two_pending).
Proof.
  assert (H : existsb (text_eqb Fixtures.bus2) [Fixtures.bus1] = false)
    by (vm_compute; reflexivity).
  split; [exact H|].
  exact (proj2 (proj2 (run_final_tables realtime_scraper Fixtures.web
                         Fixtures.always_commits Fixtures.plots
                         [Fixtures.bus1] Fixtures.two_pending))
           Fixtures.bus2 H).
Defined.

(** ** What the status of a route says about its stored stops *)

Lemma status_of_set_same rid s tbl :
  status_of rid tbl <> None ->
  status_of rid (set_route_status rid s tbl) = Some s.
Proof.
  intros H. rewrite status_of_set, text_eqb_refl.
  now destruct (status_of rid tbl).
Qed.

(** X11. One iteration of the driver loop on a route the table holds.
    The route ends as updated or as failed.  When it ends as updated
    its frame was parsed and committed: the stop table is the old one
    with the frame merged in.  When it ends as failed the stop table is
    unchanged, with one exception: in 00003.py a frame is committed
    before the map is plotted, so a route whose plot raises is marked
    failed with its stops stored.  In realtime_scraper.py failed always
    means that nothing was stored. *)
Theorem status_and_storage (v : script) (browser : Browser)
  (commit_ok : StopFrame -> bool)
  (plot_route_map : text -> StopFrame -> result unit)
  (st : State) (rid : text) :
  status_of rid (data_route_list st) <> None ->
  let st' := step v browser commit_ok plot_route_map st rid in
  (status_of rid (data_route_list st') = Some updated /\
   exists df,
     scrape v browser rid = Ok df /\ commit_ok df = true /\
     data_route_info_busstop st'
     = taipei_route_info.save_to_database df (data_route_info_busstop st))
  \/
  (status_of rid (data_route_list st') = Some failed /\
   (data_route_info_busstop st' = data_route_info_busstop st \/
    v = script_00003 /\
    exists df e,
      scrape v browser rid = Ok df /\ plot_route_map rid df = Raise e /\
      data_route_info_busstop st'
      = taipei_route_info.save_to_database df
          (data_route_info_busstop st))).
Proof.
  intros Hs. cbv zeta. unfold step.
  destruct (scrape v browser rid) as [df|e] eqn:Escr.
  - destruct (commit_ok df) eqn:Ec.
    + unfold after_save. destruct v.
      * destruct (plot_route_map rid df) as [u|e] eqn:Ep.
        -- left. cbn [mark saved data_route_list data_route_info_busstop].
           split; [now apply status_of_set_same|].
           exists df. repeat split; assumption.
        -- right.
           cbn [on_error mark saved data_route_list data_route_info_busstop].
           split; [now apply status_of_set_same|].
           right. split; [reflexivity|]. exists df, e. now repeat split.
      * left. cbn [mark saved data_route_list data_route_info_busstop].
        split; [now apply status_of_set_same|].
        exists df. repeat split; assumption.
    + right. cbn [on_error mark data_route_list data_route_info_busstop].
      split; [now apply status_of_set_same | now left].
  - right. cbn [on_error mark data_route_list data_route_info_busstop].
    split; [now apply status_of_set_same | now left].
Qed.

Lemma status_and_storage_witness :
  status_of Fixtures.bus1 (data_route_list Fixtures.two_pending) <> None /\
  status_of Fixtures.bus1
    (data_route_list
       (step realtime_scraper Fixtures.web Fixtures.always_commits
             Fixtures.plots Fixtures.two_pending Fixtures.bus1))
  = Some updated.
Proof.
  assert (H : status_of Fixtures.bus1 (data_route_list Fixtures.two_pending)
              <> None) by (vm_compute; discriminate).
  split; [exact H|].
  destruct (status_and_storage realtime_scraper Fixtures.web
              Fixtures.always_commits Fixtures.plots Fixtures.two_pending
              Fixtures.bus1 H) as [[Hu _]|[Hf _]].
  - exact Hu.
  - vm_compute in Hf. discriminate.
Defined.

(** ** The route table after a whole run *)

Lemma verdict_settled v browser commit_ok plot_route_map rid :
  status_eqb (verdict v browser commit_ok plot_route_map rid) pending
  = false.
Proof. unfold verdict. now destruct (succeeds _ _ _ _ rid). Qed.

Lemma in_pending_ids reads tbl rid :
  (forall s, reads s = status_eqb s pending) ->
  unique_keys route_mapper tbl ->
  In rid (map RouteORM.route_id tbl) ->
  existsb (text_eqb rid) (pending_ids reads tbl)
  = status_eqb (status_or_pending rid tbl) pending.
Proof.
  intros Hreads Hu Hin.
  assert (Hs : status_of rid tbl = Some (status_or_pending rid tbl))
    by now apply status_of_or_pending.
  destruct (existsb (text_eqb rid) (pending_ids reads tbl)) eqn:E.
  - apply existsb_text in E. apply (pending_ids_spec _ _ Hu) in E.
    destruct E as (s & Hs' & Hr). rewrite Hreads in Hr. congruence.
  - destruct (status_eqb (status_or_pending rid tbl) pending) eqn:Ep;
      [|reflexivity].
    assert (Hp : In rid (pending_ids reads tbl)).
    { apply (pending_ids_spec _ _ Hu).
      exists (status_or_pending rid tbl). split; [assumption|].
      now rewrite Hreads. }
    apply existsb_text in Hp. congruence.
Qed.



(** X13. A whole run of 00003.py.  Its list of routes is the one id
    written in the script, whatever the route list of the site holds:
    after the run every other route of the table has the status it had
    (pending when it is new) and the stops it had, and the route of the
    script has the status of its attempt.  When the table does not hold
    that route, the route table after the run is the table as the
    route list was saved: the outcome of the attempt is recorded
    nowhere in it. *)
Theorem main_00003_one_route (browser : Browser)
  (commit_ok : StopFrame -> bool)
  (plot_route_map : text -> StopFrame -> result unit)
  (reads_pending : RouteStatus -> bool) (st0 st : State) :
  main script_00003 browser commit_ok plot_route_map reads_pending st0
  = Ok st ->
  (forall rid,
     In rid (map RouteORM.route_id (data_route_list st)) ->
     status_of rid (data_route_list st)
     = Some (if text_eqb rid (t "0161000900")
             then verdict script_00003 browser commit_ok plot_route_map rid
             else status_or_pending rid (data_route_list st0))) /\
  (forall rid,
     rid <> t "0161000900" ->
     stops_of rid (data_route_info_busstop st)
     = stops_of rid (data_route_info_busstop st0)) /\
  (~ In (t "0161000900") (map RouteORM.route_id (data_route_list st)) ->
   exists content df,
     goto browser list_url = Ok content /\
     parse_route_list content = Ok df /\
     data_route_list st
     = taipei_route_list.save_to_database df (data_route_list st0)).
Proof.
  intros Hmain. unfold main in Hmain.
  destruct (goto browser list_url) as [content|]; [|discriminate].
  cbn [bind] in Hmain.
  destruct (parse_route_list content) as [df|] eqn:Ep; [|discriminate].
  cbn [bind] in Hmain. injection Hmain as <-.
  set (routes := taipei_route_list.save_to_database df (data_route_list st0)).
  change (run_loop script_00003 browser commit_ok plot_route_map
            (bus_list script_00003 reads_pending routes)
            (mkState routes (data_route_info_busstop st0) []))
    with (step script_00003 browser commit_ok plot_route_map
            (mkState routes (data_route_info_busstop st0) [])
            (t "0161000900")).
  set (final := step script_00003 browser commit_ok plot_route_map
                  (mkState routes (data_route_info_busstop st0) [])
                  (t "0161000900")).
  assert (Hkeys : map RouteORM.route_id (data_route_list final)
                  = map RouteORM.route_id routes)
    by (unfold final; now rewrite step_routes, set_route_status_keys).
  split; [|split].
  - intros rid Hin. rewrite Hkeys in Hin. unfold final.
    rewrite step_routes, status_of_set. cbn [data_route_list].
    assert (Hs : status_of rid routes = Some (status_or_pending rid routes))
      by now apply status_of_or_pending.
    rewrite Hs.
    assert (Hsame : status_or_pending rid routes
                    = status_or_pending rid (data_route_list st0))
      by apply status_or_pending_merge_all.
    rewrite Hsame.
    destruct (text_eqb rid (t "0161000900")) eqn:E; [|reflexivity].
    apply text_eqb_eq in E. now subst rid.
  - intros rid Hne. unfold final. rewrite step_stops.
    cbn [data_route_info_busstop].
    apply stops_of_save_persisted. congruence.
  - intros Hno. exists content, df.
    split; [reflexivity|]. split; [exact Ep|].
    unfold final. rewrite step_routes. cbn [data_route_list].
    apply set_route_status_absent.
    intros H. apply Hno. rewrite Hkeys. exact H.
Qed.

Lemma main_00003_one_route_witness :
  exists st,
    main script_00003 Fixtures.web Fixtures.always_commits
         Fixtures.plots reads_as_text Fixtures.empty_store = Ok st /\
    stops_of Fixtures.bus2 (data_route_info_busstop st)
    = stops_of Fixtures.bus2
        (data_route_info_busstop Fixtures.empty_store).
Proof.
  assert (H : exists st,
            main script_00003 Fixtures.web Fixtures.always_commits
                 Fixtures.plots reads_as_text Fixtures.empty_store = Ok st)
    by (vm_compute; eexists; reflexivity).
  destruct H as (st & H). exists st. split; [exact H|].
  apply (proj1 (proj2 (@main_00003_one_route _ _ _ _ _ _ H))).
  vm_compute. discriminate.
Defined.

(** ** The route finder finds every route *)

Module FinderGroups.
Import BusRouteFinder.

Lemma key_eqb_eq a b : key_eqb a b = true <-> a = b.
Proof.
  destruct a as [a1 a2], b as [b1 b2]. unfold key_eqb. cbn [fst snd].
  rewrite andb_true_iff, !text_eqb_eq. split; [intros []|intros H].
  - congruence.
  - now injection H.
Qed.

Lemma distinct_In k l : In k (distinct l) <-> In k l.
Proof.
  induction l as [|x l IH]; cbn [distinct In]; [tauto|].
  rewrite filter_In, IH. split; [tauto|].
  intros [->|H]; [now left|].
  destruct (key_eqb k x) eqn:E.
  - apply key_eqb_eq in E. now left.
  - right. now split.
Qed.

Lemma distinct_NoDup l : NoDup (distinct l).
Proof.
  induction l as [|x l IH]; cbn [distinct]; constructor.
  - rewrite filter_In. intros [_ H].
    assert (E : key_eqb x x = true) by now apply key_eqb_eq.
    now rewrite E in H.
  - now apply NoDup_filter.
Qed.

Lemma groupby_keys df :
  map fst (groupby df) = sort key_leb (distinct (map key_of df)).
Proof. unfold groupby. rewrite map_map. cbn [fst]. apply map_id. Qed.

Lemma groupby_NoDup df : NoDup (map fst (groupby df)).
Proof.
  rewrite groupby_keys.
  apply (Permutation_NoDup
           (Permutation_sym (FinderFacts.sort_perm key_leb _))).
  apply distinct_NoDup.
Qed.

Lemma groupby_In df k g :
  In (k, g) (groupby df) <->
  In k (map key_of df) /\ g = filter (fun r => key_eqb (key_of r) k) df.
Proof.
  unfold groupby. rewrite in_map_iff. split.
  - intros (k' & E & Hin). injection E as -> <-. split; [|reflexivity].
    apply distinct_In.
    apply (Permutation_in _ (FinderFacts.sort_perm key_leb _)). exact Hin.
  - intros [Hin ->]. exists k. split; [reflexivity|].
    apply (Permutation_in _
             (Permutation_sym (FinderFacts.sort_perm key_leb _))).
    now apply distinct_In.
Qed.

Lemma index_contains x l i : index x l = Some i -> contains x l = true.
Proof.
  intros H. apply FinderFacts.contains_In.
  apply FinderFacts.index_nth in H. now apply nth_error_In in H.
Qed.

Lemma find_in_group_spec origin destination g res :
  In res (find_in_group origin destination g) <->
  found_key res = fst g /\
  exists i j,
    index origin (map stop_name (sort_values (snd g))) = Some i /\
    index destination (map stop_name (sort_values (snd g))) = Some j /\
    i < j /\
    stops res = slice (map stop_name (sort_values (snd g))) i (j + 1).
Proof.
  unfold find_in_group. cbv zeta.
  set (names := map stop_name (sort_values (snd g))).
  split.
  - destruct (contains origin names && contains destination names);
      [|intros []].
    destruct (index origin names) as [i|]; [|intros []].
    destruct (index destination names) as [j|]; [|intros []].
    destruct (i <? j) eqn:Hij; [|intros []].
    intros [<-|[]]. split; [now destruct g as [[] ?]|].
    exists i, j. apply Nat.ltb_lt in Hij. now repeat split.
  - intros (Hk & i & j & Hi & Hj & Hij & Hs).
    rewrite (index_contains _ _ Hi), (index_contains _ _ Hj), Hi, Hj.
    apply Nat.ltb_lt in Hij. rewrite Hij. cbn [andb]. left.
    destruct res as [rn dt st]. unfold found_key in Hk.
    cbn [found_route_name found_direction_text stops] in *.
    rewrite <- Hk, <- Hs. reflexivity.
Qed.

Lemma find_in_group_one origin destination g :
  find_in_group origin destination g = [] \/
  exists res, find_in_group origin destination g = [res].
Proof.
  unfold find_in_group. cbv zeta.
  destruct (contains _ _ && contains _ _); [|now left].
  destruct (index origin _); [|now left].
  destruct (index destination _); [|now left].
  destruct (_ <? _); [right; eauto | now left].
Qed.

Lemma found_keys_NoDup origin destination gs :
  NoDup (map fst gs) ->
  NoDup (map found_key (flat_map (find_in_group origin destination) gs)).
Proof.
  induction gs as [|g gs IH]; cbn [map flat_map]; intros Hn;
    [constructor|].
  inversion Hn as [|? ? Hg Hgs]; subst.
  destruct (find_in_group_one origin destination g) as [E|(res & E)].
  - rewrite E. cbn [app]. now apply IH.
  - assert (Hk : found_key res = fst g).
    { apply (find_in_group_spec origin destination g res).
      rewrite E. now left. }
    rewrite E. cbn [app map]. constructor; [|now apply IH].
    intros H. apply in_map_iff in H. destruct H as (res' & Hk' & Hin).
    apply in_flat_map in Hin. destruct Hin as (g' & Hg' & Hres').
    apply find_in_group_spec in Hres'. destruct Hres' as [Hk'' _].
    apply Hg. rewrite <- Hk, <- Hk', Hk''. now apply in_map.
Qed.
End FinderGroups.

(** X14. [find_routes] finds every route and names none twice.  A
    result is returned exactly when the frame has a row of its (route,
    direction) group and, in the stop names of that group ordered by
    stop_number, the first occurrence of origin is strictly before the
    first occurrence of destination; its stops are then the slice from
    the one to the other.  No two results name the same group, and a
    group that yields a result from origin to destination yields none
    from destination to origin. *)
Theorem find_routes_complete (df : list BusRouteFinder.Row)
  (origin destination : text) :
  (forall res,
     In res (BusRouteFinder.find_routes df origin destination) <->
     In (found_key res) (map BusRouteFinder.key_of df) /\
     exists i j,
       BusRouteFinder.index origin (group_stops df (found_key res))
       = Some i /\
       BusRouteFinder.index destination (group_stops df (found_key res))
       = Some j /\
       i < j /\
       BusRouteFinder.stops res
       = BusRouteFinder.slice (group_stops df (found_key res)) i (j + 1)) /\
  NoDup (map found_key (BusRouteFinder.find_routes df origin destination)) /\
  (forall res back,
     In res (BusRouteFinder.find_routes df origin destination) ->
     In back (BusRouteFinder.find_routes df destination origin) ->
     found_key res <> found_key back).
Proof.
  assert (Hspec : forall o d res,
            In res (BusRouteFinder.find_routes df o d) <->
            In (found_key res) (map BusRouteFinder.key_of df) /\
            exists i j,
              BusRouteFinder.index o (group_stops df (found_key res))
              = Some i /\
              BusRouteFinder.index d (group_stops df (found_key res))
              = Some j /\
              i < j /\
              BusRouteFinder.stops res
              = BusRouteFinder.slice (group_stops df (found_key res))
                                     i (j + 1)).
  { intros o d res. unfold BusRouteFinder.find_routes.
    rewrite in_flat_map. split.
    - intros ([k g] & Hg & Hres).
      apply FinderGroups.find_in_group_spec in Hres.
      destruct Hres as [Hk Hex]. cbn [fst snd] in Hk, Hex.
      apply FinderGroups.groupby_In in Hg. destruct Hg as [Hin ->].
      rewrite Hk. split; [exact Hin | exact Hex].
    - intros [Hin Hex].
      exists (found_key res,
              filter (fun r => BusRouteFinder.key_eqb
                                 (BusRouteFinder.key_of r) (found_key res))
                     df).
      split; [now apply FinderGroups.groupby_In|].
      apply FinderGroups.find_in_group_spec. cbn [fst snd].
      split; [reflexivity | exact Hex]. }
  split; [apply Hspec|]. split.
  - apply FinderGroups.found_keys_NoDup. apply FinderGroups.groupby_NoDup.
  - intros res back Hres Hback E.
    apply Hspec in Hres. apply Hspec in Hback.
    destruct Hres as (_ & i & j & Hi & Hj & Hij & _).
    destruct Hback as (_ & j' & i' & Hj' & Hi' & Hji & _).
    rewrite <- E in Hj', Hi'. rewrite Hi in Hi'. rewrite Hj in Hj'.
    injection Hi' as <-. injection Hj' as <-. lia.
Qed.

Lemma find_routes_complete_witness :
  In Fixtures.found_307
     (BusRouteFinder.find_routes Fixtures.finder_frame (t "A") (t "C")) /\
  forall back,
    In back (BusRouteFinder.find_routes Fixtures.finder_frame
               (t "C") (t "A")) ->
    found_key Fixtures.found_307 <> found_key back.
Proof.
  assert (H : In Fixtures.found_307
                (BusRouteFinder.find_routes Fixtures.finder_frame
                   (t "A") (t "C")))
    by (vm_compute; left; reflexivity).
  split; [exact H|].
  intros back Hback.
  exact (proj2 (proj2 (find_routes_complete Fixtures.finder_frame
                         (t "A") (t "C")))
           Fixtures.found_307 back H Hback).
Defined.

(** ** interactive_bus_info.py: the frame of a page *)

Lemma interactive_convert dir rid content df :
  (df1 <- astype astype_float latitude set_latitude
            (stop_frame dir rid content) ;;
   astype astype_float longitude set_longitude df1) = Ok df ->
  Forall2 (interactive_row dir rid) (findall stop_pattern content) df.
Proof.
  destruct (astype astype_float latitude set_latitude
              (stop_frame dir rid content)) as [df1|] eqn:E1;
    [|discriminate].
  cbn [bind]. intros E2.
  apply astype_rows in E1. apply astype_rows in E2.
  pose proof (Forall2_compose E1 E2) as H.
  unfold stop_frame in H. apply Forall2_map_l in H.
  apply (Forall2_impl (R1 := fun a c =>
           exists b,
             (exists c0, astype_float (latitude (stop_row dir rid a)) = Ok c0
                         /\ b = set_latitude (stop_row dir rid a) c0) /\
             (exists c0, astype_float (longitude b) = Ok c0
                         /\ c = set_longitude b c0))); [|exact H].
  intros caps r Hin (b & (ca & Ha & ->) & (co & Ho & ->)).
  destruct (findall_stop_captures _ _ Hin)
    as (a & n & name & sid & lat & lon & -> & _).
  cbn [stop_row latitude longitude set_latitude] in Ha, Ho.
  apply astype_float_Str in Ha. destruct Ha as (qa & Hqa & ->).
  apply astype_float_Str in Ho. destruct Ho as (qo & Hqo & ->).
  exists a, n, name, sid, lat, lon, qa, qo. now repeat split.
Qed.



(** ** Two scripts, one stored table *)

Lemma merge_stop_orm o o' tbl :
  stop_orm o = stop_orm o' ->
  merge stop_mapper o tbl = merge stop_mapper o' tbl.
Proof.
  intros H.
  assert (Hk : key_of_obj stop_mapper o = key_of_obj stop_mapper o').
  { change (key_of_row stop_mapper (stop_orm o)
            = key_of_row stop_mapper (stop_orm o')). now rewrite H. }
  induction tbl as [|r tbl IH].
  - cbn [merge load stop_mapper]. now rewrite H.
  - rewrite !merge_cons, <- Hk, IH.
    cbn [load stop_mapper]. now rewrite H.
Qed.

Lemma merge_all_stop_orm df1 df2 tbl :
  map stop_orm df1 = map stop_orm df2 ->
  merge_all stop_mapper df1 tbl = merge_all stop_mapper df2 tbl.
Proof.
  unfold merge_all. revert df2 tbl.
  induction df1 as [|o df1 IH]; intros [|o' df2] tbl H;
    try discriminate; [reflexivity|].
  cbn [map] in H.
  pose proof (f_equal (fun l => nth 0 l (stop_orm o)) H) as Ho.
  pose proof (f_equal (@tl _) H) as Hdf.
  cbn [nth tl] in Ho, Hdf. cbn [fold_left].
  rewrite (@merge_stop_orm o o' tbl Ho). now apply IH.
Qed.

Lemma Forall2_map_eq A B C (f : A -> C) (g : B -> C) l l' :
  Forall2 (fun a b => f a = g b) l l' -> map f l = map g l'.
Proof.
  induction 1 as [|a b l l' Hab _ IH]; [reflexivity|].
  cbn [map]. now rewrite Hab, IH.
Qed.



(** ** A page without stops in the two front ends *)

Lemma interactive_empty dir rid content :
  fst (Interactive.parse_route_info dir rid content) = Ok [] <->
  findall stop_pattern content = [].
Proof.
  unfold Interactive.parse_route_info.
  pose proof (@interactive_convert dir rid content) as Hconv.
  unfold stop_frame in *.
  destruct (findall stop_pattern content) as [|c0 ms] eqn:E.
  - cbn [map fst]. tauto.
  - destruct (map (stop_row dir rid) (c0 :: ms)) as [|r0 df0] eqn:Em;
      [discriminate|].
    rewrite <- Em in *.
    destruct (df1 <- astype astype_float latitude set_latitude
                       (map (stop_row dir rid) (c0 :: ms)) ;;
              astype astype_float longitude set_longitude df1)
      as [df2|e2] eqn:E2; cbn [fst].
    + specialize (Hconv df2 eq_refl). split; [|discriminate].
      intros H. injection H as ->. inversion Hconv.
    + split; discriminate.
Qed.

(** X17. A route page without a stop entry, in the two front ends that
    share the parser of interactive_bus_info.py.  The parser returns a
    frame without columns.  interactive_interface tests [df.empty] and
    says that there is no arrival information; the main of
    route_stop_info.py selects the column stop_name first, so its
    [try] block ends in the KeyError of that column and the user reads
    an error, and this is the only way to that KeyError.  It says that
    there is no arrival information only when the page has stops and
    none is named origin or destination. *)
Theorem front_ends_without_stops (b : Browser)
  (rid direction_text origin destination : text) :
  let dir := if text_eqb direction_text (t "去程") then t "go"
             else t "come" in
  (forall column,
     FrontEnds.route_stop_query b rid direction_text origin destination
     = FrontEnds.QueryKeyError column <->
     column = t "stop_name" /\
     exists content,
       fst (InteractiveFetch.fetch_route_info b rid dir) = Ok content /\
       findall stop_pattern content = []) /\
  (forall content,
     fst (InteractiveFetch.fetch_route_info b rid dir) = Ok content ->
     findall stop_pattern content = [] ->
     FrontEnds.interactive_query b rid dir = FrontEnds.NoArrivalInfo) /\
  (FrontEnds.route_stop_query b rid direction_text origin destination
   = FrontEnds.NoArrivalInfo <->
   exists content df,
     fst (InteractiveFetch.fetch_route_info b rid dir) = Ok content /\
     fst (Interactive.parse_route_info dir rid content) = Ok df /\
     df <> [] /\
     forall r, In r df -> stop_name r <> origin /\ stop_name r <> destination).
Proof.
  cbv zeta. unfold FrontEnds.route_stop_query, FrontEnds.interactive_query.
  set (dir := if text_eqb direction_text (t "去程") then t "go"
              else t "come").
  destruct (fst (InteractiveFetch.fetch_route_info b rid dir))
    as [content|e].
  - pose proof (interactive_empty dir rid content) as Hempty.
    destruct (fst (Interactive.parse_route_info dir rid content))
      as [[|r0 df0]|e] eqn:Ep.
    + split; [|split].
      * intros column. split.
        -- intros H. injection H as <-. split; [reflexivity|].
           exists content. split; [reflexivity | now apply Hempty].
        -- intros [-> _]. reflexivity.
      * intros c Hc Hm. reflexivity.
      * split; [discriminate|].
        intros (c & df & Hc & Hdf & Hne & _). injection Hc as <-.
        rewrite Ep in Hdf. injection Hdf as <-. now elim Hne.
    + assert (Hm : findall stop_pattern content <> []).
      { intros H. apply Hempty in H. discriminate. }
      split; [|split].
      * intros column. split.
        -- destruct (filter _ (r0 :: df0)); discriminate.
        -- intros (_ & c & Hc & H). injection Hc as <-. contradiction.
      * intros c Hc H. injection Hc as <-. contradiction.
      * split.
        -- intros H. exists content, (r0 :: df0).
           split; [reflexivity|]. split; [exact Ep|].
           split; [discriminate|].
           intros r Hr.
           destruct (filter _ (r0 :: df0)) as [|x rows] eqn:Ef;
             [|discriminate].
           destruct (text_eqb (stop_name r) origin
                     || text_eqb (stop_name r) destination) eqn:E.
           ++ assert (Hin : In r []).
              { rewrite <- Ef. apply filter_In. now split. }
              contradiction.
           ++ apply orb_false_iff in E. destruct E as [E1 E2].
              apply text_eqb_neq in E1, E2. now split.
        -- intros (c & df & Hc & Hdf & _ & Hall). injection Hc as <-.
           rewrite Ep in Hdf. injection Hdf as <-.
           rewrite filter_none; [reflexivity|].
           intros r Hr. destruct (Hall r Hr) as [H1 H2].
           apply text_eqb_neq in H1, H2. now rewrite H1, H2.
    + assert (Hm : findall stop_pattern content <> []).
      { intros H. apply Hempty in H. discriminate. }
      split; [|split].
      * intros column. split; [discriminate|].
        intros (_ & c & Hc & H). injection Hc as <-. contradiction.
      * intros c Hc H. injection Hc as <-. contradiction.
      * split; [discriminate|].
        intros (c & df & Hc & Hdf & _). injection Hc as <-.
        rewrite Ep in Hdf. discriminate.
  - split; [|split].
    + intros column. split; [discriminate|].
      intros (_ & c & Hc & _). discriminate.
    + intros c Hc. discriminate.
    + split; [discriminate|]. intros (c & df & Hc & _). discriminate.
Qed.

Lemma front_ends_without_stops_witness :
  FrontEnds.interactive_query Fixtures.click_times_out Fixtures.bus1
    (t "come")
  = FrontEnds.NoArrivalInfo /\
  FrontEnds.route_stop_query Fixtures.click_times_out Fixtures.bus1
    (t "back") (t "A") (t "B")
  = FrontEnds.QueryKeyError (t "stop_name").
Proof.
  pose proof (front_ends_without_stops Fixtures.click_times_out
                Fixtures.bus1 (t "back") (t "A") (t "B")) as H.
  cbv zeta in H. destruct H as (Hkey & Hint & _).
  assert (Hc : fst (InteractiveFetch.fetch_route_info
                      Fixtures.click_times_out Fixtures.bus1 (t "come"))
               = Ok Fixtures.no_stops_page) by (vm_compute; reflexivity).
  assert (Hm : findall stop_pattern Fixtures.no_stops_page = [])
    by (vm_compute; reflexivity).
  split.
  - exact (Hint Fixtures.no_stops_page Hc Hm).
  - apply (proj2 (Hkey (t "stop_name"))). split; [reflexivity|].
    exists Fixtures.no_stops_page. split; [exact Hc | exact Hm].
Defined.
